(** * Verification of the gateway chat client

    A shallow embedding of these parts of the TypeScript sources:
    - the thinking filter [stripThinking] (hooks/useGateways.ts),
    - the upstream client [GatewayClient] and its id generator [nextId]
      (src/gateway.ts),
    - the downstream sockets [ChatSocket] and [FederatedChatSocket]
      (the backend API client, second part of src/store.ts),
    - the settings kept in [localStorage] (first part of src/store.ts) and
      the notification preferences (src/notificationPrefs.ts),
    - the subscriptions [on], [off] and [emit] of the three classes,
    - the [stream] handlers and [sendMessage] of the hooks
      (hooks/useGateways.ts, hooks/useFederatedChat.ts),
    - the age of a message (components/ChatView.tsx).

    JavaScript strings are sequences of UTF-16 code units; text handled by
    the filter and the hooks is modelled as [list N].  Identifiers, method
    names and signal names, which the code builds from ASCII literals and
    decimal numbers, are modelled as [string]. *)

From Stdlib Require Import NArith ZArith List Bool Ascii String Lia.
From Stdlib Require Import DecimalString DecimalN.
From stdpp Require Import base option list gmap strings.
Import ListNotations.

Local Open Scope N_scope.

(** ** Part 1. The thinking filter *)

Module Filter.

(** A JavaScript string: its UTF-16 code units. *)
Definition jsstring := list N.

(** The code units of an ASCII literal. *)
Definition units (s : string) : jsstring :=
  List.map N_of_ascii (list_ascii_of_string s).

Definition unit_of (a : ascii) : N := N_of_ascii a.
Arguments unit_of : simpl never.

(** [\s] of a RegExp and the characters removed by [String.prototype.trim]
    are the same set: WhiteSpace and LineTerminator of ECMA-262
    (TAB, LF, VT, FF, CR, SP, NBSP, U+1680, U+2000..U+200A, U+2028, U+2029,
    U+202F, U+205F, U+3000, U+FEFF). *)
Definition is_white_space (c : N) : bool :=
  ((9 <=? c) && (c <=? 13)) || (c =? 32) || (c =? 160) || (c =? 5760)
  || ((8192 <=? c) && (c <=? 8202)) || (c =? 8232) || (c =? 8233)
  || (c =? 8239) || (c =? 8287) || (c =? 12288) || (c =? 65279).

(** Word characters of [\b] without the [u] flag: [A-Za-z0-9_]. *)
Definition is_word_char (c : N) : bool :=
  ((48 <=? c) && (c <=? 57)) || ((65 <=? c) && (c <=? 90)) || (c =? 95)
  || ((97 <=? c) && (c <=? 122)).

(** Canonicalize of ECMA-262 for the [i] flag without [u], as far as this
    pattern can observe it: every character of the pattern is ASCII, and a
    code unit of 128 or more never canonicalizes to an ASCII one, so only
    the ASCII letters are folded (to upper case). *)
Definition canonicalize (c : N) : N :=
  if (97 <=? c) && (c <=? 122) then c - 32 else c.

(** Single-character matchers. *)
Inductive cls : Type :=
| CChr (c : N)      (* a pattern character, compared after Canonicalize *)
| CSpace            (* \s *)
| CNot (c : N).     (* [^c] *)

Definition cls_match (p : cls) (c : N) : bool :=
  match p with
  | CChr a => canonicalize c =? canonicalize a
  | CSpace => is_white_space c
  | CNot a => negb (canonicalize c =? canonicalize a)
  end.

(** The fragment of RegExp syntax the pattern uses.  Quantifiers are greedy;
    [*] is only ever applied to a single-character matcher. *)
Inductive regex : Type :=
| Eps
| One (p : cls)
| Star (p : cls)
| Opt (r : regex)
| Seq (r1 r2 : regex)
| Alt (r1 r2 : regex)
| WordB.

Definition is_word_at (o : option N) : bool :=
  match o with Some c => is_word_char c | None => false end.

(** Greedy [p*]: take as many characters as possible, give them back one at
    a time while the continuation fails. *)
Fixpoint star (p : N -> bool) (prev : option N) (s : jsstring)
    (k : option N -> jsstring -> option jsstring) : option jsstring :=
  match s with
  | c :: t =>
      if p c then
        match star p (Some c) t k with
        | Some r => Some r
        | None => k prev s
        end
      else k prev s
  | [] => k prev []
  end.

(** The backtracking matcher of ECMA-262, in continuation-passing style.
    [prev] is the character before the current position (for [\b]), [s] the
    input from the current position on.  The result is the input left after
    the whole match. *)
Fixpoint bt (r : regex) (prev : option N) (s : jsstring)
    (k : option N -> jsstring -> option jsstring) : option jsstring :=
  match r with
  | Eps => k prev s
  | One p =>
      match s with
      | c :: t => if cls_match p c then k (Some c) t else None
      | [] => None
      end
  | Star p => star (cls_match p) prev s k
  | Opt r1 =>
      match bt r1 prev s k with
      | Some x => Some x
      | None => k prev s
      end
  | Seq r1 r2 => bt r1 prev s (fun prev' s' => bt r2 prev' s' k)
  | Alt r1 r2 =>
      match bt r1 prev s k with
      | Some x => Some x
      | None => bt r2 prev s k
      end
  | WordB =>
      if xorb (is_word_at prev) (is_word_at (head s)) then k prev s else None
  end.

(** A literal word of the pattern. *)
Fixpoint lit (w : list N) : regex :=
  match w with
  | [] => Eps
  | c :: t => Seq (One (CChr c)) (lit t)
  end.

Definition word (s : string) : regex := lit (units s).

(** The pattern of [stripThinking]:
    [/<\s*\/?(?:think(?:ing)?|thought|antthinking)\b[^>]*>/gi]. *)
Definition thinking_re : regex :=
  Seq (One (CChr (unit_of "<")))
 (Seq (Star CSpace)
 (Seq (Opt (One (CChr (unit_of "/"))))
 (Seq (Alt (Seq (word "think") (Opt (word "ing")))
      (Alt (word "thought") (word "antthinking")))
 (Seq WordB
 (Seq (Star (CNot (unit_of ">")))
      (One (CChr (unit_of ">")))))))).

(** One match attempt of the pattern at the current position. *)
Definition match_at (prev : option N) (s : jsstring) : option jsstring :=
  bt thinking_re prev s (fun _ rest => Some rest).

(** [text.replace(re, '')] with the [g] flag: the input is scanned from left
    to right; where the pattern matches, the matched characters are dropped
    and the scan resumes after them; elsewhere the character is kept.
    [skip] counts the characters of the current match still to be dropped. *)
Fixpoint replace_from (skip : nat) (prev : option N) (s : jsstring) : jsstring :=
  match s with
  | [] => []
  | c :: t =>
      match skip with
      | S n => replace_from n (Some c) t
      | O =>
          match match_at prev s with
          | Some rest =>
              replace_from (length s - length rest - 1) (Some c) t
          | None => c :: replace_from O (Some c) t
          end
      end
  end.

Definition replace_tags (s : jsstring) : jsstring := replace_from 0 None s.

(** [String.prototype.trim]. *)
Fixpoint trim_start (s : jsstring) : jsstring :=
  match s with
  | c :: t => if is_white_space c then trim_start t else s
  | [] => []
  end.

Definition trim_end (s : jsstring) : jsstring := rev (trim_start (rev s)).

Definition trim (s : jsstring) : jsstring := trim_end (trim_start s).

(** [stripThinking(text)]. *)
Definition stripThinking (text : jsstring) : jsstring :=
  trim (replace_tags text).

(** *** Specification-side notions for the filter *)

(** The character before the position reached after reading [m]. *)
Fixpoint last_of (prev : option N) (m : jsstring) : option N :=
  match m with
  | [] => prev
  | c :: t => last_of (Some c) t
  end.

(** Declarative reading of the pattern fragment: [matches r prev m rest]
    says that [r] can match exactly the characters [m] when the character
    before them is [prev] and the input continues with [rest]. *)
Inductive matches : regex -> option N -> jsstring -> jsstring -> Prop :=
| M_Eps prev rest : matches Eps prev [] rest
| M_One p c prev rest :
    cls_match p c = true -> matches (One p) prev [c] rest
| M_Star p prev m rest :
    forallb (cls_match p) m = true -> matches (Star p) prev m rest
| M_OptSome r prev m rest :
    matches r prev m rest -> matches (Opt r) prev m rest
| M_OptNone r prev rest : matches (Opt r) prev [] rest
| M_Seq r1 r2 prev m1 m2 rest :
    matches r1 prev m1 (m2 ++ rest) ->
    matches r2 (last_of prev m1) m2 rest ->
    matches (Seq r1 r2) prev (m1 ++ m2) rest
| M_AltL r1 r2 prev m rest :
    matches r1 prev m rest -> matches (Alt r1 r2) prev m rest
| M_AltR r1 r2 prev m rest :
    matches r2 prev m rest -> matches (Alt r1 r2) prev m rest
| M_WordB prev rest :
    xorb (is_word_at prev) (is_word_at (head rest)) = true ->
    matches WordB prev [] rest.

(** The names of the four tag families. *)
Definition tag_names : list jsstring :=
  [units "think"; units "thinking"; units "thought"; units "antthinking"].

Definition fold_case (w : jsstring) : jsstring := List.map canonicalize w.

(** A tag marker: ["<"], optional white space, an optional ["/"], the name
    of one of the four families in any letter case, then any text without
    [">"] that does not continue the name with a word character, and [">"]. *)
Definition tag_marker (m : jsstring) : Prop :=
  exists ws sl nm attrs,
    m = unit_of "<" :: ws ++ sl ++ nm ++ attrs ++ [unit_of ">"] /\
    forallb is_white_space ws = true /\
    (sl = [] \/ sl = [unit_of "/"]) /\
    In (fold_case nm) (List.map fold_case tag_names) /\
    forallb (fun c => negb (c =? unit_of ">")) attrs = true /\
    is_word_at (head (attrs ++ [unit_of ">"])) = false.

(** [erases s t]: [t] is [s] with some tag markers deleted and every other
    character kept, in order. *)
Inductive erases : jsstring -> jsstring -> Prop :=
| E_nil : erases [] []
| E_keep c s t : erases s t -> erases (c :: s) (c :: t)
| E_drop m s t : tag_marker m -> erases s t -> erases (m ++ s) t.

(** [strips s t]: [t] is what is left of [s] when it is read from left to
    right and, at every position where a tag marker starts, the marker is
    deleted and reading resumes after it; a character is kept only where
    no tag marker starts.  A marker that starts inside an earlier one is
    deleted with it and is no marker of its own. *)
Inductive strips : jsstring -> jsstring -> Prop :=
| S_nil : strips [] []
| S_drop m s t : tag_marker m -> strips s t -> strips (m ++ s) t
| S_keep c s t :
    (forall m rest, tag_marker m -> c :: s <> m ++ rest) ->
    strips s t -> strips (c :: s) (c :: t).

(** Does the pattern match somewhere in [s]? *)
Fixpoint has_tag (prev : option N) (s : jsstring) : bool :=
  match s with
  | [] => false
  | c :: t =>
      match match_at prev s with
      | Some _ => true
      | None => has_tag (Some c) t
      end
  end.

End Filter.

(** ** Part 2. The upstream client (src/gateway.ts)

    The client is event driven.  A [World] holds the fields of the
    [GatewayClient] object together with what its callbacks close over:
    the module-level [reqCounter], the clock, the sockets created so far
    with their [readyState], and the timers that are armed.  What the client
    does to the outside (frames sent, signals emitted to subscribers,
    promises settled) is appended to [log].  Subscribers are not modelled:
    [emit] records the signal. *)

Module Gateway.

Local Open Scope string_scope.

(** *** Identifiers *)

(** [++reqCounter] on a JavaScript number: integers are exact up to 2^53,
    where adding one no longer changes the value. *)
Definition js_succ (c : N) : N := (if c <? 2 ^ 53 then c + 1 else c)%N.

(** A non-negative integer in a template literal: its decimal digits. *)
Definition decimal (n : N) : string := NilEmpty.string_of_uint (N.to_uint n).

(** [`r${counter}_${now}`]. *)
Definition mk_id (counter now : N) : string :=
  "r" +:+ decimal counter +:+ "_" +:+ decimal now.

(** *** Data *)

Inductive ReadyState : Type := CONNECTING | OPEN | CLOSING | CLOSED.

Inductive TimerKind : Type :=
| TDial (sock promise : nat)  (* the 15 s timer set by [_connect] *)
| TReconnect                  (* the timer set by [scheduleReconnect] *)
| TRequest (id : string).     (* the deadline of [request] *)

Record Timer : Type := mkTimer { due : N; callback : TimerKind }.

(** A socket and what its listeners close over: the timer and the promise
    of the [_connect] call that created it. *)
Record Socket : Type := mkSocket {
  readyState : ReadyState;
  dialTimer : nat;
  dialPromise : nat
}.

Inductive Error : Type :=
| ENotConnected                            (* 'Not connected' *)
| ERequestTimeout                          (* 'Request timeout' *)
| EConnectionTimeout                       (* 'Connection timeout' *)
| EConnectionClosed (code : N) (reason : string)  (* 'Connection closed: ...' *)
| EWebSocketError                          (* 'WebSocket error ...' *)
| EDisconnected                            (* 'Disconnected' *)
| EUpstream (message : option string)      (* error of a response *)
| EConstructor.                            (* thrown by [new WebSocket] *)

(** A parsed incoming frame.  [res_id] is [None] when the id is missing or
    not a string; [res_ok_false] is [msg.ok === false]; [res_error] is
    [None] when [msg.error] is falsy and otherwise holds its truthy
    [message], if any. *)
Inductive Incoming : Type :=
| Malformed
| InEvent (event : string) (payload : string)
| InRes (res_id : option string) (res_ok_false : bool)
        (res_error : option (option string)) (payload : string).

Record Auth : Type := mkAuth {
  auth_token : option string;
  auth_password : option string
}.

Record ConnectParams : Type := mkConnectParams {
  auth : option Auth;
  role : string;
  scopes : list string;
  permissions : list (string * bool);
  client_id : string;
  client_version : string;
  client_platform : string;
  client_mode : string;
  instanceId : string;
  minProtocol : Z;
  maxProtocol : Z
}.

Inductive Params : Type :=
| PConnect (p : ConnectParams)
| PJson (json : string).

Record Frame : Type := mkFrame {
  f_type : string;
  f_id : string;
  f_method : string;
  f_params : Params
}.

Inductive Data : Type :=
| DEmpty
| DClose (code : N) (reason : string)
| DReconnecting (attempt delay : N)
| DJson (payload : string)
| DMessage (m : Incoming).

Inductive Obs : Type :=
| Sent (sock : nat) (f : Frame)
| Emit (event : string) (data : Data)
| RequestResolved (id : string) (payload : string)
| RequestRejected (id : string) (e : Error)
| RequestThrew (e : Error)
| ConnectResolved (promise : nat)
| ConnectRejected (promise : nat) (e : Error).

Record GatewayConfig : Type := mkConfig {
  url_ok : bool;            (* does [new WebSocket(config.url)] accept the URL *)
  token : option string;
  password : option string
}.

(** The fields of a [GatewayClient].  [connectPromise] stands for the pair
    [connectResolve]/[connectReject], which the code always sets and clears
    together.  [pending] keeps the insertion order of the [Map]. *)
Record Client : Type := mkClient {
  ws : option nat;
  pending : list (string * nat);
  _connected : bool;
  reconnectTimer : option nat;
  reconnectAttempts : N;
  shouldReconnect : bool;
  connectPromise : option nat;
  connectId : option string
}.

Record World : Type := mkWorld {
  client : Client;
  config : GatewayConfig;
  reqCounter : N;
  now : N;
  sockets : list Socket;
  timers : gmap nat Timer;
  nextTimer : nat;
  nextPromise : nat;
  log : list Obs
}.

Definition maxReconnectAttempts : N := 10.

Definition new_client : Client :=
  mkClient None [] false None 0 true None None.

(** A fresh page: one client, no socket, no timer. Timer handles start at 1
    (a handle is truthy). *)
Definition init (cfg : GatewayConfig) (t0 : N) : World :=
  mkWorld new_client cfg 0 t0 [] ∅ 1 0 [].

(** *** Field updates *)

Definition set_ws v c :=
  mkClient v (pending c) (_connected c) (reconnectTimer c)
    (reconnectAttempts c) (shouldReconnect c) (connectPromise c) (connectId c).
Definition set_pending v c :=
  mkClient (ws c) v (_connected c) (reconnectTimer c)
    (reconnectAttempts c) (shouldReconnect c) (connectPromise c) (connectId c).
Definition set_connected v c :=
  mkClient (ws c) (pending c) v (reconnectTimer c)
    (reconnectAttempts c) (shouldReconnect c) (connectPromise c) (connectId c).
Definition set_reconnectTimer v c :=
  mkClient (ws c) (pending c) (_connected c) v
    (reconnectAttempts c) (shouldReconnect c) (connectPromise c) (connectId c).
Definition set_reconnectAttempts v c :=
  mkClient (ws c) (pending c) (_connected c) (reconnectTimer c)
    v (shouldReconnect c) (connectPromise c) (connectId c).
Definition set_shouldReconnect v c :=
  mkClient (ws c) (pending c) (_connected c) (reconnectTimer c)
    (reconnectAttempts c) v (connectPromise c) (connectId c).
Definition set_connectPromise v c :=
  mkClient (ws c) (pending c) (_connected c) (reconnectTimer c)
    (reconnectAttempts c) (shouldReconnect c) v (connectId c).
Definition set_connectId v c :=
  mkClient (ws c) (pending c) (_connected c) (reconnectTimer c)
    (reconnectAttempts c) (shouldReconnect c) (connectPromise c) v.

Definition upd (f : Client -> Client) (w : World) : World :=
  mkWorld (f (client w)) (config w) (reqCounter w) (now w) (sockets w)
    (timers w) (nextTimer w) (nextPromise w) (log w).
Definition set_reqCounter v w :=
  mkWorld (client w) (config w) v (now w) (sockets w)
    (timers w) (nextTimer w) (nextPromise w) (log w).
Definition set_now v w :=
  mkWorld (client w) (config w) (reqCounter w) v (sockets w)
    (timers w) (nextTimer w) (nextPromise w) (log w).
Definition set_sockets v w :=
  mkWorld (client w) (config w) (reqCounter w) (now w) v
    (timers w) (nextTimer w) (nextPromise w) (log w).
Definition set_timers v w :=
  mkWorld (client w) (config w) (reqCounter w) (now w) (sockets w)
    v (nextTimer w) (nextPromise w) (log w).
Definition set_nextTimer v w :=
  mkWorld (client w) (config w) (reqCounter w) (now w) (sockets w)
    (timers w) v (nextPromise w) (log w).
Definition set_nextPromise v w :=
  mkWorld (client w) (config w) (reqCounter w) (now w) (sockets w)
    (timers w) (nextTimer w) v (log w).
Definition say (o : Obs) (w : World) : World :=
  mkWorld (client w) (config w) (reqCounter w) (now w) (sockets w)
    (timers w) (nextTimer w) (nextPromise w) (log w ++ [o]).

(** *** The platform: timers and sockets *)

Definition setTimeout (cb : TimerKind) (delay : N) (w : World) : nat * World :=
  let h := nextTimer w in
  (h, set_nextTimer (S h)
        (set_timers (<[h := mkTimer (now w + delay)%N cb]> (timers w)) w)).

Definition clearTimeout (h : nat) (w : World) : World :=
  set_timers (delete h (timers w)) w.

Definition ready (s : nat) (w : World) : option ReadyState :=
  readyState <$> sockets w !! s.

Definition set_ready (s : nat) (r : ReadyState) (w : World) : World :=
  match sockets w !! s with
  | Some sk =>
      set_sockets
        (<[s := mkSocket r (dialTimer sk) (dialPromise sk)]> (sockets w)) w
  | None => w
  end.

(** [ws.close()]: starts the closing handshake of a socket that is
    connecting or open; the [close] event follows later. *)
Definition ws_close (s : nat) (w : World) : World :=
  match ready s w with
  | Some CONNECTING | Some OPEN => set_ready s CLOSING w
  | _ => w
  end.

(** [this.ws?.close()]. *)
Definition close_current (w : World) : World :=
  match ws (client w) with
  | Some s => ws_close s w
  | None => w
  end.

(** [ws.send(JSON.stringify(f))]: a frame leaves on an open socket only (on
    a connecting socket [send] throws, on a closing or closed one the data
    is discarded). *)
Definition ws_send (s : nat) (f : Frame) (w : World) : World :=
  match ready s w with
  | Some OPEN => say (Sent s f) w
  | _ => w
  end.

(** *** The [pending] map *)

Definition pending_has (id : string) (l : list (string * nat)) : bool :=
  existsb (fun e => String.eqb (fst e) id) l.

Definition pending_get (id : string) (l : list (string * nat)) : option nat :=
  snd <$> List.find (fun e => String.eqb (fst e) id) l.

Definition pending_delete (id : string) (l : list (string * nat))
    : list (string * nat) :=
  List.filter (fun e => negb (String.eqb (fst e) id)) l.

Fixpoint pending_set (id : string) (h : nat) (l : list (string * nat))
    : list (string * nat) :=
  match l with
  | [] => [(id, h)]
  | (k, v) :: t =>
      if String.eqb k id then (k, h) :: t else (k, v) :: pending_set id h t
  end.

(** *** The methods of [GatewayClient] *)

(** [nextId()]. *)
Definition nextId (w : World) : string * World :=
  let c := js_succ (reqCounter w) in
  (mk_id c (now w), set_reqCounter c w).

Definition emit (event : string) (data : Data) (w : World) : World :=
  say (Emit event data) w.

(** [flushPending(error)]. *)
Definition flushPending (e : Error) (w : World) : World :=
  let w :=
    fold_left (fun w (p : string * nat) =>
                 say (RequestRejected (fst p) e) (clearTimeout (snd p) w))
              (pending (client w)) w in
  upd (set_pending []) w.
Arguments flushPending : simpl never.

(** [_connect()]. *)
Definition _connect (w : World) : World :=
  let p := nextPromise w in
  let w := set_nextPromise (S p) w in
  if url_ok (config w) then
    let s := length (sockets w) in
    let w := set_sockets (sockets w ++ [mkSocket CONNECTING (nextTimer w) p]) w in
    let w := upd (fun c => set_connectPromise (Some p) (set_ws (Some s) c)) w in
    snd (setTimeout (TDial s p) 15000 w)
  else say (ConnectRejected p EConstructor) w.

(** [connect()]. *)
Definition connect (w : World) : World :=
  _connect
    (upd (fun c => set_reconnectAttempts 0 (set_shouldReconnect true c)) w).

(** [Math.min(1000 * Math.pow(2, attempts), 30000)]. *)
Definition backoff_delay (attempts : N) : N :=
  N.min (1000 * 2 ^ attempts)%N 30000.

(** [scheduleReconnect()]. *)
Definition scheduleReconnect (w : World) : World :=
  if (maxReconnectAttempts <=? reconnectAttempts (client w))%N then
    emit "reconnect_failed" DEmpty w
  else
    let delay := backoff_delay (reconnectAttempts (client w)) in
    let w := upd (fun c => set_reconnectAttempts (reconnectAttempts c + 1)%N c) w in
    let w :=
      emit "reconnecting" (DReconnecting (reconnectAttempts (client w)) delay) w in
    let '(h, w) := setTimeout TReconnect delay w in
    upd (set_reconnectTimer (Some h)) w.

(** Truthiness of an optional string field. *)
Definition truthy (o : option string) : bool :=
  match o with
  | Some s => negb (String.eqb s "")
  | None => false
  end.

Definition operator_scopes : list string :=
  ["operator.read"; "operator.write"; "operator.admin";
   "operator.approvals"; "operator.pairing"].

(** The [auth] object built by [sendConnect], [undefined] when it has no
    key. *)
Definition connect_auth (cfg : GatewayConfig) : option Auth :=
  let a :=
    mkAuth (if truthy (token cfg) then token cfg else None)
           (if truthy (password cfg) then password cfg else None) in
  match auth_token a, auth_password a with
  | None, None => None
  | _, _ => Some a
  end.

Definition connect_params (w : World) : ConnectParams :=
  mkConnectParams
    (connect_auth (config w))
    "operator"
    operator_scopes
    [("operator.admin", true); ("operator.approvals", true);
     ("operator.pairing", true)]
    "openclaw-control-ui" "2.0.0" "web" "webchat"
    ("chat_" +:+ decimal (now w))
    3 3.

(** [sendConnect(challenge)]. *)
Definition sendConnect (w : World) : World :=
  let params := connect_params w in
  let '(id, w) := nextId w in
  let w := upd (set_connectId (Some id)) w in
  match ws (client w) with
  | Some s => ws_send s (mkFrame "req" id "connect" (PConnect params)) w
  | None => w
  end.

(** [msg.ok !== false && !msg.error]. *)
Definition res_success (ok_false : bool) (err : option (option string)) : bool :=
  negb ok_false && match err with Some _ => false | None => true end.

(** [this.connectId && msg.id === this.connectId]. *)
Definition is_connect_response (w : World) (id : option string) : bool :=
  match connectId (client w), id with
  | Some cid, Some i => truthy (Some cid) && String.eqb i cid
  | _, _ => false
  end.

(** [handleMessage(data)], on the parsed frame. *)
Definition handleMessage (m : Incoming) (w : World) : World :=
  match m with
  | Malformed => w
  | InEvent event payload =>
      if String.eqb event "connect.challenge" then sendConnect w
      else
        let w := emit "event" (DMessage m) w in
        let w :=
          if String.eqb event "chat" then emit "chat.stream" (DMessage m) w
          else w in
        if String.eqb event "exec.approval.requested"
        then emit "exec.approval" (DMessage m) w
        else w
  | InRes id ok_false err payload =>
      if is_connect_response w id then
        let w := upd (set_connectId None) w in
        let w :=
          if res_success ok_false err then
            let w :=
              upd (fun c => set_reconnectAttempts 0 (set_connected true c)) w in
            let w := emit "connected" (DJson payload) w in
            match connectPromise (client w) with
            | Some p => say (ConnectResolved p) w
            | None => w
            end
          else
            match connectPromise (client w) with
            | Some p =>
                say (ConnectRejected p
                       (EUpstream (match err with Some e => e | None => None end)))
                    w
            | None => w
            end in
        upd (set_connectPromise None) w
      else
        match id with
        | Some i =>
            match pending_get i (pending (client w)) with
            | Some h =>
                let w := clearTimeout h w in
                let w := upd (fun c => set_pending (pending_delete i (pending c)) c) w in
                if res_success ok_false err then say (RequestResolved i payload) w
                else
                  say (RequestRejected i
                         (EUpstream (match err with Some e => e | None => None end)))
                      w
            | None => w
            end
        | None => w
        end
  end.

(** Is [this.ws] an open socket? *)
Definition ws_open (w : World) : option nat :=
  match ws (client w) with
  | Some s =>
      match ready s w with
      | Some OPEN => Some s
      | _ => None
      end
  | None => None
  end.

(** [request(method, params, timeoutMs)]. *)
Definition request (method : string) (params : string) (timeoutMs : N)
    (w : World) : World :=
  match ws_open w with
  | None => say (RequestThrew ENotConnected) w
  | Some s =>
      let '(id, w) := nextId w in
      let '(h, w) := setTimeout (TRequest id) timeoutMs w in
      let w := upd (fun c => set_pending (pending_set id h (pending c)) c) w in
      ws_send s (mkFrame "req" id method (PJson params)) w
  end.

(** [disconnect()]. *)
Definition disconnect (w : World) : World :=
  let w := upd (set_shouldReconnect false) w in
  let w :=
    match reconnectTimer (client w) with
    | Some h => upd (set_reconnectTimer None) (clearTimeout h w)
    | None => w
    end in
  let w := close_current w in
  let w :=
    upd (fun c => set_connectPromise None (set_connected false (set_ws None c)))
        w in
  flushPending EDisconnected w.

(** *** The listeners attached by [_connect] and the timer callbacks *)

Definition on_open (sk : Socket) (w : World) : World :=
  clearTimeout (dialTimer sk) w.

Definition reject_connect (e : Error) (w : World) : World :=
  match connectPromise (client w) with
  | Some p => upd (set_connectPromise None) (say (ConnectRejected p e) w)
  | None => w
  end.

Definition on_close (sk : Socket) (code : N) (reason : string) (w : World)
    : World :=
  let w := clearTimeout (dialTimer sk) w in
  let wasConnected := _connected (client w) in
  let w := upd (set_connected false) w in
  let w := reject_connect (EConnectionClosed code reason) w in
  let w := flushPending (EConnectionClosed code reason) w in
  let w := emit "disconnected" (DClose code reason) w in
  if wasConnected && shouldReconnect (client w) then scheduleReconnect w
  else w.

Definition on_error (sk : Socket) (w : World) : World :=
  reject_connect EWebSocketError (clearTimeout (dialTimer sk) w).

Definition on_dial_timeout (promise : nat) (w : World) : World :=
  let w := upd (set_connectPromise None) w in
  let w := say (ConnectRejected promise EConnectionTimeout) w in
  close_current w.

Definition on_request_timeout (id : string) (w : World) : World :=
  if pending_has id (pending (client w)) then
    say (RequestRejected id ERequestTimeout)
        (upd (fun c => set_pending (pending_delete id (pending c)) c) w)
  else w.

Definition run_timer (k : TimerKind) (w : World) : World :=
  match k with
  | TDial _ promise => on_dial_timeout promise w
  | TReconnect => _connect w
  | TRequest id => on_request_timeout id w
  end.

(** *** Events *)

(** What can happen to a client: calls of its public methods, events of its
    sockets, timers coming due, time passing. *)
Inductive Event : Type :=
| CallConnect
| CallDisconnect
| CallRequest (method params : string) (timeoutMs : option N)
| SockOpen (s : nat)
| SockMessage (s : nat) (m : Incoming)
| SockClose (s : nat) (code : N) (reason : string)
| SockError (s : nat)
| TimerFire (h : nat)
| Elapse (dt : N).

(** One turn of the event loop.  A socket event is delivered only in a
    [readyState] in which the platform can fire it: [open] while
    connecting, [message] while open, [close] and [error] before the socket
    is closed.  A timer fires only if it is armed and due. *)
Definition step (e : Event) (w : World) : World :=
  match e with
  | CallConnect => connect w
  | CallDisconnect => disconnect w
  | CallRequest method params timeoutMs =>
      request method params (default 30000%N timeoutMs) w
  | SockOpen s =>
      match sockets w !! s with
      | Some sk =>
          match readyState sk with
          | CONNECTING => on_open sk (set_ready s OPEN w)
          | _ => w
          end
      | None => w
      end
  | SockMessage s m =>
      match ready s w with
      | Some OPEN => handleMessage m w
      | _ => w
      end
  | SockClose s code reason =>
      match sockets w !! s with
      | Some sk =>
          match readyState sk with
          | CLOSED => w
          | _ => on_close sk code reason (set_ready s CLOSED w)
          end
      | None => w
      end
  | SockError s =>
      match sockets w !! s with
      | Some sk =>
          match readyState sk with
          | CLOSED => w
          | _ => on_error sk w
          end
      | None => w
      end
  | TimerFire h =>
      match timers w !! h with
      | Some t =>
          if (due t <=? now w)%N
          then run_timer (callback t) (clearTimeout h w)
          else w
      | None => w
      end
  | Elapse dt => set_now (now w + dt)%N w
  end.

Definition run (es : list Event) (w : World) : World :=
  fold_left (fun w e => step e w) es w.

(** *** Notions used in the statements *)

Definition pending_ids (w : World) : list string :=
  List.map fst (pending (client w)).

(** The frames of the log with a given method. *)
Definition sent_method (method : string) (o : Obs) : bool :=
  match o with
  | Sent _ f => String.eqb (f_method f) method
  | _ => false
  end.

Definition is_sent (o : Obs) : bool :=
  match o with Sent _ _ => true | _ => false end.

(** An event that makes the client answer a challenge, or a caller asking
    for the method itself. *)
Definition may_send_connect (e : Event) : bool :=
  match e with
  | SockMessage _ (InEvent event _) => String.eqb event "connect.challenge"
  | CallRequest method _ _ => String.eqb method "connect"
  | _ => false
  end.

(** The frame of the handshake, built by [sendConnect]: the one that
    carries the connect parameters.  A frame of [request] carries the
    caller's parameters, also when the caller names the method
    ["connect"]. *)
Definition from_sendConnect (o : Obs) : bool :=
  match o with
  | Sent _ f =>
      match f_params f with
      | PConnect _ => true
      | PJson _ => false
      end
  | _ => false
  end.

(** The event of a [connect.challenge] frame arriving. *)
Definition is_challenge (e : Event) : bool :=
  match e with
  | SockMessage _ (InEvent event _) => String.eqb event "connect.challenge"
  | _ => false
  end.

(** Every armed dial timer is the one its socket keeps, and that socket
    has neither opened nor closed: it is connecting, or [close()] was
    called on it. *)
Definition dialing (tm : gmap nat Timer) (sk : list Socket) : Prop :=
  forall h d s p,
    tm !! h = Some (mkTimer d (TDial s p)) ->
    exists x, sk !! s = Some x /\ dialTimer x = h /\
              (readyState x = CONNECTING \/ readyState x = CLOSING).

Definition dial_timers_ok (w : World) : Prop := dialing (timers w) (sockets w).

(** A reconnect is scheduled: [reconnectTimer] is an armed timer. *)
Definition backoff_scheduled (w : World) : Prop :=
  exists h t, reconnectTimer (client w) = Some h /\
              timers w !! h = Some t /\ callback t = TReconnect.

(** The socket [s] of the client is open and the handshake has not
    started: no challenge has been answered. *)
Definition awaiting_challenge (w : World) (s : nat) : Prop :=
  ws (client w) = Some s /\ ready s w = Some OPEN /\
  _connected (client w) = false /\ connectId (client w) = None.

(** An identifier made by [nextId] no later than in [w]. *)
Definition issued (w : World) (id : string) : Prop :=
  exists c t, id = mk_id c t /\ (c <= reqCounter w)%N.

(** The identifiers in use are issued ones, and the identifier of the
    handshake is not the key of a pending slot. *)
Definition ids_ok (w : World) : Prop :=
  Forall (issued w) (pending_ids w) /\
  forall id, connectId (client w) = Some id ->
             issued w id /\ ~ In id (pending_ids w).

(** An identifier that is issued and no longer in use. *)
Definition retired (id : string) (w : World) : Prop :=
  issued w id /\ pending_has id (pending (client w)) = false /\
  connectId (client w) <> Some id.

(** A string without ["_"]. *)
Fixpoint no_underscore (s : string) : bool :=
  match s with
  | EmptyString => true
  | String a t => negb (Ascii.eqb a "_") && no_underscore t
  end.

(** How one turn of the event loop can change the identifiers in use:
    not at all or by dropping some; by a handshake taking a new one; by a
    request taking a new one. *)
Inductive ids_change (w w' : World) : Prop :=
| ic_same :
    reqCounter w' = reqCounter w ->
    incl (pending_ids w') (pending_ids w) ->
    connectId (client w') = connectId (client w) \/
      connectId (client w') = None ->
    ids_change w w'
| ic_connect :
    reqCounter w' = js_succ (reqCounter w) ->
    pending_ids w' = pending_ids w ->
    connectId (client w') = Some (mk_id (js_succ (reqCounter w)) (now w)) ->
    ids_change w w'
| ic_request :
    reqCounter w' = js_succ (reqCounter w) ->
    incl (pending_ids w') (mk_id (js_succ (reqCounter w)) (now w) :: pending_ids w) ->
    connectId (client w') = connectId (client w) ->
    ids_change w w'.

(** *** Worlds used in the examples *)

Definition example_config : GatewayConfig :=
  mkConfig true (Some "secret") None.

(** The socket is open and the challenge has not arrived. *)
Definition example_dialed : list Event := [CallConnect; SockOpen 0].

(** A request issued on the open socket, and its deadline reached. *)
Definition example_request_due : list Event :=
  [CallConnect; SockOpen 0; CallRequest "status" "{}" None; Elapse 30000].

(** A completed handshake followed by a request. *)
Definition example_connected : list Event :=
  [CallConnect; SockOpen 0;
   SockMessage 0 (InEvent "connect.challenge" "{}");
   SockMessage 0 (InRes (Some "r1_0") false None "{}");
   CallRequest "status" "{}" None].

(** A disconnect and a new connection. *)
Definition example_reconnect : list Event :=
  [Elapse 5; CallDisconnect; CallConnect; SockOpen 1; Elapse 2].

End Gateway.

(** ** Part 3. The downstream sockets (backend API client in src/store.ts)

    [ChatSocket] and [FederatedChatSocket] are the same code up to the
    gateway id of the former (its URL, the guard at the head of [_connect],
    and its reset in [disconnect]) and the frames they carry; the model has
    one state machine with the flag [federated] in its configuration. *)

Module Chat.

Import Gateway (ReadyState, CONNECTING, OPEN, CLOSING, CLOSED).

Local Open Scope string_scope.

Inductive TimerKind : Type :=
| KReconnect   (* the timer set by [scheduleReconnect] *)
| KPing        (* the interval set by [startHeartbeat] *)
| KPong.       (* the pong deadline set by the interval callback *)

Record Timer : Type := mkTimer { due : N; callback : TimerKind }.

(** Frames to the server. *)
Inductive Frame : Type :=
| Ping
| ChatMsg (sessionKey message : string) (advancedReasoning : option bool)
| SetReasoning (sessionKey : string) (enabled : bool)
| Abort (sessionKey : string)
| FedChat (message : string) (targets : list (string * string)) (broadcast : bool)
| FedAbort (targets : list (string * string)).

(** Parsed frames from the server, by their [type]. *)
Inductive Incoming : Type :=
| Unparsable
| Pong
| Connected (body : string)
| Stream (body : string)
| Reconnected (body : string)
| ErrorMsg (body : string)
| OtherType.

Inductive Data : Type :=
| DEmpty
| DClose (code : N) (reason : string)
| DReconnecting (attempt delay : N)
| DBody (body : string)
| DSocketError.

Inductive Obs : Type :=
| Sent (sock : nat) (f : Frame)
| Emit (event : string) (data : Data)
| Threw.                       (* 'WebSocket not connected' *)

Record Config : Type := mkConfig {
  federated : bool;
  url_ok : option string -> bool  (* does [new WebSocket] accept the URL *)
}.

Record Client : Type := mkClient {
  ws : option nat;
  gwId : option string;
  reconnectTimer : option nat;
  reconnectAttempts : N;
  shouldReconnect : bool;
  pingInterval : option nat;
  pongTimeout : option nat
}.

Record World : Type := mkWorld {
  client : Client;
  config : Config;
  now : N;
  sockets : list ReadyState;
  timers : gmap nat Timer;
  nextTimer : nat;
  log : list Obs
}.

Definition maxReconnectAttempts : N := 10.
Definition PING_INTERVAL : N := 30000.
Definition PONG_TIMEOUT : N := 10000.

Definition new_client : Client := mkClient None None None 0 true None None.

Definition init (cfg : Config) (t0 : N) : World :=
  mkWorld new_client cfg t0 [] ∅ 1 [].

(** *** Field updates *)

Definition set_ws v c :=
  mkClient v (gwId c) (reconnectTimer c) (reconnectAttempts c)
    (shouldReconnect c) (pingInterval c) (pongTimeout c).
Definition set_gwId v c :=
  mkClient (ws c) v (reconnectTimer c) (reconnectAttempts c)
    (shouldReconnect c) (pingInterval c) (pongTimeout c).
Definition set_reconnectTimer v c :=
  mkClient (ws c) (gwId c) v (reconnectAttempts c)
    (shouldReconnect c) (pingInterval c) (pongTimeout c).
Definition set_reconnectAttempts v c :=
  mkClient (ws c) (gwId c) (reconnectTimer c) v
    (shouldReconnect c) (pingInterval c) (pongTimeout c).
Definition set_shouldReconnect v c :=
  mkClient (ws c) (gwId c) (reconnectTimer c) (reconnectAttempts c)
    v (pingInterval c) (pongTimeout c).
Definition set_pingInterval v c :=
  mkClient (ws c) (gwId c) (reconnectTimer c) (reconnectAttempts c)
    (shouldReconnect c) v (pongTimeout c).
Definition set_pongTimeout v c :=
  mkClient (ws c) (gwId c) (reconnectTimer c) (reconnectAttempts c)
    (shouldReconnect c) (pingInterval c) v.

Definition upd (f : Client -> Client) (w : World) : World :=
  mkWorld (f (client w)) (config w) (now w) (sockets w) (timers w)
    (nextTimer w) (log w).
Definition set_now v w :=
  mkWorld (client w) (config w) v (sockets w) (timers w) (nextTimer w) (log w).
Definition set_sockets v w :=
  mkWorld (client w) (config w) (now w) v (timers w) (nextTimer w) (log w).
Definition set_timers v w :=
  mkWorld (client w) (config w) (now w) (sockets w) v (nextTimer w) (log w).
Definition set_nextTimer v w :=
  mkWorld (client w) (config w) (now w) (sockets w) (timers w) v (log w).
Definition say (o : Obs) (w : World) : World :=
  mkWorld (client w) (config w) (now w) (sockets w) (timers w) (nextTimer w)
    (log w ++ [o]).

(** *** The platform *)

Definition setTimer (cb : TimerKind) (delay : N) (w : World) : nat * World :=
  let h := nextTimer w in
  (h, set_nextTimer (S h)
        (set_timers (<[h := mkTimer (now w + delay)%N cb]> (timers w)) w)).

Definition clearTimer (h : nat) (w : World) : World :=
  set_timers (delete h (timers w)) w.

Definition ws_close (s : nat) (w : World) : World :=
  match sockets w !! s with
  | Some CONNECTING | Some OPEN => set_sockets (<[s := CLOSING]> (sockets w)) w
  | _ => w
  end.

Definition ws_open (w : World) : option nat :=
  match ws (client w) with
  | Some s =>
      match sockets w !! s with
      | Some OPEN => Some s
      | _ => None
      end
  | None => None
  end.

Definition emit (event : string) (data : Data) (w : World) : World :=
  say (Emit event data) w.

(** *** The methods *)

(** [stopHeartbeat()]. *)
Definition stopHeartbeat (w : World) : World :=
  let w :=
    match pingInterval (client w) with
    | Some h => upd (set_pingInterval None) (clearTimer h w)
    | None => w
    end in
  match pongTimeout (client w) with
  | Some h => upd (set_pongTimeout None) (clearTimer h w)
  | None => w
  end.

(** [startHeartbeat()]. *)
Definition startHeartbeat (w : World) : World :=
  let w := stopHeartbeat w in
  let '(h, w) := setTimer KPing PING_INTERVAL w in
  upd (set_pingInterval (Some h)) w.

Definition backoff_delay (attempts : N) : N :=
  N.min (1000 * 2 ^ attempts)%N 30000.

(** [scheduleReconnect()]. *)
Definition scheduleReconnect (w : World) : World :=
  if (maxReconnectAttempts <=? reconnectAttempts (client w))%N then
    upd (set_shouldReconnect false) (emit "reconnect_failed" DEmpty w)
  else
    let delay := backoff_delay (reconnectAttempts (client w)) in
    let w := upd (fun c => set_reconnectAttempts (reconnectAttempts c + 1)%N c) w in
    let w :=
      emit "reconnecting" (DReconnecting (reconnectAttempts (client w)) delay) w in
    let '(h, w) := setTimer KReconnect delay w in
    upd (set_reconnectTimer (Some h)) w.

(** Truthiness of [gwId]. *)
Definition truthy (o : option string) : bool :=
  match o with
  | Some s => negb (String.eqb s "")
  | None => false
  end.

(** [_connect()]. *)
Definition _connect (w : World) : World :=
  if negb (federated (config w)) && negb (truthy (gwId (client w))) then w
  else
    let w :=
      match ws (client w) with
      | Some s => upd (set_ws None) (ws_close s w)
      | None => w
      end in
    if url_ok (config w) (gwId (client w)) then
      let s := length (sockets w) in
      upd (set_ws (Some s)) (set_sockets (sockets w ++ [CONNECTING]) w)
    else scheduleReconnect w.

(** [disconnect()]. *)
Definition disconnect (w : World) : World :=
  let w := upd (set_shouldReconnect false) w in
  let w := stopHeartbeat w in
  let w :=
    match reconnectTimer (client w) with
    | Some h => upd (set_reconnectTimer None) (clearTimer h w)
    | None => w
    end in
  let w :=
    match ws (client w) with
    | Some s => upd (set_ws None) (ws_close s w)
    | None => w
    end in
  if federated (config w) then w else upd (set_gwId None) w.

(** [connect(gwId)] and, for the federated socket, [connect()]. *)
Definition connect (g : string) (w : World) : World :=
  let w := disconnect w in
  let w := if federated (config w) then w else upd (set_gwId (Some g)) w in
  let w :=
    upd (fun c => set_reconnectAttempts 0 (set_shouldReconnect true c)) w in
  _connect w.

(** [send], [setReasoning]: throw unless the socket is open. *)
Definition send_or_throw (f : Frame) (w : World) : World :=
  match ws_open w with
  | Some s => say (Sent s f) w
  | None => say Threw w
  end.

(** [abort]: returns silently unless the socket is open. *)
Definition send_or_skip (f : Frame) (w : World) : World :=
  match ws_open w with
  | Some s => say (Sent s f) w
  | None => w
  end.

Definition send (sessionKey message : string) (advancedReasoning : option bool)
  : World -> World := send_or_throw (ChatMsg sessionKey message advancedReasoning).

Definition setReasoning (sessionKey : string) (enabled : bool)
  : World -> World := send_or_throw (SetReasoning sessionKey enabled).

Definition abort (sessionKey : string) : World -> World :=
  send_or_skip (Abort sessionKey).

Definition fed_send (message : string) (targets : list (string * string))
    (broadcast : bool) : World -> World :=
  send_or_throw (FedChat message targets broadcast).

Definition fed_abort (targets : list (string * string)) : World -> World :=
  send_or_skip (FedAbort targets).

(** *** Listeners and timer callbacks *)

Definition on_open (w : World) : World :=
  emit "open" DEmpty (startHeartbeat (upd (set_reconnectAttempts 0) w)).

Definition on_message (m : Incoming) (w : World) : World :=
  match m with
  | Pong =>
      match pongTimeout (client w) with
      | Some h => upd (set_pongTimeout None) (clearTimer h w)
      | None => w
      end
  | Connected b => emit "connected" (DBody b) w
  | Stream b => emit "stream" (DBody b) w
  | Reconnected b =>
      if federated (config w) then emit "reconnected" (DBody b) w else w
  | ErrorMsg b => emit "error" (DBody b) w
  | Unparsable | OtherType => w
  end.

Definition on_close (code : N) (reason : string) (w : World) : World :=
  let w := stopHeartbeat w in
  let w := emit "close" (DClose code reason) w in
  if shouldReconnect (client w) && negb (code =? 1000)%N
  then scheduleReconnect w
  else w.

Definition on_error (w : World) : World := emit "error" DSocketError w.

Definition on_ping_interval (w : World) : World :=
  match ws_open w with
  | Some s =>
      let w := say (Sent s Ping) w in
      let '(h, w) := setTimer KPong PONG_TIMEOUT w in
      upd (set_pongTimeout (Some h)) w
  | None => w
  end.

Definition on_pong_timeout (w : World) : World :=
  match ws (client w) with
  | Some s => ws_close s w
  | None => w
  end.

Definition on_reconnect_timer (w : World) : World :=
  if shouldReconnect (client w) then _connect w else w.

(** *** Events *)

Inductive Event : Type :=
| CallConnect (g : string)
| CallDisconnect
| CallSend (sessionKey message : string) (advancedReasoning : option bool)
| CallSetReasoning (sessionKey : string) (enabled : bool)
| CallAbort (sessionKey : string)
| CallFedSend (message : string) (targets : list (string * string))
              (broadcast : bool)
| CallFedAbort (targets : list (string * string))
| SockOpen (s : nat)
| SockMessage (s : nat) (m : Incoming)
| SockClose (s : nat) (code : N) (reason : string)
| SockError (s : nat)
| TimerFire (h : nat)
| Elapse (dt : N).

(** One turn of the event loop.  Socket events are delivered as the
    platform can fire them: [open] while connecting, [message] while open,
    [close] and [error] before the socket is closed.  A timer fires when it
    is armed and due; the interval stays armed for its next period. *)
Definition step (e : Event) (w : World) : World :=
  match e with
  | CallConnect g => connect g w
  | CallDisconnect => disconnect w
  | CallSend k m a => send k m a w
  | CallSetReasoning k b => setReasoning k b w
  | CallAbort k => abort k w
  | CallFedSend m t b => fed_send m t b w
  | CallFedAbort t => fed_abort t w
  | SockOpen s =>
      match sockets w !! s with
      | Some CONNECTING => on_open (set_sockets (<[s := OPEN]> (sockets w)) w)
      | _ => w
      end
  | SockMessage s m =>
      match sockets w !! s with
      | Some OPEN => on_message m w
      | _ => w
      end
  | SockClose s code reason =>
      match sockets w !! s with
      | Some CLOSED | None => w
      | Some _ => on_close code reason (set_sockets (<[s := CLOSED]> (sockets w)) w)
      end
  | SockError s =>
      match sockets w !! s with
      | Some CLOSED | None => w
      | Some _ => on_error w
      end
  | TimerFire h =>
      match timers w !! h with
      | Some t =>
          if (due t <=? now w)%N then
            match callback t with
            | KReconnect => on_reconnect_timer (clearTimer h w)
            | KPong => on_pong_timeout (clearTimer h w)
            | KPing =>
                on_ping_interval
                  (set_timers
                     (<[h := mkTimer (due t + PING_INTERVAL)%N KPing]> (timers w))
                     w)
            end
          else w
      | None => w
      end
  | Elapse dt => set_now (now w + dt)%N w
  end.

Definition run (es : list Event) (w : World) : World :=
  fold_left (fun w e => step e w) es w.

(** *** Notions used in the statements *)

Definition is_connect_call (e : Event) : bool :=
  match e with CallConnect _ => true | _ => false end.

Definition is_sent (o : Obs) : bool :=
  match o with Sent _ _ => true | _ => false end.

Definition is_reconnecting (o : Obs) : bool :=
  match o with
  | Emit event _ => String.eqb event "reconnecting"
  | _ => false
  end.

Definition closing (r : ReadyState) : bool :=
  match r with
  | CLOSING | CLOSED => true
  | _ => false
  end.

(** Every socket but the current one has been closed by the client or by
    the platform. *)
Definition others_closing (w : World) : Prop :=
  forall s r, sockets w !! s = Some r -> ws (client w) <> Some s ->
              closing r = true.

(** The state left by [disconnect]: reconnection disabled, no current
    socket, every socket closing or closed. *)
Definition quiet (w : World) : Prop :=
  shouldReconnect (client w) = false /\ ws (client w) = None /\
  forall s r, sockets w !! s = Some r -> closing r = true.

(** *** Worlds used in the examples *)

Definition example_config : Config := mkConfig false (fun _ => true).

(** A connection that has sent its first ping. *)
Definition example_session : list Event :=
  [CallConnect "gw1"; SockOpen 0; Elapse 30000; TimerFire 1].

(** What may still happen after [disconnect]. *)
Definition example_aftermath : list Event :=
  [SockClose 0 1005 ""; TimerFire 1; TimerFire 2; CallSend "s" "hi" None;
   Elapse 60000; TimerFire 1].

End Chat.

(** ** Further notions for the upstream client *)

Module GatewayInv.
Import Gateway.

Local Open Scope string_scope.

(** A log entry that is not [reconnect_failed] and, if it announces a
    reconnect, announces the first attempt, 1000 ms ahead. *)
Definition first_attempt_only (o : Obs) : bool :=
  match o with
  | Emit event data =>
      if String.eqb event "reconnect_failed" then false
      else if String.eqb event "reconnecting" then
        match data with
        | DReconnecting attempt delay => (attempt =? 1)%N && (delay =? 1000)%N
        | _ => false
        end
      else true
  | _ => true
  end.

(** An event on which the client may send a frame. *)
Definition may_send (e : Event) : bool :=
  match e with
  | CallRequest _ _ _ => true
  | SockMessage _ (InEvent event _) => String.eqb event "connect.challenge"
  | _ => false
  end.

(** Does a log entry settle the request [id]? *)
Definition settles (id : string) (o : Obs) : bool :=
  match o with
  | RequestResolved i _ | RequestRejected i _ => String.eqb i id
  | _ => false
  end.

(** How many times the log settles the request [id]. *)
Definition settled_count (id : string) (l : list Obs) : nat :=
  length (List.filter (settles id) l).

(** What is known of the settled requests in a reachable world: a request
    is settled at most once, not while it is pending, and only under an
    identifier that was issued. *)
Definition settled_ok (w : World) : Prop :=
  List.NoDup (pending_ids w) /\ ids_ok w /\
  forall id,
    (settled_count id (log w) <= 1)%nat /\
    (pending_has id (pending (client w)) = true ->
     settled_count id (log w) = 0%nat) /\
    ((1 <= settled_count id (log w))%nat -> issued w id).

(** The deadline of every pending request is armed; no timer has a handle
    still to be given out; the handle a socket keeps for its dial timer
    was given out, and is no request's deadline. *)
Definition armed (p : list (string * nat)) (tm : gmap nat Timer) (nt : nat)
    (sk : list Socket) : Prop :=
  (forall id h, In (id, h) p ->
                exists d, tm !! h = Some (mkTimer d (TRequest id))) /\
  (forall h t, tm !! h = Some t -> (h < nt)%nat) /\
  List.Forall
    (fun s => (dialTimer s < nt)%nat /\
              forall d id, tm !! dialTimer s <> Some (mkTimer d (TRequest id)))
    sk.

Definition deadlines_armed (w : World) : Prop :=
  armed (pending (client w)) (timers w) (nextTimer w) (sockets w).

End GatewayInv.

(** ** Further notions for the downstream sockets *)

Module ChatInv.
Import Chat.
Import Gateway (ReadyState, CONNECTING, OPEN, CLOSING, CLOSED).

(** The socket waits for its reconnect timer: reconnection is enabled,
    [attempts] attempts are counted, the timer of [reconnectTimer] is
    armed, and the next [_connect] will pass its guard and create a
    socket. *)
Definition retrying (w : World) (attempts : N) : Prop :=
  shouldReconnect (client w) = true /\
  reconnectAttempts (client w) = attempts /\
  (exists h d, reconnectTimer (client w) = Some h /\
               timers w !! h = Some (mkTimer d KReconnect)) /\
  negb (federated (config w)) && negb (truthy (gwId (client w))) = false /\
  url_ok (config w) (gwId (client w)) = true.

(** One failed attempt: time passes until the reconnect timer is due, the
    timer fires, and the socket it creates is closed with [code]. *)
Definition failed_attempt (code : N) (reason : string) (w : World) : World :=
  match reconnectTimer (client w) with
  | Some h =>
      match timers w !! h with
      | Some t =>
          run [Elapse (due t - now w); TimerFire h;
               SockClose (length (sockets w)) code reason] w
      | None => w
      end
  | None => w
  end.

(** The signals of [k] failed attempts in a row, the first made with
    [n] attempts counted. *)
Definition ladder (code : N) (reason : string) (n : N) (k : nat) : list Obs :=
  flat_map
    (fun i =>
       [Emit "close" (DClose code reason);
        Emit "reconnecting"
          (DReconnecting (n + N.of_nat i + 1) (backoff_delay (n + N.of_nat i)))])
    (seq 0 k).

(** No ping interval is armed but the one the client holds. *)
Definition one_heartbeat (w : World) : Prop :=
  forall h t, timers w !! h = Some t -> callback t = KPing ->
              pingInterval (client w) = Some h.

End ChatInv.

(** ** Part 4. Local persistence (first part of src/store.ts)

    [localStorage] is a map from strings to strings.  ([setItem] can throw
    when the quota is exceeded; the settings stored here are a few short
    strings and that case is left out.) *)

Module Persist.

Local Open Scope string_scope.

Definition KEY_theme : string := "openclaw-chat-theme".
Definition KEY_sidebarOpen : string := "openclaw-chat-sidebar".
Definition KEY_activeGateway : string := "openclaw-chat-active-gw".
Definition KEY_activeTab : string := "openclaw-chat-active-tab".
Definition KEY_activeSession : string := "openclaw-chat-active-session".

Definition getItem (k : string) (st : gmap string string) : option string :=
  st !! k.
Definition setItem (k v : string) (st : gmap string string)
  : gmap string string := <[k := v]> st.
Definition removeItem (k : string) (st : gmap string string)
  : gmap string string := delete k st.

(** [v || d] for a value read from storage: [null] and [""] are falsy. *)
Definition or_else (v : option string) (d : string) : string :=
  match v with
  | Some s => if String.eqb s "" then d else s
  | None => d
  end.

Definition loadTheme (st : gmap string string) : string :=
  or_else (getItem KEY_theme st) "dark".

Definition saveTheme (theme : string) (st : gmap string string)
  : gmap string string := setItem KEY_theme theme st.

Definition loadSidebarOpen (st : gmap string string) : bool :=
  match getItem KEY_sidebarOpen st with
  | Some v => negb (String.eqb v "false")
  | None => true
  end.

(** [String(open)]. *)
Definition string_of_bool (b : bool) : string :=
  if b then "true" else "false".

Definition saveSidebarOpen (open : bool) (st : gmap string string)
  : gmap string string := setItem KEY_sidebarOpen (string_of_bool open) st.

Definition loadActiveGateway (st : gmap string string) : option string :=
  getItem KEY_activeGateway st.

Definition saveActiveGateway (id : option string) (st : gmap string string)
  : gmap string string :=
  match id with
  | Some i =>
      if String.eqb i "" then removeItem KEY_activeGateway st
      else setItem KEY_activeGateway i st
  | None => removeItem KEY_activeGateway st
  end.

(** [loadActiveSession()], at time [now]. *)
Definition loadActiveSession (now : N) (st : gmap string string) : string :=
  or_else (getItem KEY_activeSession st) ("webchat-" +:+ Gateway.decimal now).

Definition saveActiveSession (key : string) (st : gmap string string)
  : gmap string string := setItem KEY_activeSession key st.

Definition loadActiveTab (st : gmap string string) : string :=
  or_else (getItem KEY_activeTab st) "chat".

Definition saveActiveTab (tab : string) (st : gmap string string)
  : gmap string string := setItem KEY_activeTab tab st.

(** Everything the module reads from a storage. *)
Record Settings : Type := mkSettings {
  s_theme : string;
  s_sidebarOpen : bool;
  s_activeGateway : option string;
  s_activeSession : string;
  s_activeTab : string
}.

Definition load_all (now : N) (st : gmap string string) : Settings :=
  mkSettings (loadTheme st) (loadSidebarOpen st) (loadActiveGateway st)
    (loadActiveSession now st) (loadActiveTab st).

(** One call of a saving function. *)
Inductive Save : Type :=
| SaveTheme (theme : string)
| SaveSidebarOpen (open : bool)
| SaveActiveGateway (id : option string)
| SaveActiveSession (key : string)
| SaveActiveTab (tab : string).

Definition save (s : Save) (st : gmap string string) : gmap string string :=
  match s with
  | SaveTheme t => saveTheme t st
  | SaveSidebarOpen b => saveSidebarOpen b st
  | SaveActiveGateway i => saveActiveGateway i st
  | SaveActiveSession k => saveActiveSession k st
  | SaveActiveTab t => saveActiveTab t st
  end.

(** What a save should make the settings read. *)
Definition saved (s : Save) (x : Settings) : Settings :=
  match s with
  | SaveTheme t =>
      mkSettings t (s_sidebarOpen x) (s_activeGateway x) (s_activeSession x)
        (s_activeTab x)
  | SaveSidebarOpen b =>
      mkSettings (s_theme x) b (s_activeGateway x) (s_activeSession x)
        (s_activeTab x)
  | SaveActiveGateway i =>
      mkSettings (s_theme x) (s_sidebarOpen x) i (s_activeSession x)
        (s_activeTab x)
  | SaveActiveSession k =>
      mkSettings (s_theme x) (s_sidebarOpen x) (s_activeGateway x) k
        (s_activeTab x)
  | SaveActiveTab t =>
      mkSettings (s_theme x) (s_sidebarOpen x) (s_activeGateway x)
        (s_activeSession x) t
  end.

(** The value a save carries is one the loader hands back: a non-empty
    string (an absent gateway is handed back as absent). *)
Definition storable (s : Save) : bool :=
  match s with
  | SaveTheme t | SaveActiveSession t | SaveActiveTab t =>
      negb (String.eqb t "")
  | SaveSidebarOpen _ => true
  | SaveActiveGateway (Some i) => negb (String.eqb i "")
  | SaveActiveGateway None => true
  end.

End Persist.

(** ** Part 5. Notification preferences (src/notificationPrefs.ts)

    The preferences live in one [localStorage] item, written by
    [saveNotificationPrefs] only, as the JSON text of an object whose
    values are the booleans set by [toggleNotification].  The item is
    modelled by what [JSON.parse] makes of it: nothing, a text that does not
    parse, or that object ([JSON.parse] gives back the entries
    [JSON.stringify] wrote; a key always contains [":"], so it is never
    ["__proto__"]).  Other JSON texts (a number, [null], an object with
    values that are no booleans), which this code never writes, are left
    out. *)

Module Prefs.
Import Filter.

Inductive Stored : Type :=
| Absent                                  (* no item, or the empty text *)
| Unparsable                              (* [JSON.parse] throws *)
| Object (prefs : gmap (list N) bool).

Definition loadNotificationPrefs (st : Stored) : gmap (list N) bool :=
  match st with
  | Object prefs => prefs
  | Absent | Unparsable => ∅
  end.

Definition saveNotificationPrefs (prefs : gmap (list N) bool) : Stored :=
  Object prefs.

(** [`${gatewayId}:${agentId}`]. *)
Definition pref_key (gatewayId agentId : jsstring) : jsstring :=
  gatewayId ++ units ":" ++ agentId.

(** [prefs[key] === true]. *)
Definition isNotificationEnabled (gatewayId agentId : jsstring) (st : Stored)
    : bool :=
  match loadNotificationPrefs st !! pref_key gatewayId agentId with
  | Some true => true
  | _ => false
  end.

(** [toggleNotification]: the value returned and the item written. *)
Definition toggleNotification (gatewayId agentId : jsstring) (st : Stored)
    : bool * Stored :=
  let prefs := loadNotificationPrefs st in
  let key := pref_key gatewayId agentId in
  let newValue :=
    negb (match prefs !! key with Some b => b | None => false end) in
  (newValue, saveNotificationPrefs (<[key := newValue]> prefs)).

Inductive Permission : Type := Granted | Denied | Default.

(** The browser: is there a [Notification] global, and its permission. *)
Record Platform : Type := mkPlatform {
  supported : bool;
  permission : Permission
}.

Record Notification : Type := mkNotification {
  n_title : jsstring;
  n_body : jsstring;
  n_icon : string;
  n_tag : string;
  n_requireInteraction : bool
}.

Inductive Shown : Type :=
| Threw                         (* ReferenceError *)
| Nothing
| Created (n : Notification).   (* [new Notification(title, options)] *)

(** Truthiness of an optional string. *)
Definition truthy (o : option jsstring) : bool :=
  match o with
  | Some (_ :: _) => true
  | _ => false
  end.

(** [message.length > 100 ? message.slice(0, 97) + '...' : message]. *)
Definition notification_body (message : jsstring) : jsstring :=
  if (100 <? length message)%nat then take 97 message ++ units "..."
  else message.

Definition notification_title (agentName : jsstring)
    (gatewayName : option jsstring) : jsstring :=
  match gatewayName with
  | Some g =>
      if truthy gatewayName then agentName ++ units " (" ++ g ++ units ")"
      else agentName
  | None => agentName
  end.

(** [showNotification(agentName, message, gatewayName)] at time [now].  The
    first statement logs [Notification.permission], which throws when the
    browser has no [Notification] global; the test of ['Notification' in
    window] comes after it.  An exception of the constructor is caught and
    logged. *)
Definition showNotification (p : Platform) (now : N)
    (agentName message : jsstring) (gatewayName : option jsstring) : Shown :=
  if negb (supported p) then Threw
  else
    match permission p with
    | Granted =>
        Created
          (mkNotification (notification_title agentName gatewayName)
             (notification_body message) "/favicon.ico"
             ("openclaw-" +:+ Gateway.decimal now) false)
    | _ => Nothing
    end.

End Prefs.

(** ** Part 6. Subscriptions ([on], [off] and [emit] of [GatewayClient],
    [ChatSocket] and [FederatedChatSocket])

    The three classes keep their subscribers in a [Map] from signal names
    to arrays of handlers, with the same code.  A handler is a function
    object, compared by identity; it is modelled by a number. *)

Module Handlers.

Local Open Scope list_scope.

(** [on(event, handler)]. *)
Definition on (event : string) (handler : nat) (r : gmap string (list nat))
    : gmap string (list nat) :=
  let r :=
    match r !! event with
    | Some _ => r
    | None => <[event := []]> r
    end in
  match r !! event with
  | Some l => <[event := l ++ [handler]]> r
  | None => r
  end.

(** [handlers.indexOf(handler)] followed by [handlers.splice(idx, 1)]. *)
Fixpoint remove_first (handler : nat) (l : list nat) : list nat :=
  match l with
  | [] => []
  | h :: t => if Nat.eqb h handler then t else h :: remove_first handler t
  end.

(** [off(event, handler)]. *)
Definition off (event : string) (handler : nat) (r : gmap string (list nat))
    : gmap string (list nat) :=
  match r !! event with
  | Some l => <[event := remove_first handler l]> r
  | None => r
  end.

(** The handlers [emit(event, data)] calls, in the order of the calls.  An
    exception of a handler is caught and logged, and the next handler is
    called.  (A handler that subscribes or unsubscribes while it runs is
    not modelled.) *)
Definition emit (event : string) (r : gmap string (list nat)) : list nat :=
  match r !! event with
  | Some l => l
  | None => []
  end.

End Handlers.

(** ** Part 7. The chat hook (hooks/useGateways.ts) and the message bubble
    (components/ChatView.tsx)

    The part of [useGateways] that handles the [stream] signal of a
    gateway's socket and sends the user's messages, in the version of the
    hook that keeps the messages per session ([messagesBySession]; the
    sources also hold a copy of the hook with a single message list, which
    is not modelled).  The React state of the hook is a record; an event
    handler is a function of the state at the time of the event (the
    handlers read it through [stateRef], which every render refreshes; the
    model takes a render to have happened between two events) and returns
    the state after its updates together with what it did to the outside.
    The [text] of a frame is taken to be a string when it is present. *)

Module Hook.
Import Filter.

Inductive Role : Type := User | Assistant | System.

(** An element of a [content] array: [{ type, text? }]. *)
Record Block : Type := mkBlock { b_type : string; b_text : option jsstring }.

(** The [content] of a message as [extractText] looks at it. *)
Inductive Content : Type :=
| CString (s : jsstring)
| CArray (l : list Block)
| COther.

Record ChatMessage : Type := mkMessage {
  role : Role;
  content : Content;
  timestamp : option N
}.

Record AgentInfo : Type := mkAgent {
  a_id : jsstring;
  a_name : option jsstring;
  a_advancedReasoning : option bool
}.

Record GatewayInfo : Type := mkGateway {
  g_name : jsstring;            (* [config.name] *)
  g_agents : list AgentInfo
}.

Record State : Type := mkState {
  gateways : gmap (list N) GatewayInfo;
  activeGatewayId : option jsstring;
  activeAgentId : option jsstring;
  activeSessionKey : jsstring;
  messagesBySession : gmap (list N) (list ChatMessage);
  streamText : jsstring;
  streaming : bool;
  error : option jsstring;
  activeProcesses : gmap (list N) bool
}.

(** What the handlers read outside the state: the clock, the notification
    preferences and the browser, the sockets of [socketsRef] with the value
    of their [connected] getter, and whether [socket.send] throws (with the
    message of the exception). *)
Record Env : Type := mkEnv {
  now : N;
  prefs : Prefs.Stored;
  platform : Prefs.Platform;
  sockets : gmap (list N) bool;
  send_throws : option jsstring
}.

Inductive Effect : Type :=
| Notify (n : Prefs.Notification)
| SocketSend (gwId sessionKey message : jsstring)
             (advancedReasoning : option bool)
| SocketAbort (gwId sessionKey : jsstring)
| LoadSessions.

(** The payload of a [stream] signal; [s_text] and [s_error] are absent
    when the field is missing. *)
Record StreamData : Type := mkStream {
  s_state : string;
  s_text : option jsstring;
  s_error : option jsstring
}.

(** *** Field updates *)

Definition set_messagesBySession v s :=
  mkState (gateways s) (activeGatewayId s) (activeAgentId s)
    (activeSessionKey s) v (streamText s) (streaming s) (error s)
    (activeProcesses s).
Definition set_streamText v s :=
  mkState (gateways s) (activeGatewayId s) (activeAgentId s)
    (activeSessionKey s) (messagesBySession s) v (streaming s) (error s)
    (activeProcesses s).
Definition set_streaming v s :=
  mkState (gateways s) (activeGatewayId s) (activeAgentId s)
    (activeSessionKey s) (messagesBySession s) (streamText s) v (error s)
    (activeProcesses s).
Definition set_error v s :=
  mkState (gateways s) (activeGatewayId s) (activeAgentId s)
    (activeSessionKey s) (messagesBySession s) (streamText s) (streaming s) v
    (activeProcesses s).
Definition set_activeProcesses v s :=
  mkState (gateways s) (activeGatewayId s) (activeAgentId s)
    (activeSessionKey s) (messagesBySession s) (streamText s) (streaming s)
    (error s) v.

(** *** Helpers *)

(** [extractText(content)]. *)
Definition extractText (c : Content) : jsstring :=
  match c with
  | CString s => s
  | CArray l =>
      concat
        (List.map (fun b => match b_text b with Some t => t | None => [] end)
           (List.filter
              (fun b => String.eqb (b_type b) "text" && Prefs.truthy (b_text b))
              l))
  | COther => []
  end.

(** [`${gwId}|${sessionKey}`]. *)
Definition getSessionKey (gwId sessionKey : jsstring) : jsstring :=
  gwId ++ units "|" ++ sessionKey.

(** [map.get(key) || []]. *)
Definition messages_of (key : jsstring) (s : State) : list ChatMessage :=
  match messagesBySession s !! key with
  | Some l => l
  | None => []
  end.

(** [getCurrentMessages()]. *)
Definition getCurrentMessages (s : State) : list ChatMessage :=
  match activeGatewayId s with
  | Some g =>
      if Prefs.truthy (Some g) then messages_of (getSessionKey g (activeSessionKey s)) s
      else []
  | None => []
  end.

(** The text a [MessageBubble] renders:
    [stripThinking(extractText(message.content))]. *)
Definition rendered (m : ChatMessage) : jsstring :=
  stripThinking (extractText (content m)).

(** [next.set(key, [...(next.get(key) || []), m])]. *)
Definition append_message (key : jsstring) (m : ChatMessage) (s : State)
    : State :=
  set_messagesBySession (<[key := messages_of key s ++ [m]]> (messagesBySession s)) s.

Definition text_message (r : Role) (text : jsstring) (t : N) : ChatMessage :=
  mkMessage r (CArray [mkBlock "text" (Some text)]) (Some t).

(** [a || b] on optional strings. *)
Definition or_else (a b : option jsstring) : option jsstring :=
  if Prefs.truthy a then a else b.

(** *** The [stream] handler registered by [connectWebSocket(gwId)] *)

(** The notification of a final message: the agent is the active one or
    else the first of the gateway, and its preference is looked up under
    the gateway and agent ids. *)
Definition notify_final (gwId cleaned : jsstring) (env : Env) (s : State)
    : Prefs.Shown :=
  match gateways s !! gwId with
  | Some gw =>
      match g_agents gw with
      | [] => Prefs.Nothing
      | first :: _ =>
          match or_else (activeAgentId s) (Some (a_id first)) with
          | Some agentId =>
              if Prefs.truthy (Some agentId) then
                let agent :=
                  List.find (fun a => bool_decide (a_id a = agentId))
                            (g_agents gw) in
                let agentName :=
                  match agent with
                  | Some a =>
                      match or_else (a_name a) (or_else (Some (a_id a))
                                                 (Some (units "Agent"))) with
                      | Some n => n
                      | None => units "Agent"
                      end
                  | None => units "Agent"
                  end in
                if Prefs.isNotificationEnabled gwId agentId (prefs env) then
                  Prefs.showNotification (platform env) (now env) agentName
                    cleaned (Some (g_name gw))
                else Prefs.Nothing
              else Prefs.Nothing
          | None => Prefs.Nothing
          end
      end
  | None => Prefs.Nothing
  end.

Definition clear_stream (s : State) : State :=
  set_streaming false (set_streamText [] s).

(** The handler of [stream].  It runs inside the [try] of the socket's
    [emit]: when [showNotification] throws, the statements after it are
    not executed. *)
Definition on_stream (gwId : jsstring) (d : StreamData) (env : Env)
    (s : State) : State * list Effect :=
  let isActiveGateway := bool_decide (activeGatewayId s = Some gwId) in
  if String.eqb (s_state d) "delta" then
    let s := set_activeProcesses (<[gwId := true]> (activeProcesses s)) s in
    match s_text d with
    | Some text =>
        if isActiveGateway && Prefs.truthy (Some text)
        then (set_streamText text s, [])
        else (s, [])
    | None => (s, [])
    end
  else if String.eqb (s_state d) "final" then
    let s := set_activeProcesses (delete gwId (activeProcesses s)) s in
    match s_text d with
    | Some text =>
        if Prefs.truthy (Some text) then
          let cleaned := stripThinking text in
          if Prefs.truthy (Some cleaned) then
            let s' :=
              append_message (getSessionKey gwId (activeSessionKey s))
                (text_message Assistant cleaned (now env)) s in
            if isActiveGateway then
              match notify_final gwId cleaned env s with
              | Prefs.Threw => (s', [])
              | Prefs.Nothing => (clear_stream s', [])
              | Prefs.Created n => (clear_stream s', [Notify n])
              end
            else (clear_stream s', [])
          else (clear_stream s, [])
        else (clear_stream s, [])
    | None => (clear_stream s, [])
    end
  else if String.eqb (s_state d) "error" then
    let s := set_activeProcesses (delete gwId (activeProcesses s)) s in
    let s :=
      set_error (or_else (s_error d) (Some (units "Stream error"))) s in
    (clear_stream s, [])
  else (s, []).

(** *** Sending *)

(** [getActiveSocket()]: the value of [connected] of the active gateway's
    socket, if there is one. *)
Definition getActiveSocket (env : Env) (s : State) : option (jsstring * bool) :=
  match activeGatewayId s with
  | Some g =>
      if Prefs.truthy (Some g) then
        match sockets env !! g with
        | Some c => Some (g, c)
        | None => None
        end
      else None
  | None => None
  end.

(** [currentAgent?.advancedReasoning]. *)
Definition current_reasoning (g : jsstring) (s : State) : option bool :=
  match gateways s !! g with
  | Some gw =>
      match activeAgentId s with
      | Some a =>
          if Prefs.truthy (Some a) then
            match List.find (fun x => bool_decide (a_id x = a)) (g_agents gw) with
            | Some agent => a_advancedReasoning agent
            | None => None
            end
          else None
      | None => None
      end
  | None => None
  end.

(** [sendMessage(text)]. *)
Definition sendMessage (text : jsstring) (env : Env) (s : State)
    : State * list Effect :=
  match trim text, streaming s, activeGatewayId s with
  | _ :: _, false, Some g0 =>
      if Prefs.truthy (Some g0) then
        match getActiveSocket env s with
        | Some (g, true) =>
            let key := getSessionKey g (activeSessionKey s) in
            let s1 :=
              append_message key (text_message User (trim text) (now env)) s in
            let s1 := set_error None (set_streamText [] (set_streaming true s1)) in
            match send_throws env with
            | None =>
                (s1, [SocketSend g (activeSessionKey s) (trim text)
                        (current_reasoning g s);
                      LoadSessions])
            | Some msg =>
                let s2 :=
                  set_error (Some (units "Failed to send message: " ++ msg)) s1 in
                let s2 := set_streaming false s2 in
                (set_messagesBySession
                   (<[key := removelast (messages_of key s2)]>
                      (messagesBySession s2)) s2, [])
            end
        | _ =>
            (set_error
               (Some (units "Not connected to gateway. Please wait for connection or reconnect."))
               s, [])
        end
      else (s, [])
  | _, _, _ => (s, [])
  end.

(** [abortRun()]. *)
Definition abortRun (env : Env) (s : State) : State * list Effect :=
  match getActiveSocket env s with
  | Some (g, true) =>
      (set_streamText [] (set_streaming false s),
       [SocketAbort g (activeSessionKey s)])
  | _ => (s, [])
  end.

(** *** Sequences of events *)

(** What happens to the hook: a [stream] signal of the socket of [gwId],
    a call of [sendMessage], a call of [abortRun]. *)
Inductive Event : Type :=
| EStream (gwId : jsstring) (d : StreamData) (env : Env)
| ESend (text : jsstring) (env : Env)
| EAbort (env : Env).

Definition step (e : Event) (s : State) : State * list Effect :=
  match e with
  | EStream gwId d env => on_stream gwId d env s
  | ESend text env => sendMessage text env s
  | EAbort env => abortRun env s
  end.

(** The state after a sequence of events, and what was done to the
    outside on the way. *)
Fixpoint run (es : list Event) (s : State) : State * list Effect :=
  match es with
  | [] => (s, [])
  | e :: es =>
      let (s1, eff1) := step e s in
      let (s2, eff2) := run es s1 in
      (s2, eff1 ++ eff2)
  end.

(** Events that can end a reply: a [final] or [error] frame, an abort. *)
Definition ends_stream (e : Event) : bool :=
  match e with
  | EStream _ d _ =>
      String.eqb (s_state d) "final" || String.eqb (s_state d) "error"
  | ESend _ _ => false
  | EAbort _ => true
  end.

Definition is_send (x : Effect) : bool :=
  match x with SocketSend _ _ _ _ => true | _ => false end.

(** *** States and environments used in the examples *)

(** A reply is streaming; notifications are switched on for the agent. *)
Definition example_state : State :=
  mkState {[units "gw1" := mkGateway (units "Home") [mkAgent (units "main") None None]]}
    (Some (units "gw1")) None (units "s1") ∅ [] true None ∅.

Definition example_env : Env :=
  mkEnv 7
    (snd (Prefs.toggleNotification (units "gw1") (units "main") Prefs.Absent))
    (Prefs.mkPlatform true Prefs.Granted) ∅ None.

(** An idle hook with a connected socket for its active gateway. *)
Definition example_idle : State :=
  mkState ∅ (Some (units "gw1")) None (units "s1") ∅ [] false None ∅.

Definition example_online : Env :=
  mkEnv 7 Prefs.Absent (Prefs.mkPlatform true Prefs.Default)
    {[units "gw1" := true]} None.

End Hook.

(** ** Part 8. The age of a message (components/ChatView.tsx)

    [getRelativeTime] of [MessageBubble].  Times are integers, in
    milliseconds. *)

Module Bubble.

Local Open Scope string_scope.
Local Open Scope Z_scope.

(** A positive integer in a template literal. *)
Definition decimalZ (z : Z) : string := Gateway.decimal (Z.to_N z).

(** [getRelativeTime()] for a message with [timestamp], at time [now];
    the timestamp is falsy when it is missing or 0. *)
Definition getRelativeTime (timestamp : option Z) (now : Z) : string :=
  match timestamp with
  | None => ""
  | Some ts =>
      if ts =? 0 then ""
      else
        let diff := now - ts in
        let seconds := diff / 1000 in
        let minutes := seconds / 60 in
        let hours := minutes / 60 in
        let days := hours / 24 in
        if 0 <? days then decimalZ days +:+ "d ago"
        else if 0 <? hours then decimalZ hours +:+ "h ago"
        else if 0 <? minutes then decimalZ minutes +:+ "m ago"
        else "Just now"
  end.

End Bubble.

(** ** Part 9. The federated chat hook (hooks/useFederatedChat.ts)

    The state of the hook with its two refs of interest: the set
    [streamingSourcesRef] and the socket.  Requests to the backend are
    modelled from the moment they have succeeded. *)

Module FedHook.
Import Filter.

Record Source : Type := mkSource {
  gateway_id : jsstring;
  agent_name : jsstring
}.

Record FedMessage : Type := mkFedMessage {
  role : Hook.Role;
  content : Hook.Content;
  timestamp : option N;
  source : option Source
}.

Record Session : Type := mkSession {
  s_id : jsstring;
  s_gateways : list (jsstring * jsstring)
}.

Record StreamMsg : Type := mkStreamMsg {
  m_source : Source;
  m_state : string;
  m_text : option jsstring;
  m_error : option jsstring
}.

Record State : Type := mkState {
  federatedSessions : list Session;
  activeFederatedSession : option Session;
  messages : list FedMessage;
  streamingMessages : gmap (list N) jsstring;
  streaming : bool;
  connected : bool;
  error : option jsstring;
  streamingSources : gset (list N)
}.

Definition init : State := mkState [] None [] ∅ false false None ∅.

Inductive Effect : Type :=
| SocketSend (message : jsstring) (targets : list (jsstring * jsstring))
             (broadcast : bool)
| SocketAbort (targets : list (jsstring * jsstring)).

(** What happens to the hook.  [now] is the clock; [socket] tells whether
    [socketRef] holds a socket and whether that socket is open. *)
Inductive Event : Type :=
| Stream (m : StreamMsg) (now : N)
| SocketConnected
| SocketError (e : option jsstring)
| SocketClose
| SessionCreated (s : Session)
| SwitchSession (sessionId : jsstring)
| SessionDeleted (sessionId : jsstring)
| SendMessage (text : jsstring) (broadcast : bool) (now : N)
              (socket : option bool)
| AbortRun (targets : option (list (jsstring * jsstring)))
           (socket : option bool).

(** *** Field updates *)

Definition set_messages v s :=
  mkState (federatedSessions s) (activeFederatedSession s) v
    (streamingMessages s) (streaming s) (connected s) (error s)
    (streamingSources s).
Definition set_streamingMessages v s :=
  mkState (federatedSessions s) (activeFederatedSession s) (messages s) v
    (streaming s) (connected s) (error s) (streamingSources s).
Definition set_streaming v s :=
  mkState (federatedSessions s) (activeFederatedSession s) (messages s)
    (streamingMessages s) v (connected s) (error s) (streamingSources s).
Definition set_connected v s :=
  mkState (federatedSessions s) (activeFederatedSession s) (messages s)
    (streamingMessages s) (streaming s) v (error s) (streamingSources s).
Definition set_error v s :=
  mkState (federatedSessions s) (activeFederatedSession s) (messages s)
    (streamingMessages s) (streaming s) (connected s) v (streamingSources s).
Definition set_streamingSources v s :=
  mkState (federatedSessions s) (activeFederatedSession s) (messages s)
    (streamingMessages s) (streaming s) (connected s) (error s) v.
Definition set_sessions v a s :=
  mkState v a (messages s) (streamingMessages s) (streaming s) (connected s)
    (error s) (streamingSources s).

(** *** The handlers *)

(** [`${source.gateway_id}:${source.agent_name}`]. *)
Definition sourceKey (src : Source) : jsstring :=
  gateway_id src ++ units ":" ++ agent_name src.

(** [setMessages([]); setStreamingMessages(new Map()); setStreaming(false);
    streamingSourcesRef.current.clear()]. *)
Definition reset (s : State) : State :=
  set_streamingSources ∅
    (set_streaming false (set_streamingMessages ∅ (set_messages [] s))).

(** The end of a source's stream: its partial text and its mark are
    removed, and the flag is cleared when no source is left. *)
Definition stop_source (key : jsstring) (s : State) : State :=
  let s := set_streamingMessages (delete key (streamingMessages s)) s in
  let s := set_streamingSources (streamingSources s ∖ {[key]}) s in
  if decide (streamingSources s = ∅) then set_streaming false s else s.

(** The handler of [stream]. *)
Definition on_stream (m : StreamMsg) (now : N) (s : State) : State :=
  let key := sourceKey (m_source m) in
  if String.eqb (m_state m) "delta" && Prefs.truthy (m_text m) then
    let text := match m_text m with Some t => t | None => [] end in
    let currentText :=
      match Hook.or_else (streamingMessages s !! key) (Some []) with
      | Some t => t
      | None => []
      end in
    let s :=
      set_streamingMessages (<[key := currentText ++ text]> (streamingMessages s)) s in
    let s := set_streamingSources ({[key]} ∪ streamingSources s) s in
    set_streaming true s
  else if String.eqb (m_state m) "final" then
    let finalText :=
      match Hook.or_else (m_text m) (Some []) with
      | Some t => t
      | None => []
      end in
    let s :=
      set_messages
        (messages s ++
         [mkFedMessage Hook.Assistant
            (Hook.CArray [Hook.mkBlock "text" (Some finalText)])
            (Some now) (Some (m_source m))]) s in
    stop_source key s
  else if String.eqb (m_state m) "error" then
    let s :=
      set_error (Hook.or_else (m_error m) (Some (units "Stream error"))) s in
    stop_source key s
  else s.

(** [switchSession(sessionId)]. *)
Definition switchSession (sessionId : jsstring) (s : State) : State :=
  match List.find (fun x => bool_decide (s_id x = sessionId))
                  (federatedSessions s) with
  | Some session =>
      set_error None (reset (set_sessions (federatedSessions s) (Some session) s))
  | None => s
  end.

(** [createSession], once the backend has answered with [session]. *)
Definition sessionCreated (session : Session) (s : State) : State :=
  set_error None
    (reset (set_sessions (session :: federatedSessions s) (Some session) s)).

(** [deleteSession(sessionId)], once the backend has deleted it. *)
Definition sessionDeleted (sessionId : jsstring) (s : State) : State :=
  let rest :=
    List.filter (fun x => negb (bool_decide (s_id x = sessionId)))
                (federatedSessions s) in
  match activeFederatedSession s with
  | Some a =>
      if bool_decide (s_id a = sessionId)
      then reset (set_sessions rest None s)
      else set_sessions rest (Some a) s
  | None => set_sessions rest None s
  end.

(** [sendMessage(text, broadcast)]: the message is added to the history
    before [send] is tried, and stays there when [send] throws. *)
Definition sendMessage (text : jsstring) (broadcast : bool) (now : N)
    (socket : option bool) (s : State) : State * list Effect :=
  match socket, activeFederatedSession s with
  | Some open, Some a =>
      let s :=
        set_messages
          (messages s ++
           [mkFedMessage Hook.User
              (Hook.CArray [Hook.mkBlock "text" (Some text)]) (Some now) None])
          s in
      if open then (set_error None s, [SocketSend text (s_gateways a) broadcast])
      else (set_error (Some (units "Failed to send message")) s, [])
  | _, _ => (s, [])
  end.

(** [abortRun(targets)]. *)
Definition abortRun (targets : option (list (jsstring * jsstring)))
    (socket : option bool) (s : State) : State * list Effect :=
  match socket, activeFederatedSession s with
  | Some open, Some a =>
      let abortTargets :=
        match targets with Some t => t | None => s_gateways a end in
      let s :=
        set_streamingSources ∅
          (set_streamingMessages ∅ (set_streaming false s)) in
      (s, if open then [SocketAbort abortTargets] else [])
  | _, _ => (s, [])
  end.

Definition step (e : Event) (s : State) : State * list Effect :=
  match e with
  | Stream m now => (on_stream m now s, [])
  | SocketConnected => (set_error None (set_connected true s), [])
  | SocketError e => (set_error e s, [])
  | SocketClose => (set_connected false s, [])
  | SessionCreated session => (sessionCreated session s, [])
  | SwitchSession sessionId => (switchSession sessionId s, [])
  | SessionDeleted sessionId => (sessionDeleted sessionId s, [])
  | SendMessage text broadcast now socket =>
      sendMessage text broadcast now socket s
  | AbortRun targets socket => abortRun targets socket s
  end.

(** The state after a sequence of events. *)
Definition run (es : list Event) (s : State) : State :=
  fold_left (fun s e => fst (step e s)) es s.

(** The flag [streaming] and the partial texts agree with the set of
    streaming sources. *)
Definition in_sync (s : State) : Prop :=
  dom (streamingMessages s) = streamingSources s /\
  (streaming s = true <-> streamingSources s <> ∅).

(** A [delta] frame of a source. *)
Definition delta (src : Source) (now : N) (text : jsstring) : Event :=
  Stream (mkStreamMsg src "delta" (Some text) None) now.

End FedHook.

(** * Proofs *)

(** Case analysis on every [match] and [if] of the goal, innermost first. *)
Ltac break_match :=
  repeat match goal with
  | |- context [match ?x with _ => _ end] =>
      lazymatch x with
      | context [match _ with _ => _ end] => fail
      | _ => destruct x eqn:?; cbn in *
      end
  end.

(** ** The thinking filter *)

Module FilterFacts.
Import Filter.

Lemma last_of_app prev m1 m2 :
  last_of prev (m1 ++ m2) = last_of (last_of prev m1) m2.
Proof. revert prev. induction m1 as [|c m1 IH]; intros prev; simpl; auto. Qed.

(** The greedy star hands some prefix made of [p]-characters to its
    continuation. *)
Lemma star_sound p prev s k res :
  star p prev s k = Some res ->
  exists m rest, s = m ++ rest /\ forallb p m = true /\
                 k (last_of prev m) rest = Some res.
Proof.
  revert prev. induction s as [|c t IH]; intros prev H; simpl in H.
  - exists [], []. auto.
  - destruct (p c) eqn:Hp.
    + destruct (star p (Some c) t k) as [r|] eqn:Hs.
      * injection H as <-. destruct (IH _ Hs) as (m & rest & -> & Hm & Hk).
        exists (c :: m), rest. simpl. rewrite Hp, Hm. auto.
      * exists [], (c :: t). auto.
    + exists [], (c :: t). auto.
Qed.

(** Soundness of the backtracking matcher with respect to [matches]. *)
Lemma bt_sound r : forall prev s k res,
  bt r prev s k = Some res ->
  exists m rest, s = m ++ rest /\ matches r prev m rest /\
                 k (last_of prev m) rest = Some res.
Proof.
  induction r as [|p|p|r IH|r1 IH1 r2 IH2|r1 IH1 r2 IH2|];
    intros prev s k res H; simpl in H.
  - exists [], s. repeat split; auto. constructor.
  - destruct s as [|c t]; [discriminate|].
    destruct (cls_match p c) eqn:Hp; [|discriminate].
    exists [c], t. repeat split; auto. now constructor.
  - destruct (star_sound _ _ _ _ _ H) as (m & rest & -> & Hm & Hk).
    exists m, rest. repeat split; auto. now constructor.
  - destruct (bt r prev s k) as [x|] eqn:Hr.
    + injection H as <-. destruct (IH _ _ _ _ Hr) as (m & rest & -> & Hm & Hk).
      exists m, rest. repeat split; auto. now constructor.
    + exists [], s. repeat split; auto. apply M_OptNone.
  - destruct (IH1 _ _ _ _ H) as (m1 & rest1 & -> & Hm1 & Hk1).
    destruct (IH2 _ _ _ _ Hk1) as (m2 & rest & -> & Hm2 & Hk).
    exists (m1 ++ m2), rest. rewrite <- app_assoc, last_of_app.
    repeat split; auto. now constructor.
  - destruct (bt r1 prev s k) as [x|] eqn:Hr.
    + injection H as <-. destruct (IH1 _ _ _ _ Hr) as (m & rest & -> & Hm & Hk).
      exists m, rest. repeat split; auto. now apply M_AltL.
    + destruct (IH2 _ _ _ _ H) as (m & rest & -> & Hm & Hk).
      exists m, rest. repeat split; auto. now apply M_AltR.
  - destruct (xorb _ _) eqn:Hx; [|discriminate].
    exists [], s. repeat split; auto. now constructor.
Qed.

(** What the single-character matchers of the pattern accept. *)
Ltac n_bools :=
  repeat match goal with
  | H : _ |- _ =>
      first [ rewrite orb_false_iff in H | rewrite andb_false_iff in H
            | rewrite orb_true_iff in H | rewrite andb_true_iff in H
            | rewrite negb_true_iff in H | rewrite negb_false_iff in H
            | rewrite N.leb_le in H | rewrite N.leb_gt in H
            | rewrite N.eqb_eq in H | rewrite N.eqb_neq in H ]
  end.

Lemma canonicalize_eq_nonletter c a :
  is_word_char a = false -> (canonicalize c =? canonicalize a) = (c =? a).
Proof.
  unfold canonicalize, is_word_char. intros H.
  destruct (N.eqb_spec c a) as [->|Hne]; [apply N.eqb_refl|].
  apply N.eqb_neq.
  destruct ((97 <=? c) && (c <=? 122)) eqn:Hc;
    destruct ((97 <=? a) && (a <=? 122)) eqn:Ha; n_bools; lia.
Qed.

(** Inversion principles for [matches]. *)
Lemma matches_seq_inv r1 r2 prev m rest :
  matches (Seq r1 r2) prev m rest ->
  exists m1 m2, m = m1 ++ m2 /\ matches r1 prev m1 (m2 ++ rest) /\
                matches r2 (last_of prev m1) m2 rest.
Proof. intros H. inversion H; subst. eauto. Qed.

Lemma matches_one_inv p prev m rest :
  matches (One p) prev m rest -> exists c, m = [c] /\ cls_match p c = true.
Proof. intros H. inversion H; subst. eauto. Qed.

Lemma matches_star_inv p prev m rest :
  matches (Star p) prev m rest -> forallb (cls_match p) m = true.
Proof. intros H. now inversion H. Qed.

Lemma matches_opt_inv r prev m rest :
  matches (Opt r) prev m rest -> matches r prev m rest \/ m = [].
Proof. intros H. inversion H; subst; auto. Qed.

Lemma matches_alt_inv r1 r2 prev m rest :
  matches (Alt r1 r2) prev m rest ->
  matches r1 prev m rest \/ matches r2 prev m rest.
Proof. intros H. inversion H; subst; auto. Qed.

Lemma matches_wordb_inv prev m rest :
  matches WordB prev m rest ->
  m = [] /\ xorb (is_word_at prev) (is_word_at (head rest)) = true.
Proof. intros H. inversion H; subst; auto. Qed.

Lemma matches_chr_inv a prev m rest :
  is_word_char a = false ->
  matches (One (CChr a)) prev m rest -> m = [a].
Proof.
  intros Ha H. apply matches_one_inv in H as (c & -> & Hc). simpl in Hc.
  rewrite canonicalize_eq_nonletter in Hc by assumption.
  apply N.eqb_eq in Hc. now subst.
Qed.

Lemma matches_lit w : forall prev m rest,
  matches (lit w) prev m rest -> fold_case m = fold_case w.
Proof.
  induction w as [|c w IH]; intros prev m rest H; simpl in H.
  - inversion H; subst. reflexivity.
  - apply matches_seq_inv in H as (m1 & m2 & -> & H1 & H2).
    apply matches_one_inv in H1 as (c' & -> & Hc). simpl in *. f_equal.
    + now apply N.eqb_eq.
    + eapply IH; eauto.
Qed.

Lemma matches_name prev m rest :
  matches (Alt (Seq (word "think") (Opt (word "ing")))
               (Alt (word "thought") (word "antthinking"))) prev m rest ->
  In (fold_case m) (List.map fold_case tag_names).
Proof.
  intros H. apply matches_alt_inv in H as [H|H].
  - apply matches_seq_inv in H as (m1 & m2 & -> & H1 & H2).
    apply matches_lit in H1.
    apply matches_opt_inv in H2 as [H2| ->].
    + apply matches_lit in H2. right; left.
      unfold fold_case in *. rewrite List.map_app, H1, H2. reflexivity.
    + left. rewrite app_nil_r. symmetry. exact H1.
  - apply matches_alt_inv in H as [H|H]; apply matches_lit in H.
    + right; right; left. symmetry. exact H.
    + right; right; right; left. symmetry. exact H.
Qed.

(** The name of a family ends with a word character. *)
Lemma fold_word_char c : is_word_char (canonicalize c) = is_word_char c.
Proof.
  unfold canonicalize, is_word_char.
  destruct ((97 <=? c) && (c <=? 122)) eqn:Hc.
  - n_bools. destruct Hc as [H1 H2].
    replace (97 <=? c) with true by (symmetry; now apply N.leb_le).
    replace (c <=? 122) with true by (symmetry; now apply N.leb_le).
    replace (65 <=? c - 32) with true by (symmetry; apply N.leb_le; lia).
    replace (c - 32 <=? 90) with true by (symmetry; apply N.leb_le; lia).
    now rewrite !orb_true_r.
  - now rewrite ?Hc.
Qed.

Lemma last_of_fold m : forall p q,
  is_word_at p = is_word_at q ->
  is_word_at (last_of p (fold_case m)) = is_word_at (last_of q m).
Proof.
  induction m as [|c m IH]; intros p q Hpq; simpl; auto.
  apply IH. simpl. apply fold_word_char.
Qed.

Lemma name_last_word prev nm :
  In (fold_case nm) (List.map fold_case tag_names) ->
  is_word_at (last_of prev nm) = true.
Proof.
  intros H.
  rewrite <- (last_of_fold nm prev prev eq_refl).
  assert (Hne : fold_case nm <> []).
  { intros E. rewrite E in H. simpl in H. intuition discriminate. }
  simpl in H.
  destruct H as [H|[H|[H|[H|[]]]]]; rewrite <- H; reflexivity.
Qed.

(** Whatever the pattern matches is a tag marker. *)
Lemma matches_tag_marker prev m rest :
  matches thinking_re prev m rest -> tag_marker m.
Proof.
  unfold thinking_re. intros H.
  apply matches_seq_inv in H as (m1 & x1 & -> & H1 & H).
  apply matches_chr_inv in H1 as ->; [|reflexivity].
  apply matches_seq_inv in H as (ws & x2 & -> & Hws & H).
  apply matches_star_inv in Hws.
  apply matches_seq_inv in H as (sl & x3 & -> & Hsl & H).
  apply matches_seq_inv in H as (nm & x4 & -> & Hnm & H).
  apply matches_name in Hnm.
  apply matches_seq_inv in H as (wb & x5 & -> & Hwb & H).
  apply matches_wordb_inv in Hwb as [-> Hwb].
  apply matches_seq_inv in H as (attrs & x6 & -> & Hat & H).
  apply matches_star_inv in Hat.
  apply matches_chr_inv in H as ->; [|reflexivity].
  exists ws, sl, nm, attrs. simpl app. repeat split; auto.
  - apply matches_opt_inv in Hsl as [Hsl|Hsl]; auto.
    apply matches_chr_inv in Hsl; auto.
  - clear -Hat. induction attrs as [|c l IH]; simpl in *; auto.
    apply andb_true_iff in Hat as [Hc Hl]. rewrite (IH Hl), andb_true_r.
    rewrite canonicalize_eq_nonletter in Hc by reflexivity. exact Hc.
  - rewrite (name_last_word _ _ Hnm) in Hwb. simpl in Hwb.
    apply negb_true_iff in Hwb. rewrite <- Hwb.
    destruct attrs; reflexivity.
Qed.

(** A successful match attempt consumes a tag marker. *)
Lemma match_at_marker prev s rest :
  match_at prev s = Some rest -> exists m, s = m ++ rest /\ tag_marker m.
Proof.
  unfold match_at. intros H.
  apply bt_sound in H as (m & rest' & -> & Hm & Hk).
  injection Hk as <-. exists m. split; auto.
  eapply matches_tag_marker; eauto.
Qed.

Lemma tag_marker_length m : tag_marker m -> (2 <= length m)%nat.
Proof.
  intros (ws & sl & nm & attrs & -> & _). simpl.
  rewrite !length_app. simpl. lia.
Qed.

(** Unfolding [replace_from]: the characters of a match are skipped. *)
Lemma replace_skip m : forall prev rest,
  replace_from (length m) prev (m ++ rest) =
  replace_from 0 (last_of prev m) rest.
Proof.
  induction m as [|c m IH]; intros prev rest; simpl.
  - destruct rest; reflexivity.
  - apply IH.
Qed.

Lemma replace_match prev s rest :
  match_at prev s = Some rest ->
  exists m, s = m ++ rest /\ tag_marker m /\
            replace_from 0 prev s = replace_from 0 (last_of prev m) rest.
Proof.
  intros H. destruct (match_at_marker _ _ _ H) as (m & -> & Hm).
  exists m. repeat split; auto.
  pose proof (tag_marker_length _ Hm) as Hlen.
  destruct m as [|c m]; [simpl in Hlen; lia|].
  change ((c :: m) ++ rest) with (c :: (m ++ rest)) in *.
  cbn [replace_from]. rewrite H.
  replace (length (c :: m ++ rest) - length rest - 1)%nat with (length m)
    by (simpl; rewrite length_app; lia).
  exact (replace_skip m (Some c) rest).
Qed.

Lemma replace_nomatch prev c t :
  match_at prev (c :: t) = None ->
  replace_from 0 prev (c :: t) = c :: replace_from 0 (Some c) t.
Proof. intros H. cbn [replace_from]. now rewrite H. Qed.

(** The replacement deletes tag markers and nothing else. *)
Lemma replace_erases_len n : forall s prev,
  (length s <= n)%nat -> erases s (replace_from 0 prev s).
Proof.
  induction n as [|n IH]; intros s prev Hn.
  - destruct s; [constructor|simpl in Hn; lia].
  - destruct s as [|c t]; [constructor|].
    destruct (match_at prev (c :: t)) as [rest|] eqn:Hm.
    + destruct (replace_match _ _ _ Hm) as (m & E & Hmk & ->).
      rewrite E. apply E_drop; auto. apply IH.
      pose proof (tag_marker_length _ Hmk).
      rewrite E, length_app in Hn. lia.
    + rewrite (replace_nomatch _ _ _ Hm). apply E_keep, IH.
      simpl in Hn. lia.
Qed.

Lemma replace_erases s prev : erases s (replace_from 0 prev s).
Proof. eapply replace_erases_len; eauto. Qed.

Lemma erases_length s t : erases s t -> (length t <= length s)%nat.
Proof.
  induction 1; simpl; try lia. rewrite length_app. lia.
Qed.

(** Without a match nothing is removed; with one the text gets shorter. *)
Lemma replace_no_tag s : forall prev,
  has_tag prev s = false -> replace_from 0 prev s = s.
Proof.
  induction s as [|c t IH]; intros prev H; [reflexivity|].
  cbn [has_tag] in H. destruct (match_at prev (c :: t)) eqn:Hm; [discriminate|].
  rewrite (replace_nomatch _ _ _ Hm). f_equal. now apply IH.
Qed.

Lemma replace_has_tag s : forall prev,
  has_tag prev s = true -> (length (replace_from 0 prev s) < length s)%nat.
Proof.
  induction s as [|c t IH]; intros prev H; [discriminate|].
  cbn [has_tag] in H. destruct (match_at prev (c :: t)) as [rest|] eqn:Hm.
  - destruct (replace_match _ _ _ Hm) as (m & E & Hmk & ->).
    pose proof (tag_marker_length _ Hmk).
    pose proof (erases_length _ _ (replace_erases rest (last_of prev m))).
    rewrite E, length_app. lia.
  - rewrite (replace_nomatch _ _ _ Hm). simpl.
    specialize (IH _ H). lia.
Qed.

(** Facts about [trim]. *)
Lemma trim_start_length s : (length (trim_start s) <= length s)%nat.
Proof.
  induction s as [|c t IH]; simpl; auto.
  destruct (is_white_space c); simpl; lia.
Qed.

Lemma trim_end_length s : (length (trim_end s) <= length s)%nat.
Proof.
  unfold trim_end. rewrite length_rev.
  etransitivity; [apply trim_start_length|]. now rewrite length_rev.
Qed.

Lemma trim_length s : (length (trim s) <= length s)%nat.
Proof.
  unfold trim. etransitivity; [apply trim_end_length|apply trim_start_length].
Qed.

Lemma trim_start_idem s : trim_start (trim_start s) = trim_start s.
Proof.
  induction s as [|c t IH]; simpl; auto.
  destruct (is_white_space c) eqn:Hc; auto. simpl. now rewrite Hc.
Qed.

Lemma trim_end_idem s : trim_end (trim_end s) = trim_end s.
Proof.
  unfold trim_end. now rewrite rev_involutive, trim_start_idem.
Qed.

Lemma trim_start_snoc l c :
  is_white_space c = false ->
  exists l', trim_start (l ++ [c]) = l' ++ [c].
Proof.
  intros Hc. induction l as [|d l IH]; simpl.
  - rewrite Hc. now exists [].
  - destruct (is_white_space d); auto. now exists (d :: l).
Qed.

Lemma trim_end_head c s :
  is_white_space c = false -> exists z, trim_end (c :: s) = c :: z.
Proof.
  intros Hc. unfold trim_end. simpl.
  destruct (trim_start_snoc (rev s) c Hc) as (l' & ->).
  rewrite rev_app_distr. simpl. eauto.
Qed.

Lemma trim_start_trimmed s :
  trim_start (trim_end (trim_start s)) = trim_end (trim_start s).
Proof.
  assert (H : trim_start s = [] \/
              exists c t, trim_start s = c :: t /\ is_white_space c = false).
  { induction s as [|c t IH]; simpl; auto.
    destruct (is_white_space c) eqn:Hc; auto. right. eauto. }
  destruct H as [->|(c & t & -> & Hc)].
  - reflexivity.
  - destruct (trim_end_head c t Hc) as (z & ->). simpl. now rewrite Hc.
Qed.

Lemma trim_idem s : trim (trim s) = trim s.
Proof.
  unfold trim. now rewrite trim_start_trimmed, trim_end_idem.
Qed.

(** The pattern starts with ["<"]: the character before a match attempt
    does not matter, and no match starts at another character. *)
Lemma match_at_prev p q s : match_at p s = match_at q s.
Proof. unfold match_at, thinking_re. destruct s; reflexivity. Qed.

Lemma replace_prev n : forall s p q,
  (length s <= n)%nat -> replace_from 0 p s = replace_from 0 q s.
Proof.
  induction n as [|n IH]; intros s p q Hn.
  - destruct s; [reflexivity|simpl in Hn; lia].
  - destruct s as [|c t]; [reflexivity|].
    cbn [replace_from]. now rewrite (match_at_prev p q).
Qed.

Lemma replace_from_tags p s : replace_from 0 p s = replace_tags s.
Proof. unfold replace_tags. eapply replace_prev; eauto. Qed.

Lemma match_at_not_lt prev c t :
  (c =? unit_of "<") = false -> match_at prev (c :: t) = None.
Proof.
  intros H. unfold match_at, thinking_re. cbn [bt cls_match].
  rewrite canonicalize_eq_nonletter by reflexivity. now rewrite H.
Qed.

(** Greedy star: when the whole run is taken and the continuation accepts,
    that is the result. *)
Lemma star_all p ws : forall prev rest k r,
  forallb p ws = true ->
  k (last_of prev ws) rest = Some r ->
  match rest with c :: _ => p c = false | [] => True end ->
  star p prev (ws ++ rest) k = Some r.
Proof.
  induction ws as [|c ws IH]; intros prev rest k r Hws Hk Hrest; simpl in *.
  - destruct rest as [|d rest]; simpl; auto. now rewrite Hrest.
  - apply andb_true_iff in Hws as [Hc Hws]. rewrite Hc.
    now rewrite (IH (Some c) rest k r).
Qed.

Lemma canonicalize_neq_word c a :
  is_word_char c = false -> is_word_char a = true ->
  (canonicalize c =? canonicalize a) = false.
Proof.
  intros Hc Ha. apply N.eqb_neq. intros E.
  rewrite <- (fold_word_char c), E, fold_word_char in Hc. congruence.
Qed.

(** Evaluate the closed comparisons left after rewriting with what is known
    about the characters of a name. *)
Ltac eval_eqb :=
  repeat match goal with
  | |- context [N.eqb ?x (canonicalize ?y)] =>
      let b := eval vm_compute in (N.eqb x (canonicalize y)) in
      match b with
      | true => change (N.eqb x (canonicalize y)) with true
      | false => change (N.eqb x (canonicalize y)) with false
      end; cbv iota
  end.

Ltac explode_name nm H :=
  match type of H with
  | _ = ?r => let r' := eval vm_compute in r in change r with r' in H
  end;
  repeat (destruct nm as [|? nm];
          [ try discriminate H
          | simpl in H; try discriminate H;
            let Hc := fresh "Hc" in injection H as Hc H ]);
  clear H.

Ltac eval_words :=
  repeat match goal with
  | |- context [word ?w] =>
      let t := eval vm_compute in (word w) in change (word w) with t
  end.

Ltac step_name :=
  cbn [bt app cls_match head];
  repeat match goal with
  | Hc : canonicalize ?c = _ |- context [canonicalize ?c] => rewrite Hc
  end;
  eval_eqb.

Lemma bt_name nm R p K x :
  In (fold_case nm) (List.map fold_case tag_names) ->
  is_word_at (head R) = false ->
  K (last_of p nm) R = Some x ->
  bt (Alt (Seq (word "think") (Opt (word "ing")))
          (Alt (word "thought") (word "antthinking"))) p (nm ++ R) K = Some x.
Proof.
  intros Hin HR HK. simpl in Hin.
  destruct Hin as [H|[H|[H|[H|[]]]]]; symmetry in H; unfold fold_case in H.
  - explode_name nm H. eval_words. step_name. simpl in HK.
    destruct R as [|c R]; [now rewrite HK|].
    simpl in HR. rewrite (canonicalize_neq_word c 105 HR eq_refl).
    now rewrite HK.
  - explode_name nm H. eval_words. step_name. simpl in HK. now rewrite HK.
  - explode_name nm H. eval_words. step_name. simpl in HK. now rewrite HK.
  - explode_name nm H. eval_words. step_name. simpl in HK. now rewrite HK.
Qed.

Lemma name_head nm :
  In (fold_case nm) (List.map fold_case tag_names) ->
  exists c t, nm = c :: t /\ is_white_space c = false /\
              (c =? unit_of "/") = false.
Proof.
  intros Hin. simpl in Hin.
  assert (H : exists c t, nm = c :: t /\
                          (canonicalize c = 84 \/ canonicalize c = 65)).
  { destruct Hin as [H|[H|[H|[H|[]]]]]; symmetry in H; unfold fold_case in H;
      (destruct nm as [|c t]; [discriminate H|]); simpl in H;
      injection H as Hc _; exists c, t; split; auto;
      vm_compute in Hc; rewrite <- Hc; auto. }
  destruct H as (c & t & -> & Hc). exists c, t. split; auto.
  unfold canonicalize, is_white_space in *.
  destruct ((97 <=? c) && (c <=? 122)) eqn:E; n_bools.
  - split.
    + repeat (apply orb_false_iff; split); try (apply N.eqb_neq; lia);
        apply andb_false_iff; (left; apply N.leb_gt; lia) ||
                              (right; apply N.leb_gt; lia).
    + apply N.eqb_neq. change (unit_of "/") with 47. lia.
  - split.
    + repeat (apply orb_false_iff; split); try (apply N.eqb_neq; lia);
        apply andb_false_iff; (left; apply N.leb_gt; lia) ||
                              (right; apply N.leb_gt; lia).
    + apply N.eqb_neq. change (unit_of "/") with 47. lia.
Qed.

(** The tail of the pattern: [\b[^>]*>]. *)
Lemma bt_tail prev attrs post :
  is_word_at prev = true ->
  forallb (fun c => negb (c =? unit_of ">")) attrs = true ->
  is_word_at (head (attrs ++ [unit_of ">"])) = false ->
  bt (Seq WordB (Seq (Star (CNot (unit_of ">"))) (One (CChr (unit_of ">")))))
     prev (attrs ++ unit_of ">" :: post) (fun _ rest => Some rest) = Some post.
Proof.
  intros Hp Hat Hhd. cbn [bt]. rewrite Hp.
  replace (is_word_at (head (attrs ++ unit_of ">" :: post))) with false
    by (destruct attrs; simpl in *; auto).
  simpl xorb. cbv iota.
  apply star_all.
  - clear -Hat. induction attrs as [|c l IH]; simpl in *; auto.
    apply andb_true_iff in Hat as [Hc Hl]. rewrite (IH Hl), andb_true_r.
    now rewrite canonicalize_eq_nonletter by reflexivity.
  - reflexivity.
  - reflexivity.
Qed.

(** Completeness: at the start of a tag marker the pattern matches exactly
    the marker. *)
Lemma match_at_complete prev m post :
  tag_marker m -> match_at prev (m ++ post) = Some post.
Proof.
  intros (ws & sl & nm & attrs & -> & Hws & Hsl & Hnm & Hat & Hhd).
  unfold match_at, thinking_re.
  destruct (name_head _ Hnm) as (c & t & Enm & Hcw & Hcs).
  remember (Alt (Seq (word "think") (Opt (word "ing")))
                (Alt (word "thought") (word "antthinking"))) as name_re.
  remember (Seq WordB (Seq (Star (CNot (unit_of ">")))
                           (One (CChr (unit_of ">"))))) as tail_re.
  assert (Hgo : forall q,
    bt (Seq name_re tail_re) q (nm ++ attrs ++ [unit_of ">"] ++ post)
       (fun _ rest => Some rest) = Some post).
  { intros q. cbn [bt]. subst name_re. apply bt_name; auto.
    - destruct attrs; simpl in *; auto.
    - subst tail_re. apply (bt_tail (last_of q nm) attrs post); auto.
      now apply name_last_word. }
  cbn [bt app cls_match]. rewrite N.eqb_refl.
  rewrite <- !app_assoc.
  apply star_all; auto.
  2:{ destruct Hsl as [->| ->]; simpl; [now rewrite Enm|reflexivity]. }
  destruct Hsl as [->| ->].
  - cbn [app]. rewrite Enm. cbn [app].
    rewrite canonicalize_eq_nonletter by reflexivity. rewrite Hcs.
    rewrite app_comm_cons, <- Enm. apply Hgo.
  - cbn [app]. rewrite N.eqb_refl.
    change (bt name_re ?a ?b (fun p' s' => bt tail_re p' s' ?k))
      with (bt (Seq name_re tail_re) a b k).
    now rewrite Hgo.
Qed.

(** A tag marker reached by the scan is removed. *)
Lemma replace_marker pre : forall prev m post,
  forallb (fun c => negb (c =? unit_of "<")) pre = true ->
  tag_marker m ->
  replace_from 0 prev (pre ++ m ++ post) = pre ++ replace_tags post.
Proof.
  induction pre as [|c pre IH]; intros prev m post Hpre Hm;
    simpl in Hpre; cbn [app].
  - destruct (replace_match prev (m ++ post) post (match_at_complete prev m post Hm))
      as (m' & _ & _ & ->).
    apply replace_from_tags.
  - apply andb_true_iff in Hpre as [Hc Hpre]. apply negb_true_iff in Hc.
    rewrite replace_nomatch by now apply match_at_not_lt.
    f_equal. now apply IH.
Qed.

(** *** The replacement deletes exactly the markers met from left to right *)

Lemma replace_strips_len n : forall s prev,
  (length s <= n)%nat -> strips s (replace_from 0 prev s).
Proof.
  induction n as [|n IH]; intros s prev Hn.
  - destruct s; [constructor|simpl in Hn; lia].
  - destruct s as [|c t]; [constructor|].
    destruct (match_at prev (c :: t)) as [rest|] eqn:E.
    + destruct (replace_match _ _ _ E) as (m & Hs & Hm & Hr).
      rewrite Hr, Hs. apply S_drop; [exact Hm|]. apply IH.
      apply tag_marker_length in Hm.
      apply (f_equal (@length N)) in Hs. rewrite length_app in Hs.
      simpl in Hs, Hn. lia.
    + rewrite (replace_nomatch _ _ _ E). apply S_keep.
      * intros m rest Hm Hs. rewrite Hs, (match_at_complete prev m rest Hm) in E.
        discriminate E.
      * apply IH. simpl in Hn. lia.
Qed.

Lemma replace_strips s : strips s (replace_tags s).
Proof. apply (replace_strips_len (length s)). lia. Qed.

(** The characters left are determined by the input. *)
Lemma strips_replace s t : strips s t -> forall prev, t = replace_from 0 prev s.
Proof.
  induction 1 as [|m s t Hm _ IH|c s t Hc _ IH]; intros prev.
  - reflexivity.
  - destruct (replace_match prev (m ++ s) s (match_at_complete prev m s Hm))
      as (m' & Hs & _ & Hr).
    rewrite Hr. apply IH.
  - destruct (match_at prev (c :: s)) as [rest|] eqn:E.
    + destruct (match_at_marker _ _ _ E) as (m & Hs & Hm).
      destruct (Hc m rest Hm Hs).
    + rewrite (replace_nomatch _ _ _ E). f_equal. apply IH.
Qed.

Lemma strips_iff s t : strips s t <-> t = replace_tags s.
Proof.
  split.
  - intros H. apply (strips_replace _ _ H).
  - intros ->. apply replace_strips.
Qed.

(** A marker in front of which no marker starts. *)
Lemma strips_after_kept pre : forall m post,
  (forall a b mk rest,
      pre = a ++ b -> b <> [] -> tag_marker mk ->
      b ++ m ++ post <> mk ++ rest) ->
  tag_marker m ->
  strips (pre ++ m ++ post) (pre ++ replace_tags post).
Proof.
  induction pre as [|c pre IH]; intros m post Hpre Hm.
  - apply (S_drop m post (replace_tags post)); [exact Hm|apply replace_strips].
  - cbn [app]. apply S_keep.
    + intros mk rest Hmk. apply (Hpre [] (c :: pre) mk rest); auto; discriminate.
    + apply IH; auto. intros a b mk rest -> Hb Hmk.
      apply (Hpre (c :: a) b mk rest); auto.
Qed.

End FilterFacts.

(** ** The upstream client *)

Module GatewayFacts.
Import Gateway.

(** *** Identifiers *)

Lemma no_underscore_uint d : no_underscore (NilEmpty.string_of_uint d) = true.
Proof. induction d; simpl; auto. Qed.

Lemma split_underscore a : forall b x y,
  no_underscore a = true -> no_underscore b = true ->
  a +:+ String "_" x = b +:+ String "_" y -> a = b.
Proof.
  induction a as [|c a IH]; intros [|d b] x y Ha Hb E; simpl in *.
  - reflexivity.
  - injection E as E1 E2. subst d. simpl in Hb. discriminate.
  - injection E as E1 E2. subst c. simpl in Ha. discriminate.
  - injection E as E1 E2. subst d.
    apply andb_true_iff in Ha as [_ Ha]. apply andb_true_iff in Hb as [_ Hb].
    f_equal. eapply IH; eauto.
Qed.

Lemma decimal_inj a b : decimal a = decimal b -> a = b.
Proof.
  unfold decimal. intros E.
  apply DecimalN.Unsigned.to_uint_inj.
  assert (H : Some (N.to_uint a) = Some (N.to_uint b)).
  { rewrite <- !NilEmpty.usu. now rewrite E. }
  now injection H.
Qed.

(** The counter can be read back from an identifier. *)
Lemma mk_id_counter c t c' t' : mk_id c t = mk_id c' t' -> c = c'.
Proof.
  unfold mk_id. intros E. simpl in E. injection E as E.
  apply decimal_inj.
  eapply split_underscore; [apply no_underscore_uint..|exact E].
Qed.

Lemma js_succ_lt c : (c < 2 ^ 53)%N -> js_succ c = (c + 1)%N.
Proof.
  intros H. unfold js_succ. now apply N.ltb_lt in H as ->.
Qed.

Lemma js_succ_le c : (c <= js_succ c)%N.
Proof. unfold js_succ. destruct (c <? 2 ^ 53)%N; lia. Qed.

Lemma js_succ_bound c : (js_succ c < 2 ^ 53)%N -> js_succ c = (c + 1)%N.
Proof.
  unfold js_succ. destruct (c <? 2 ^ 53)%N eqn:E; auto.
  apply N.ltb_ge in E. lia.
Qed.

(** *** The effect of the methods, field by field *)

(** [flushPending] rejects every pending request in insertion order,
    clears their timers and empties the map. *)
Lemma flush_fold e l : forall w,
  fold_left (fun w (p : string * nat) =>
               say (RequestRejected (fst p) e) (clearTimeout (snd p) w)) l w
  = mkWorld (client w) (config w) (reqCounter w) (now w) (sockets w)
      (fold_left (fun m (p : string * nat) => delete (snd p) m) l (timers w))
      (nextTimer w) (nextPromise w)
      (log w ++ List.map (fun p => RequestRejected (fst p) e) l).
Proof.
  induction l as [|p l IH]; intros w; simpl.
  - rewrite app_nil_r. now destruct w.
  - rewrite IH. simpl. now rewrite <- app_assoc.
Qed.

Lemma flushPending_eq e w :
  flushPending e w
  = mkWorld (set_pending [] (client w)) (config w) (reqCounter w) (now w)
      (sockets w)
      (fold_left (fun m (p : string * nat) => delete (snd p) m)
                 (pending (client w)) (timers w))
      (nextTimer w) (nextPromise w)
      (log w ++ List.map (fun p => RequestRejected (fst p) e)
                         (pending (client w))).
Proof. unfold flushPending. now rewrite flush_fold. Qed.

Lemma pending_delete_incl id l :
  incl (List.map fst (pending_delete id l)) (List.map fst l).
Proof.
  intros x Hx. apply in_map_iff in Hx as (p & <- & Hp).
  apply filter_In in Hp as [Hp _]. now apply in_map.
Qed.

Lemma pending_set_incl id h l :
  incl (List.map fst (pending_set id h l)) (id :: List.map fst l).
Proof.
  induction l as [|[k v] l IH]; simpl.
  - intros x [<-|[]]. now left.
  - destruct (String.eqb k id) eqn:E; simpl.
    + intros x Hx. now right.
    + intros x [<-|Hx]; [right; now left|].
      destruct (IH x Hx) as [<-|H]; [now left|right; now right].
Qed.


Ltac unfold_methods :=
  repeat progress
    unfold run_timer, on_open, on_close, on_error, on_dial_timeout,
      on_request_timeout, connect, disconnect, _connect, request,
      handleMessage, sendConnect, scheduleReconnect, reject_connect,
      close_current, ws_close, ws_send, set_ready, emit, nextId, setTimeout,
      clearTimeout, ws_open, ready in *.

Ltac solve_incl :=
  first [ apply incl_refl | apply incl_nil_l | apply pending_delete_incl
        | apply pending_set_incl ].

(** Unfold one turn of the event loop into its cases. *)
Ltac step_cases :=
  unfold step;
  repeat (progress (unfold_methods; cbv zeta; rewrite ?flushPending_eq in *;
                    cbn in *; break_match)).

Lemma step_ids e w : ids_change w (step e w).
Proof.
  destruct e; step_cases; unfold pending_ids; simpl.
  all: first
    [ apply ic_same; simpl; [reflexivity | solve_incl | auto]
    | apply ic_connect; simpl; [reflexivity | reflexivity | reflexivity]
    | apply ic_request; simpl; [reflexivity | solve_incl | reflexivity] ].
Qed.

(** *** Identifiers stay distinct *)

Lemma step_counter_mono e w : (reqCounter w <= reqCounter (step e w))%N.
Proof.
  destruct (step_ids e w) as [E _ _|E _ _|E _ _]; rewrite E;
    [lia|apply js_succ_le..].
Qed.

Lemma run_counter_mono es : forall w, (reqCounter w <= reqCounter (run es w))%N.
Proof.
  induction es as [|e es IH]; intros w; simpl; [lia|].
  etransitivity; [apply (step_counter_mono e)|apply IH].
Qed.

Lemma issued_mono w w' id :
  (reqCounter w <= reqCounter w')%N -> issued w id -> issued w' id.
Proof. intros H (c & t & -> & Hc). exists c, t. split; auto. lia. Qed.

(** An identifier made after [w] differs from those issued up to [w]. *)
Lemma issued_fresh w id t :
  issued w id -> (js_succ (reqCounter w) < 2 ^ 53)%N ->
  id <> mk_id (js_succ (reqCounter w)) t.
Proof.
  intros (c & t' & -> & Hc) Hlt E. apply mk_id_counter in E.
  rewrite (js_succ_bound _ Hlt) in E. lia.
Qed.

Lemma fresh_issued w w' t :
  reqCounter w' = js_succ (reqCounter w) ->
  issued w' (mk_id (js_succ (reqCounter w)) t).
Proof. intros E. exists (js_succ (reqCounter w)), t. split; auto. lia. Qed.

Lemma pending_has_false id l :
  pending_has id l = false <-> ~ In id (List.map fst l).
Proof.
  unfold pending_has. induction l as [|[k v] l IH]; simpl.
  - tauto.
  - destruct (String.eqb_spec k id) as [->|Hne]; simpl.
    + split; [discriminate|]. intros H. exfalso. apply H. now left.
    + rewrite IH. split; [intros H [E|Hin]; [congruence|tauto]|tauto].
Qed.

Lemma ids_ok_step e w :
  ids_ok w -> (reqCounter (step e w) < 2 ^ 53)%N -> ids_ok (step e w).
Proof.
  intros [Hp Hc] Hlt. unfold ids_ok.
  pose proof (step_counter_mono e w) as Hmono.
  destruct (step_ids e w) as [E Hin Hcid|E Hin Hcid|E Hin Hcid].
  - split.
    + apply List.Forall_forall. intros id Hid. apply Hin in Hid.
      eapply issued_mono; eauto. eapply List.Forall_forall in Hp; eauto.
    + intros id Hid. destruct Hcid as [Hcid|Hcid]; rewrite Hcid in Hid;
        [|discriminate].
      destruct (Hc id Hid) as [Hi Hn]. split.
      * eapply issued_mono; eauto.
      * intros Hx. apply Hn, Hin, Hx.
  - rewrite E in Hlt. split.
    + rewrite Hin. apply List.Forall_forall. intros id Hid.
      eapply issued_mono; eauto. eapply List.Forall_forall in Hp; eauto.
    + intros id Hid. rewrite Hcid in Hid. injection Hid as <-. split.
      * now apply fresh_issued.
      * rewrite Hin. intros Hx. eapply List.Forall_forall in Hp; eauto.
        eapply issued_fresh; eauto.
  - rewrite E in Hlt. split.
    + apply List.Forall_forall. intros id Hid. apply Hin in Hid as [<-|Hid].
      * now apply fresh_issued.
      * eapply issued_mono; eauto. eapply List.Forall_forall in Hp; eauto.
    + intros id Hid. rewrite Hcid in Hid.
      destruct (Hc id Hid) as [Hi Hn]. split.
      * eapply issued_mono; eauto.
      * intros Hx. apply Hin in Hx as [<-|Hx]; [|tauto].
        eapply issued_fresh; eauto.
Qed.

Lemma ids_ok_init cfg t0 : ids_ok (init cfg t0).
Proof.
  split; [constructor|]. intros id H. discriminate.
Qed.

Lemma ids_ok_run es : forall w,
  ids_ok w -> (reqCounter (run es w) < 2 ^ 53)%N -> ids_ok (run es w).
Proof.
  induction es as [|e es IH]; intros w Hw Hlt; simpl in *; auto.
  apply IH; auto. apply ids_ok_step; auto.
  pose proof (run_counter_mono es (step e w)). lia.
Qed.

Lemma retired_step id e w :
  retired id w -> (reqCounter (step e w) < 2 ^ 53)%N -> retired id (step e w).
Proof.
  intros (Hi & Hp & Hc) Hlt. unfold retired.
  pose proof (step_counter_mono e w) as Hmono.
  rewrite pending_has_false in *. fold (pending_ids w) in Hp.
  fold (pending_ids (step e w)).
  destruct (step_ids e w) as [E Hin Hcid|E Hin Hcid|E Hin Hcid].
  - split; [|split].
    + eapply issued_mono; eauto.
    + intros Hx. apply Hp, Hin, Hx.
    + destruct Hcid as [-> | ->]; auto; discriminate.
  - rewrite E in Hlt. split; [|split].
    + eapply issued_mono; eauto.
    + now rewrite Hin.
    + rewrite Hcid. intros Hx. injection Hx as Hx.
      symmetry in Hx. revert Hx. eapply issued_fresh; eauto.
  - rewrite E in Hlt. split; [|split].
    + eapply issued_mono; eauto.
    + intros Hx. apply Hin in Hx as [Hx|Hx]; [|tauto].
      symmetry in Hx. revert Hx. eapply issued_fresh; eauto.
    + now rewrite Hcid.
Qed.

Lemma retired_run id es : forall w,
  retired id w -> (reqCounter (run es w) < 2 ^ 53)%N -> retired id (run es w).
Proof.
  induction es as [|e es IH]; intros w Hw Hlt; simpl in *; auto.
  apply IH; auto. apply retired_step; auto.
  pose proof (run_counter_mono es (step e w)). lia.
Qed.

(** *** While connected the attempt counter is zero *)

Lemma connected_fresh_step e w :
  (_connected (client w) = true -> reconnectAttempts (client w) = 0%N) ->
  _connected (client (step e w)) = true ->
  reconnectAttempts (client (step e w)) = 0%N.
Proof.
  intros Hw. destruct e; step_cases; auto; try discriminate.
Qed.

Lemma connected_fresh_run es : forall w,
  (_connected (client w) = true -> reconnectAttempts (client w) = 0%N) ->
  _connected (client (run es w)) = true ->
  reconnectAttempts (client (run es w)) = 0%N.
Proof.
  induction es as [|e es IH]; intros w Hw; simpl; auto.
  apply IH. now apply connected_fresh_step.
Qed.

(** The close listener reschedules only a client that was connected, and a
    connected client has made no attempt: whatever happens, the attempt
    counter of a [GatewayClient] never passes 1. *)
Lemma attempts_step e w :
  (_connected (client w) = true -> reconnectAttempts (client w) = 0%N) ->
  (reconnectAttempts (client w) <= 1)%N ->
  (reconnectAttempts (client (step e w)) <= 1)%N.
Proof.
  intros Hc Hw. destruct e; step_cases; auto; try lia.
  all: match goal with
       | H : _connected _ && _ = true |- _ =>
           rewrite Hc by (apply andb_true_iff in H; tauto); lia
       end.
Qed.

Lemma attempts_run es : forall w,
  (_connected (client w) = true -> reconnectAttempts (client w) = 0%N) ->
  (reconnectAttempts (client w) <= 1)%N ->
  (reconnectAttempts (client (run es w)) <= 1)%N.
Proof.
  induction es as [|e es IH]; intros w Hc Hw; simpl; auto.
  apply IH; [now apply connected_fresh_step|now apply attempts_step].
Qed.

(** *** Which turns send a [connect] frame *)

Lemma step_log e w :
  exists l, log (step e w) = log w ++ l /\
            (may_send_connect e = false ->
             forall o, In o l -> sent_method "connect" o = false).
Proof.
  destruct e; step_cases.
  all: rewrite <- ?app_assoc.
  all: first [ exists []; rewrite app_nil_r; split; [reflexivity|]
             | eexists; split; [reflexivity|] ].
  all: intros Hmay obs Hobs; simpl in Hmay; try discriminate.
  all: repeat (rewrite in_app_iff in Hobs || simpl in Hobs).
  all: repeat match goal with
       | H : _ \/ _ |- _ => destruct H
       | H : False |- _ => destruct H
       | H : In _ (List.map _ _) |- _ =>
           apply in_map_iff in H as (? & <- & _)
       end; subst; simpl; auto.
  all: congruence.
Qed.

Lemma run_log es : forall w,
  forallb (fun e => negb (may_send_connect e)) es = true ->
  exists l, log (run es w) = log w ++ l /\
            forall o, In o l -> sent_method "connect" o = false.
Proof.
  induction es as [|e es IH]; intros w Hes; simpl in *.
  - exists []. rewrite app_nil_r. split; auto. intros o [].
  - apply andb_true_iff in Hes as [He Hes]. apply negb_true_iff in He.
    destruct (IH (step e w) Hes) as (l2 & E2 & H2).
    destruct (step_log e w) as (l1 & E1 & H1).
    exists (l1 ++ l2). rewrite E2, E1, <- app_assoc. split; auto.
    intros o Ho. apply in_app_iff in Ho as [Ho|Ho]; auto.
Qed.

(** [scheduleReconnect], case by case. *)
Lemma scheduleReconnect_below w :
  (reconnectAttempts (client w) < 10)%N ->
  scheduleReconnect w =
  upd (set_reconnectTimer (Some (nextTimer w)))
    (snd (setTimeout TReconnect (backoff_delay (reconnectAttempts (client w)))
       (emit "reconnecting"
          (DReconnecting (reconnectAttempts (client w) + 1)
                         (backoff_delay (reconnectAttempts (client w))))
          (upd (set_reconnectAttempts (reconnectAttempts (client w) + 1)) w)))).
Proof.
  intros H. unfold scheduleReconnect, maxReconnectAttempts.
  apply N.leb_gt in H. rewrite H. reflexivity.
Qed.

Lemma scheduleReconnect_exhausted w :
  (10 <= reconnectAttempts (client w))%N ->
  scheduleReconnect w = emit "reconnect_failed" DEmpty w.
Proof.
  intros H. unfold scheduleReconnect, maxReconnectAttempts.
  apply N.leb_le in H. now rewrite H.
Qed.

(** *** Requests and their deadlines *)

Lemma pending_get_set id h l : pending_get id (pending_set id h l) = Some h.
Proof.
  unfold pending_get. induction l as [|[k v] l IH]; simpl.
  - now rewrite String.eqb_refl.
  - destruct (String.eqb k id) eqn:E; simpl; rewrite E; auto.
Qed.

Lemma pending_has_delete id l : pending_has id (pending_delete id l) = false.
Proof.
  apply pending_has_false. intros H. apply in_map_iff in H as ([k v] & E & H).
  apply filter_In in H as [_ H]. simpl in *. subst k.
  now rewrite String.eqb_refl in H.
Qed.

Lemma pending_get_none id l : pending_has id l = false -> pending_get id l = None.
Proof.
  unfold pending_has, pending_get. induction l as [|[k v] l IH]; simpl; auto.
  destruct (String.eqb k id); simpl; auto. discriminate.
Qed.

(** Registering a request. *)
Lemma request_registers w method params tmo s :
  ws_open w = Some s ->
  let id := mk_id (js_succ (reqCounter w)) (now w) in
  let w' := step (CallRequest method params tmo) w in
  pending_get id (pending (client w')) = Some (nextTimer w) /\
  timers w' !! nextTimer w =
    Some (mkTimer (now w + default 30000 tmo) (TRequest id)) /\
  log w' = log w ++ [Sent s (mkFrame "req" id method (PJson params))].
Proof.
  intros Hs. cbn [step]. unfold request. rewrite Hs. cbv zeta.
  unfold ws_open in Hs.
  destruct (ws (client w)) as [s'|] eqn:Hws; [|discriminate].
  destruct (ready s' w) as [[]|] eqn:Hr; try discriminate.
  injection Hs as ->.
  unfold nextId, setTimeout, ws_send, ready in *. cbn in *. rewrite Hr. cbn.
  split; [|split]; auto.
  - apply pending_get_set.
  - apply lookup_insert_eq.
Qed.

(** The deadline of a request that is still pending. *)
Lemma request_timeout_fires w h id d :
  timers w !! h = Some (mkTimer d (TRequest id)) ->
  d <= now w ->
  pending_has id (pending (client w)) = true ->
  let w1 := step (TimerFire h) w in
  log w1 = log w ++ [RequestRejected id ERequestTimeout] /\
  pending_has id (pending (client w1)) = false /\
  timers w1 !! h = None /\
  connectId (client w1) = connectId (client w) /\
  reqCounter w1 = reqCounter w.
Proof.
  intros Ht Hd Hp. cbn [step]. rewrite Ht. cbn [due callback].
  apply N.leb_le in Hd. rewrite Hd. cbn [run_timer].
  unfold on_request_timeout, clearTimeout. cbn. rewrite Hp. cbn.
  repeat split; auto.
  - apply pending_has_delete.
  - apply lookup_delete_eq.
Qed.

(** A response whose identifier is not in use changes nothing. *)
Lemma late_response_discarded w s id okf err payload :
  pending_has id (pending (client w)) = false ->
  connectId (client w) <> Some id ->
  step (SockMessage s (InRes (Some id) okf err payload)) w = w.
Proof.
  intros Hp Hc. cbn [step]. destruct (ready s w) as [[]|]; auto.
  unfold handleMessage, is_connect_response.
  destruct (connectId (client w)) as [cid|] eqn:E.
  - destruct (String.eqb_spec id cid) as [->|Hne]; [congruence|].
    rewrite andb_false_r. now rewrite (pending_get_none _ _ Hp).
  - now rewrite (pending_get_none _ _ Hp).
Qed.

Lemma timers_empty_fire hs : forall w,
  timers w = ∅ -> run (List.map TimerFire hs) w = w.
Proof.
  induction hs as [|h hs IH]; intros w Hw; simpl; auto.
  rewrite Hw, lookup_empty. now apply IH.
Qed.

(** A close event with the attempts exhausted starts nothing. *)
Lemma close_exhausted w s code reason :
  10 <= reconnectAttempts (client w) ->
  nextTimer (step (SockClose s code reason) w) = nextTimer w /\
  length (sockets (step (SockClose s code reason) w)) = length (sockets w).
Proof.
  intros H. step_cases; rewrite ?length_insert; auto.
  all: exfalso; unfold maxReconnectAttempts in *;
    match goal with K : (10 <=? _) = false |- _ => apply N.leb_gt in K end; lia.
Qed.

(** *** The handshake frame *)

Lemma step_sendConnect e w :
  exists l, log (step e w) = log w ++ l /\
            (is_challenge e = false ->
             forall o, In o l -> from_sendConnect o = false).
Proof.
  destruct e; step_cases.
  all: rewrite <- ?app_assoc.
  all: first [ exists []; rewrite app_nil_r; split; [reflexivity|]
             | eexists; split; [reflexivity|] ].
  all: intros Hmay obs Hobs; simpl in Hmay; try discriminate.
  all: repeat (rewrite in_app_iff in Hobs || simpl in Hobs).
  all: repeat match goal with
       | H : _ \/ _ |- _ => destruct H
       | H : False |- _ => destruct H
       | H : In _ (List.map _ _) |- _ =>
           apply in_map_iff in H as (? & <- & _)
       end; subst; simpl; auto.
  all: congruence.
Qed.

Lemma run_sendConnect es : forall w,
  forallb (fun e => negb (is_challenge e)) es = true ->
  exists l, log (run es w) = log w ++ l /\
            forall o, In o l -> from_sendConnect o = false.
Proof.
  induction es as [|e es IH]; intros w Hes; simpl in *.
  - exists []. rewrite app_nil_r. split; auto. intros o [].
  - apply andb_true_iff in Hes as [He Hes]. apply negb_true_iff in He.
    destruct (IH (step e w) Hes) as (l2 & E2 & H2).
    destruct (step_sendConnect e w) as (l1 & E1 & H1).
    exists (l1 ++ l2). rewrite E2, E1, <- app_assoc. split; auto.
    intros o Ho. apply in_app_iff in Ho as [Ho|Ho]; auto.
Qed.

(** A challenge received on an open socket is answered on the client's
    current socket, if that one is open. *)
Lemma challenge_answered w s payload :
  ready s w = Some OPEN ->
  log (step (SockMessage s (InEvent "connect.challenge" payload)) w)
  = log w ++
    match ws_open w with
    | Some c =>
        [Sent c (mkFrame "req" (mk_id (js_succ (reqCounter w)) (now w))
                   "connect" (PConnect (connect_params w)))]
    | None => []
    end.
Proof.
  intros Hr. cbn [step]. rewrite Hr. cbn [handleMessage String.eqb Ascii.eqb Bool.eqb].
  unfold sendConnect, nextId, ws_open, ws_send, ready. cbn.
  destruct (ws (client w)) as [c|]; [|now rewrite app_nil_r].
  destruct (sockets w !! c) as [x|]; cbn; [|now rewrite app_nil_r].
  destruct (readyState x); cbn; now rewrite ?app_nil_r.
Qed.

(** Only a challenge delivered on an open socket makes the client send the
    frame of [sendConnect]. *)
Lemma sendConnect_needs_challenge e w :
  exists l, log (step e w) = log w ++ l /\
            forall o, In o l -> from_sendConnect o = true ->
                      exists s payload,
                        e = SockMessage s (InEvent "connect.challenge" payload) /\
                        ready s w = Some OPEN.
Proof.
  destruct (is_challenge e) eqn:Hc.
  - destruct e as [| | | |s m| | | |]; try discriminate Hc.
    destruct m as [|event payload|]; try discriminate Hc.
    cbn in Hc. apply String.eqb_eq in Hc. subst event.
    destruct (ready s w) as [[]|] eqn:Hr.
    2: { destruct (step_sendConnect (SockMessage s (InEvent "connect.challenge" payload)) w)
           as (l & E & _).
         exists l. split; [exact E|]. intros o _ _. now exists s, payload. }
    all: exists []; split; [cbn [step]; rewrite Hr; now rewrite app_nil_r|intros o []].
  - destruct (step_sendConnect e w) as (l & E & Hl). exists l. split; [exact E|].
    intros o Ho Hf. rewrite (Hl Hc o Ho) in Hf. discriminate Hf.
Qed.

(** *** The dial timer *)

Section Dialing.
Variables (tm : gmap nat Timer) (sk : list Socket).
Hypothesis H : dialing tm sk.

Lemma dialing_sub (tm' : gmap nat Timer) :
  (forall h t, tm' !! h = Some t -> tm !! h = Some t) -> dialing tm' sk.
Proof. intros Hsub h d s p Hl. apply (H h d s p). auto. Qed.

Lemma dialing_insert nt t :
  (forall s p, callback t <> TDial s p) -> dialing (<[nt := t]> tm) sk.
Proof.
  intros Hc h d s p Hl. apply lookup_insert_Some in Hl as [[_ ->]|[_ Hl]].
  - destruct (Hc s p). reflexivity.
  - now apply (H h d s p).
Qed.

Lemma dialing_dial nt d p pr :
  dialing (<[nt := mkTimer d (TDial (length sk) p)]> tm)
          (sk ++ [mkSocket CONNECTING nt pr]).
Proof.
  intros h d' s p' Hl. apply lookup_insert_Some in Hl as [[<- E]|[_ Hl]].
  - injection E as <- <- <-. eexists. split; [|split].
    + rewrite lookup_app_r by lia. rewrite Nat.sub_diag. reflexivity.
    + reflexivity.
    + now left.
  - destruct (H _ _ _ _ Hl) as (x & Hx & Hh & Hr). exists x. split; auto.
    rewrite lookup_app_l; auto. eapply lookup_lt_Some; eauto.
Qed.

Lemma dialing_closing s x :
  sk !! s = Some x ->
  dialing tm (<[s := mkSocket CLOSING (dialTimer x) (dialPromise x)]> sk).
Proof.
  intros Hs h d s' p Hl. destruct (H _ _ _ _ Hl) as (x' & Hx & Hh & Hr).
  destruct (decide (s' = s)) as [->|Hne].
  - rewrite Hs in Hx. injection Hx as <-. eexists. split; [|split].
    + apply list_lookup_insert_eq. eapply lookup_lt_Some; eauto.
    + exact Hh.
    + now right.
  - exists x'. split; auto. rewrite list_lookup_insert_ne; auto.
Qed.

Lemma dialing_settled (tm' : gmap nat Timer) s x r :
  sk !! s = Some x ->
  (forall h t, tm' !! h = Some t -> delete (dialTimer x) tm !! h = Some t) ->
  dialing tm' (<[s := mkSocket r (dialTimer x) (dialPromise x)]> sk).
Proof.
  intros Hs Hsub h d s' p Hl. apply Hsub in Hl.
  apply lookup_delete_Some in Hl as [Hne Hl].
  destruct (H _ _ _ _ Hl) as (x' & Hx & Hh & Hr).
  destruct (decide (s' = s)) as [->|Hs'].
  - rewrite Hs in Hx. injection Hx as <-. congruence.
  - exists x'. split; auto. rewrite list_lookup_insert_ne; auto.
Qed.

End Dialing.

Lemma flushed_sub (l : list (string * nat)) : forall (m : gmap nat Timer) h t,
  fold_left (fun m (p : string * nat) => delete (snd p) m) l m !! h = Some t ->
  m !! h = Some t.
Proof.
  induction l as [|[k v] l IH]; intros m h t Hl; simpl in *; auto.
  apply IH in Hl. apply lookup_delete_Some in Hl. tauto.
Qed.

Ltac sub_timers :=
  let h := fresh "h" in let t := fresh "t" in let Hl := fresh "Hl" in
  intros h t Hl;
  repeat first [ apply flushed_sub in Hl
               | match type of Hl with
                 | delete (dialTimer _) _ !! _ = _ => fail 1
                 | delete _ _ !! _ = _ => apply lookup_delete_Some in Hl as [_ Hl]
                 end ];
  exact Hl.

Ltac sub_timers_all :=
  let h := fresh "h" in let t := fresh "t" in let Hl := fresh "Hl" in
  intros h t Hl;
  repeat first [ apply flushed_sub in Hl
               | apply lookup_delete_Some in Hl as [_ Hl] ];
  exact Hl.

Ltac dialing_peel Hw :=
  lazymatch goal with
  | |- dialing (<[_ := mkTimer _ (TDial _ _)]> _) (_ ++ _) => apply dialing_dial
  | |- dialing (<[_ := _]> _) _ => apply dialing_insert; [|discriminate]
  | |- dialing _ (<[_ := mkSocket CLOSING _ _]> _) =>
      eapply dialing_closing; [|eassumption]
  | |- dialing _ (<[_ := mkSocket _ (dialTimer _) _]> _) =>
      eapply dialing_settled; [exact Hw|eassumption|sub_timers]
  | |- dialing _ _ => eapply dialing_sub; [exact Hw|sub_timers_all]
  end.

Lemma dial_timers_step e w : dial_timers_ok w -> dial_timers_ok (step e w).
Proof.
  unfold dial_timers_ok. intros Hw. destruct e; step_cases.
  all: try exact Hw.
  all: repeat dialing_peel Hw.
  all: try exact Hw.
Qed.

Lemma dial_timers_run es : forall w, dial_timers_ok w -> dial_timers_ok (run es w).
Proof.
  induction es as [|e es IH]; intros w Hw; simpl; auto.
  apply IH. now apply dial_timers_step.
Qed.

Lemma dial_timers_init cfg t0 : dial_timers_ok (init cfg t0).
Proof. intros h d s p Hl. cbn in Hl. rewrite lookup_empty in Hl. discriminate. Qed.

(** What the dial timer does to the sockets when it comes due. *)
Lemma dial_timeout_closes w h d s p :
  timers w !! h = Some (mkTimer d (TDial s p)) -> (d <= now w)%N ->
  let w' := step (TimerFire h) w in
  ws (client w') = ws (client w) /\
  timers w' = delete h (timers w) /\
  (forall c, ws (client w) = Some c ->
             ready c w' = match ready c w with
                          | Some CONNECTING | Some OPEN => Some CLOSING
                          | r => r
                          end) /\
  (forall x, ws (client w) <> Some x -> ready x w' = ready x w).
Proof.
  intros Ht Hd. cbn [step]. rewrite Ht. cbn [due callback].
  apply N.leb_le in Hd. rewrite Hd. cbn [run_timer]. unfold on_dial_timeout.
  cbv zeta. unfold close_current, ws_close, set_ready, ready. cbn.
  destruct (ws (client w)) as [c|] eqn:Hws; cbn.
  2: { repeat split; auto. intros c [=]. }
  destruct (sockets w !! c) as [x|] eqn:Hx; cbn.
  2: { repeat split; auto. intros c' [= <-]. now rewrite Hx. }
  assert (c < length (sockets w))%nat as Hlt by (eapply lookup_lt_Some; eauto).
  destruct (readyState x) eqn:Hr; cbn; repeat split; auto.
  all: try (intros c' [= <-]; rewrite ?list_lookup_insert_eq by auto;
            rewrite ?Hx; cbn; rewrite ?Hr; reflexivity).
  all: intros y Hy; rewrite list_lookup_insert_ne by congruence; reflexivity.
Qed.

(** *** Requests and the handshake *)

(** [request] does not read [_connected]. *)
Lemma request_ignores_connected b method params tmo w :
  step (CallRequest method params tmo) (upd (set_connected b) w)
  = upd (set_connected b) (step (CallRequest method params tmo) w).
Proof.
  cbn [step]. unfold request, ws_open, ready. cbn.
  destruct (ws (client w)) as [s|]; [|reflexivity].
  destruct (sockets w !! s) as [sk|] eqn:Hs; cbn; [|reflexivity].
  destruct (readyState sk) eqn:Hr; try reflexivity.
  unfold ws_send, ready. cbn. rewrite Hs. cbn. rewrite Hr. reflexivity.
Qed.

(** After [connect()] and the [open] event the socket is open and the
    handshake has not started. *)
Lemma dialed_open cfg t0 :
  url_ok cfg = true ->
  let w := run [CallConnect; SockOpen 0] (init cfg t0) in
  ws_open w = Some 0%nat /\ _connected (client w) = false /\
  connectId (client w) = None /\ log w = [] /\ pending (client w) = [] /\
  reqCounter w = 0%N /\ now w = t0.
Proof.
  intros Hu. unfold run, init. cbn [fold_left step].
  unfold connect, _connect. cbn. rewrite Hu. cbn. repeat split.
Qed.

End GatewayFacts.

(** ** The downstream sockets *)

Module ChatFacts.
Import Chat.
Import Gateway (ReadyState, CONNECTING, OPEN, CLOSING, CLOSED).

Ltac unfold_methods :=
  repeat progress
    unfold on_open, on_message, on_close, on_error, on_ping_interval,
      on_pong_timeout, on_reconnect_timer, connect, disconnect, _connect,
      send, setReasoning, abort, fed_send, fed_abort, send_or_throw,
      send_or_skip, startHeartbeat, stopHeartbeat, scheduleReconnect,
      ws_close, ws_open, setTimer, clearTimer, emit in *.

Ltac step_cases :=
  unfold step;
  repeat (progress (unfold_methods; cbv zeta; cbn in *; break_match)).

(** Reading a socket table after an update. *)
Ltac lookup_cases H :=
  repeat first
    [ apply list_lookup_insert_Some in H as [(? & ? & ?)|(? & H)]
    | apply lookup_app_Some in H as [H|(? & H)]
    | apply list_lookup_singleton_Some in H as (? & ?) ].

Ltac finish_closing Hw :=
  first
  [ now (eapply Hw; eauto; congruence)
  | exfalso;
    match goal with
    | Hne : Some _ <> Some _ |- _ =>
        apply Hne; f_equal; rewrite ?length_insert in *; lia
    end
  | match goal with
    | H : sockets _ !! ?s = Some ?r, Hne : _ <> Some ?s |- _ =>
        let K := fresh in
        assert (K : closing r = true) by (eapply Hw; eauto);
        (discriminate K || exact K)
    end
  | match goal with
    | Hlk : sockets ?w !! ?sx = Some ?rx, Hws : ws (client ?w) = Some ?n,
      Hn : sockets ?w !! ?n = Some ?r |- closing ?rx = true =>
        destruct (decide (sx = n)) as [->|];
        [ rewrite Hn in Hlk; injection Hlk as <-; reflexivity
        | eapply Hw; eauto; congruence ]
    end ].

Lemma others_closing_nc e w :
  is_connect_call e = false -> others_closing w -> others_closing (step e w).
Proof.
  intros He Hw. destruct e; try discriminate He.
  all: step_cases; auto.
  all: intros sx rx Hlk Hne; cbn in *.
  all: lookup_cases Hlk; subst; auto.
  all: finish_closing Hw.
Qed.

Lemma others_closing__connect w : others_closing w -> others_closing (_connect w).
Proof.
  intros Hw. unfold _connect. step_cases; auto.
  all: intros sx rx Hlk Hne; cbn in *.
  all: lookup_cases Hlk; subst; auto.
  all: finish_closing Hw.
Qed.

Lemma others_closing_step e w : others_closing w -> others_closing (step e w).
Proof.
  intros Hw. destruct (is_connect_call e) eqn:He.
  - destruct e; try discriminate He. cbn [step]. unfold connect.
    apply others_closing__connect.
    pose proof (others_closing_nc CallDisconnect w eq_refl Hw) as Hd.
    cbn [step] in Hd.
    destruct (federated (config (disconnect w))); exact Hd.
  - now apply others_closing_nc.
Qed.

Lemma others_closing_run es : forall w,
  others_closing w -> others_closing (run es w).
Proof.
  induction es as [|e es IH]; intros w Hw; simpl; auto.
  apply IH. now apply others_closing_step.
Qed.

Lemma others_closing_init cfg t0 : others_closing (init cfg t0).
Proof. intros s r H. discriminate. Qed.

(** [disconnect] leaves the socket quiet. *)
Lemma disconnect_quiet w : others_closing w -> quiet (disconnect w).
Proof.
  intros Hw. unfold disconnect. step_cases.
  all: repeat split; auto.
  all: intros sx rx Hlk; cbn in *.
  all: lookup_cases Hlk; subst; auto.
  all: try finish_closing Hw.
  all: try (eapply Hw; eauto; congruence).
Qed.

(** The new entries of a log. *)
Ltac log_tail :=
  rewrite <- ?app_assoc;
  first [ exists []; rewrite app_nil_r; split; [reflexivity|]
        | eexists; split; [reflexivity|] ].

Ltac in_cases H :=
  repeat (rewrite in_app_iff in H || simpl in H);
  repeat match goal with
  | K : _ \/ _ |- _ => destruct K
  | K : False |- _ => destruct K
  end; subst.

(** In the quiet state nothing but [connect] starts anything: no frame is
    sent, no timer is set, no socket is created. *)
Lemma quiet_step e w :
  quiet w -> is_connect_call e = false ->
  quiet (step e w) /\
  nextTimer (step e w) = nextTimer w /\
  length (sockets (step e w)) = length (sockets w) /\
  exists l, log (step e w) = log w ++ l /\
            forall o, In o l -> is_sent o = false /\ is_reconnecting o = false.
Proof.
  intros (Hs & Hws & Hall) He. destruct e; try discriminate He.
  all: step_cases.
  all: try congruence.
  all: try match goal with
       | H : shouldReconnect _ && _ = true |- _ =>
           rewrite Hs in H; discriminate H
       end.
  all: repeat match goal with
       | H : sockets _ !! _ = Some ?r |- _ =>
           let K := fresh "K" in
           pose proof (Hall _ _ H) as K; try discriminate K; clear H
       end.
  all: (split; [|split; [|split]]);
         [ repeat split; auto; intros sx rx Hlk; cbn in *;
           lookup_cases Hlk; subst; eauto
         | reflexivity
         | rewrite ?length_insert; reflexivity
         | log_tail; intros ob Hob; in_cases Hob; auto ].
Qed.

Lemma quiet_run es : forall w,
  quiet w -> forallb (fun e => negb (is_connect_call e)) es = true ->
  quiet (run es w) /\
  nextTimer (run es w) = nextTimer w /\
  length (sockets (run es w)) = length (sockets w) /\
  exists l, log (run es w) = log w ++ l /\
            forall o, In o l -> is_sent o = false /\ is_reconnecting o = false.
Proof.
  induction es as [|e es IH]; intros w Hq Hes; simpl in *.
  - split; [exact Hq|]. split; [reflexivity|]. split; [reflexivity|].
    exists []. rewrite app_nil_r. split; auto. intros o [].
  - apply andb_true_iff in Hes as [He Hes]. apply negb_true_iff in He.
    destruct (quiet_step e w Hq He) as (Hq1 & Ht1 & Hl1 & l1 & E1 & H1).
    destruct (IH _ Hq1 Hes) as (Hq2 & Ht2 & Hl2 & l2 & E2 & H2).
    split; [exact Hq2|]. split; [congruence|]. split; [congruence|].
    exists (l1 ++ l2). rewrite E2, E1, <- app_assoc. split; auto.
    intros o Ho. apply in_app_iff in Ho as [Ho|Ho]; auto.
Qed.

(** With reconnection disabled nothing but [connect] creates a socket or
    announces a reconnect. *)
Lemma disabled_step e w :
  shouldReconnect (client w) = false -> is_connect_call e = false ->
  shouldReconnect (client (step e w)) = false /\
  length (sockets (step e w)) = length (sockets w) /\
  exists l, log (step e w) = log w ++ l /\
            forall o, In o l -> is_reconnecting o = false.
Proof.
  intros Hs He. destruct e; try discriminate He.
  all: step_cases.
  all: try congruence.
  all: try match goal with
       | H : shouldReconnect _ && _ = true |- _ =>
           rewrite Hs in H; discriminate H
       end.
  all: (split; [|split]);
         [ auto
         | rewrite ?length_insert; reflexivity
         | log_tail; intros ob Hob; in_cases Hob; auto ].
Qed.

Lemma disabled_run es : forall w,
  shouldReconnect (client w) = false ->
  forallb (fun e => negb (is_connect_call e)) es = true ->
  shouldReconnect (client (run es w)) = false /\
  length (sockets (run es w)) = length (sockets w) /\
  exists l, log (run es w) = log w ++ l /\
            forall o, In o l -> is_reconnecting o = false.
Proof.
  induction es as [|e es IH]; intros w Hs Hes; simpl in *.
  - split; [exact Hs|]. split; [reflexivity|].
    exists []. rewrite app_nil_r. split; auto. intros o [].
  - apply andb_true_iff in Hes as [He Hes]. apply negb_true_iff in He.
    destruct (disabled_step e w Hs He) as (Hs1 & Hl1 & l1 & E1 & H1).
    destruct (IH _ Hs1 Hes) as (Hs2 & Hl2 & l2 & E2 & H2).
    split; [exact Hs2|]. split; [congruence|].
    exists (l1 ++ l2). rewrite E2, E1, <- app_assoc. split; auto.
    intros o Ho. apply in_app_iff in Ho as [Ho|Ho]; auto.
Qed.

(** [scheduleReconnect], case by case. *)
Lemma chat_scheduleReconnect_below w :
  (reconnectAttempts (client w) < 10)%N ->
  scheduleReconnect w =
  upd (set_reconnectTimer (Some (nextTimer w)))
    (snd (setTimer KReconnect (backoff_delay (reconnectAttempts (client w)))
       (emit "reconnecting"
          (DReconnecting (reconnectAttempts (client w) + 1)
                         (backoff_delay (reconnectAttempts (client w))))
          (upd (set_reconnectAttempts (reconnectAttempts (client w) + 1)) w)))).
Proof.
  intros H. unfold scheduleReconnect, maxReconnectAttempts.
  apply N.leb_gt in H. rewrite H. reflexivity.
Qed.

Lemma chat_scheduleReconnect_exhausted w :
  (10 <= reconnectAttempts (client w))%N ->
  scheduleReconnect w =
  upd (set_shouldReconnect false) (emit "reconnect_failed" DEmpty w).
Proof.
  intros H. unfold scheduleReconnect, maxReconnectAttempts.
  apply N.leb_le in H. now rewrite H.
Qed.

(** [disconnect] cancels the timers the client holds. *)
Lemma disconnect_cancels w :
  let w1 := disconnect w in
  shouldReconnect (client w1) = false /\
  pingInterval (client w1) = None /\
  pongTimeout (client w1) = None /\
  reconnectTimer (client w1) = None /\
  forall h,
    pingInterval (client w) = Some h \/ pongTimeout (client w) = Some h \/
    reconnectTimer (client w) = Some h ->
    timers w1 !! h = None.
Proof.
  unfold disconnect. step_cases.
  all: repeat split; auto.
  all: intros hx Hx; destruct Hx as [Hx|[Hx|Hx]]; try discriminate Hx;
    try (injection Hx as <-);
    repeat (rewrite lookup_delete; case_decide; auto); congruence.
Qed.

(** The [close] listener. *)
Lemma close_not_rescheduled w s r code reason :
  sockets w !! s = Some r -> r <> CLOSED ->
  shouldReconnect (client w) = false \/ code = 1000 ->
  let w' := step (SockClose s code reason) w in
  nextTimer w' = nextTimer w /\
  reconnectTimer (client w') = reconnectTimer (client w) /\
  length (sockets w') = length (sockets w) /\
  exists l, log w' = log w ++ l /\ forall o, In o l -> is_reconnecting o = false.
Proof.
  intros Hs Hr Hor. cbn [step]. rewrite Hs.
  assert (E : shouldReconnect (client w) && negb (code =? 1000) = false).
  { destruct Hor as [-> | ->]; [reflexivity|]. cbn. apply andb_false_r. }
  destruct r; try congruence.
  all: step_cases; try congruence.
  all: repeat split; rewrite ?length_insert; auto.
  all: log_tail; intros ob Hob; in_cases Hob; auto.
Qed.

Lemma close_rescheduled w s r code reason :
  sockets w !! s = Some r -> r <> CLOSED ->
  shouldReconnect (client w) = true -> code <> 1000 ->
  (reconnectAttempts (client w) < 10) ->
  let w' := step (SockClose s code reason) w in
  reconnectTimer (client w') = Some (nextTimer w) /\
  timers w' !! nextTimer w
  = Some (mkTimer (now w + backoff_delay (reconnectAttempts (client w)))
                  KReconnect).
Proof.
  intros Hs Hr Hsr Hc Hlt. cbn [step]. rewrite Hs.
  apply N.eqb_neq in Hc.
  destruct r; try congruence.
  all: step_cases; try congruence.
  all: try (rewrite Hsr, Hc in *; discriminate).
  all: try (unfold maxReconnectAttempts in *;
            match goal with K : (10 <=? _) = true |- _ => apply N.leb_le in K end;
            lia).
  all: split; [reflexivity|apply lookup_insert_eq].
Qed.

End ChatFacts.

(** * Main theorems *)

(** ** The thinking filter: C1 and C3 *)

Section FilterClaims.
Import Filter FilterFacts.





(** C3, as stated, fails on the code: deleting the inner marker of
    ["<thi<think>nk>"] leaves ["<think>"], which a second pass deletes. *)
Lemma C3_counterexample :
  stripThinking (stripThinking (units "<thi<think>nk>"))
  <> stripThinking (units "<thi<think>nk>").
Proof. vm_compute. discriminate. Qed.

(** C3 (amended): applying [stripThinking] twice equals applying it once
    exactly when the pattern matches nowhere in the first result. *)
Theorem C3_idempotent_iff_no_tag_left :
  forall s,
    stripThinking (stripThinking s) = stripThinking s <->
    has_tag None (stripThinking s) = false.
Proof.
  intros s. split.
  - intros E. destruct (has_tag None (stripThinking s)) eqn:Ht; auto.
    apply replace_has_tag in Ht.
    pose proof (trim_length (replace_from 0 None (stripThinking s))) as Hl.
    change (trim (replace_from 0 None (stripThinking s)))
      with (stripThinking (stripThinking s)) in Hl.
    rewrite E in Hl. lia.
  - intros Ht. unfold stripThinking at 1. unfold replace_tags.
    rewrite (replace_no_tag _ _ Ht). unfold stripThinking. apply trim_idem.
Qed.

(** C3, at a concrete input. *)
Lemma C3_witness :
  stripThinking (stripThinking (units "<think>a</think>"))
  = stripThinking (units "<think>a</think>").
Proof.
  apply (proj2 (C3_idempotent_iff_no_tag_left (units "<think>a</think>"))).
  vm_compute. reflexivity.
Defined.

End FilterClaims.

(** ** Reconnection: C2 *)

(** C2: in [GatewayClient] and in the chat sockets, [scheduleReconnect] at
    attempt [n < 10] arms the reconnect timer [min(1000 * 2^n, 30000)] ms
    ahead, increments the attempt counter and announces it; with the
    attempts exhausted it only emits [reconnect_failed]: no timer is set
    and no socket is created, by this call or by later events, until
    [connect] is called again.  (The chat sockets also switch reconnection
    off; [GatewayClient.connect] resets the counter.) *)
Theorem C2_backoff_schedule :
  (forall (w : Gateway.World) (n : N),
      Gateway.reconnectAttempts (Gateway.client w) = n ->
      let w' := Gateway.scheduleReconnect w in
      (n < 10 ->
       Gateway.reconnectAttempts (Gateway.client w') = n + 1 /\
       Gateway.reconnectTimer (Gateway.client w') = Some (Gateway.nextTimer w) /\
       Gateway.timers w' !! Gateway.nextTimer w
       = Some (Gateway.mkTimer (Gateway.now w + N.min (1000 * 2 ^ n) 30000)
                               Gateway.TReconnect) /\
       Gateway.log w'
       = Gateway.log w ++
         [Gateway.Emit "reconnecting"
            (Gateway.DReconnecting (n + 1) (N.min (1000 * 2 ^ n) 30000))]) /\
      (10 <= n ->
       w' = Gateway.say (Gateway.Emit "reconnect_failed" Gateway.DEmpty) w /\
       (forall s code reason,
           let w'' := Gateway.step (Gateway.SockClose s code reason) w' in
           Gateway.nextTimer w'' = Gateway.nextTimer w /\
           length (Gateway.sockets w'') = length (Gateway.sockets w)) /\
       Gateway.reconnectAttempts (Gateway.client (Gateway.connect w')) = 0)) /\
  (forall (w : Chat.World) (n : N),
      Chat.reconnectAttempts (Chat.client w) = n ->
      let w' := Chat.scheduleReconnect w in
      (n < 10 ->
       Chat.reconnectAttempts (Chat.client w') = n + 1 /\
       Chat.reconnectTimer (Chat.client w') = Some (Chat.nextTimer w) /\
       Chat.timers w' !! Chat.nextTimer w
       = Some (Chat.mkTimer (Chat.now w + N.min (1000 * 2 ^ n) 30000)
                            Chat.KReconnect) /\
       Chat.log w'
       = Chat.log w ++
         [Chat.Emit "reconnecting"
            (Chat.DReconnecting (n + 1) (N.min (1000 * 2 ^ n) 30000))]) /\
      (10 <= n ->
       w' = Chat.upd (Chat.set_shouldReconnect false)
              (Chat.say (Chat.Emit "reconnect_failed" Chat.DEmpty) w) /\
       (forall es,
           forallb (fun e => negb (Chat.is_connect_call e)) es = true ->
           length (Chat.sockets (Chat.run es w')) = length (Chat.sockets w) /\
           Chat.shouldReconnect (Chat.client (Chat.run es w')) = false /\
           exists l, Chat.log (Chat.run es w') = Chat.log w' ++ l /\
                     forall o, In o l -> Chat.is_reconnecting o = false))).
Proof.
  split.
  - intros w n Hn w'. split.
    + intros Hlt. unfold w'.
      rewrite GatewayFacts.scheduleReconnect_below by (rewrite Hn; exact Hlt).
      rewrite Hn. cbn. unfold Gateway.backoff_delay.
      repeat split. apply lookup_insert_eq.
    + intros Hge. unfold w'.
      rewrite GatewayFacts.scheduleReconnect_exhausted
        by (rewrite Hn; exact Hge).
      split; [reflexivity|]. split.
      * intros s code reason. cbv zeta.
        apply (GatewayFacts.close_exhausted
                 (Gateway.emit "reconnect_failed" Gateway.DEmpty w)).
        cbn. now rewrite Hn.
      * unfold Gateway.connect, Gateway._connect. cbn.
        destruct (Gateway.url_ok (Gateway.config w)); reflexivity.
  - intros w n Hn w'. split.
    + intros Hlt. unfold w'.
      rewrite ChatFacts.chat_scheduleReconnect_below
        by (rewrite Hn; exact Hlt).
      rewrite Hn. cbn. unfold Chat.backoff_delay.
      repeat split. apply lookup_insert_eq.
    + intros Hge. unfold w'.
      rewrite ChatFacts.chat_scheduleReconnect_exhausted
        by (rewrite Hn; exact Hge).
      split; [reflexivity|].
      intros es Hes.
      destruct (ChatFacts.disabled_run es
                  (Chat.upd (Chat.set_shouldReconnect false)
                     (Chat.emit "reconnect_failed" Chat.DEmpty w))
                  eq_refl Hes) as (Hs & Hl & l & E & Hall).
      split; [exact Hl|]. split; [exact Hs|]. exists l. split; auto.
Qed.

(** C2, at concrete inputs: the fourth attempt of a gateway client waits
    8000 ms; a chat socket at its tenth attempt switches reconnection
    off. *)
Lemma C2_witness :
  Gateway.timers
    (Gateway.scheduleReconnect
       (Gateway.upd (Gateway.set_reconnectAttempts 3)
          (Gateway.init Gateway.example_config 0)))
    !! 1%nat
  = Some (Gateway.mkTimer 8000 Gateway.TReconnect) /\
  Chat.shouldReconnect
    (Chat.client
       (Chat.scheduleReconnect
          (Chat.upd (Chat.set_reconnectAttempts 10)
             (Chat.init Chat.example_config 0))))
  = false.
Proof.
  split.
  - apply (proj1 (proj1 C2_backoff_schedule
             (Gateway.upd (Gateway.set_reconnectAttempts 3)
                (Gateway.init Gateway.example_config 0))
             3 eq_refl)).
    lia.
  - destruct (proj2 (proj2 C2_backoff_schedule
             (Chat.upd (Chat.set_reconnectAttempts 10)
                (Chat.init Chat.example_config 0))
             10 eq_refl)) as [E _]; [lia|].
    rewrite E. reflexivity.
Defined.

(** ** The upstream client: C4 to C9 *)

Section GatewayClaims.
Import Gateway GatewayFacts.

(** C4: in every world the client can reach, when the deadline timer of a
    request comes due while its slot is still pending, the request is
    rejected with [ERequestTimeout] ('Request timeout') and the slot is
    removed; from then on a response carrying that identifier is discarded
    without any effect, whatever has happened in between (the module
    counter staying in the range where a JavaScript number counts
    exactly).  Issuing a request on an open socket registers the slot under
    a new identifier, arms the deadline [timeoutMs] ahead (30000 by
    default) and sends the frame. *)
Theorem C4_request_timeout :
  forall cfg t0 es0 h id d,
    let w := run es0 (init cfg t0) in
    timers w !! h = Some (mkTimer d (TRequest id)) ->
    d <= now w ->
    pending_has id (pending (client w)) = true ->
    let w1 := step (TimerFire h) w in
    (log w1 = log w ++ [RequestRejected id ERequestTimeout] /\
     pending_has id (pending (client w1)) = false) /\
    (forall es s okf err payload,
        let w2 := run es w1 in
        reqCounter w2 < 2 ^ 53 ->
        step (SockMessage s (InRes (Some id) okf err payload)) w2 = w2) /\
    (forall w' method params tmo s,
        ws_open w' = Some s ->
        let id' := mk_id (js_succ (reqCounter w')) (now w') in
        let w'' := step (CallRequest method params tmo) w' in
        pending_get id' (pending (client w'')) = Some (nextTimer w') /\
        timers w'' !! nextTimer w' =
          Some (mkTimer (now w' + default 30000 tmo) (TRequest id')) /\
        log w'' = log w' ++ [Sent s (mkFrame "req" id' method (PJson params))]).
Proof.
  intros cfg t0 es0 h id d w Ht Hd Hp w1.
  destruct (request_timeout_fires w h id d Ht Hd Hp)
    as (Hlog & Hp1 & _ & Hc1 & Hr1).
  change (step (TimerFire h) w) with w1 in Hlog, Hp1, Hc1, Hr1.
  split; [split; assumption|]. split.
  - intros es s okf err payload w2 Hlt.
    assert (Hmono : reqCounter w1 <= reqCounter w2) by apply run_counter_mono.
    assert (Hok : ids_ok w).
    { apply ids_ok_run; [apply ids_ok_init|].
      change (reqCounter w < 2 ^ 53).
      revert Hr1 Hmono Hlt.
      generalize (reqCounter w) (reqCounter w1) (reqCounter w2). lia. }
    assert (Hret : retired id w1).
    { destruct Hok as [Hall Hcid]. split; [|split]; auto.
      - assert (Hin : In id (pending_ids w)).
        { destruct (in_dec String.string_dec id (pending_ids w)) as [|Hn];
            auto.
          apply pending_has_false in Hn. congruence. }
        eapply List.Forall_forall in Hall; eauto.
        apply (issued_mono w w1); [|exact Hall].
        revert Hr1. generalize (reqCounter w) (reqCounter w1). lia.
      - rewrite Hc1. intros E. destruct (Hcid _ E) as [_ Hn].
        apply pending_has_false in Hn. congruence. }
    destruct (retired_run id es w1 Hret Hlt) as (_ & Hp2 & Hc2).
    now apply late_response_discarded.
  - intros. now apply request_registers.
Qed.

(** C4, at a concrete input: the request ["r1_0"] times out after 30 s and
    its response, arriving 5 ms later, changes nothing. *)
Lemma C4_witness :
  log (step (TimerFire 2) (run example_request_due (init example_config 0)))
  = log (run example_request_due (init example_config 0))
    ++ [RequestRejected "r1_0" ERequestTimeout] /\
  step (SockMessage 0 (InRes (Some "r1_0"%string) false None "{}"))
       (run [Elapse 5]
          (step (TimerFire 2)
             (run example_request_due (init example_config 0))))
  = run [Elapse 5]
      (step (TimerFire 2) (run example_request_due (init example_config 0))).
Proof.
  destruct (C4_request_timeout example_config 0
              example_request_due 2%nat "r1_0"%string 30000)
    as ((H1 & _) & H2 & _).
  - vm_compute. reflexivity.
  - vm_compute. discriminate.
  - vm_compute. reflexivity.
  - split; [exact H1|]. apply (H2 [Elapse 5]). vm_compute. reflexivity.
Defined.

(** C5: in every world the client can reach, the [close] event of a
    socket rejects every pending request with [EConnectionClosed]
    ('Connection closed: ...') and leaves the pending map empty; if the
    client was connected and reconnection is enabled, [scheduleReconnect]
    arms the reconnect timer (1000 ms ahead, first attempt). *)
Theorem C5_close_fails_pending :
  forall cfg t0 es s sk code reason,
    let w := run es (init cfg t0) in
    sockets w !! s = Some sk ->
    readyState sk <> CLOSED ->
    let w' := step (SockClose s code reason) w in
    pending (client w') = [] /\
    (exists l, log w' = log w ++ l /\
       forall id, In id (pending_ids w) ->
                  In (RequestRejected id (EConnectionClosed code reason)) l) /\
    (_connected (client w) = true -> shouldReconnect (client w) = true ->
     backoff_scheduled w' /\
     timers w' !! nextTimer w = Some (mkTimer (now w + 1000) TReconnect) /\
     reconnectTimer (client w') = Some (nextTimer w) /\
     reconnectAttempts (client w') = 1).
Proof.
  intros cfg t0 es s sk code reason w Hs Hr w'.
  assert (Hfresh : _connected (client w) = true ->
                   reconnectAttempts (client w) = 0).
  { apply connected_fresh_run. discriminate. }
  assert (E : w' = on_close sk code reason (set_ready s CLOSED w)).
  { unfold w'. cbn [step]. rewrite Hs. destruct (readyState sk); congruence. }
  clearbody w'. subst w'. clearbody w.
  unfold on_close, reject_connect, set_ready, clearTimeout, emit.
  rewrite Hs. cbv zeta. cbn.
  destruct (connectPromise (client w)) eqn:Hcp; cbn;
    rewrite ?flushPending_eq; cbn;
    destruct (_connected (client w)) eqn:Hc;
    destruct (shouldReconnect (client w)) eqn:Hsr; cbn;
    rewrite ?scheduleReconnect_below by (cbn; rewrite Hfresh by reflexivity; lia);
    cbn.
  all: split; [reflexivity|split].
  all: try (intros; discriminate).
  all: try (rewrite <- ?app_assoc; eexists; split; [reflexivity|];
            intros id Hid; rewrite ?in_app_iff; simpl;
            apply in_map_iff in Hid as (p & <- & Hp);
            repeat first [ left; apply in_map_iff; now exists p
                         | right ]).
  all: intros _ _; rewrite Hfresh by reflexivity.
  all: repeat split; try apply lookup_insert_eq.
  all: eexists _, _; cbn; repeat split; try apply lookup_insert_eq; reflexivity.
Qed.

(** C5, at a concrete input: a connected client with one pending request
    loses its socket. *)
Lemma C5_witness :
  pending
    (client (step (SockClose 0 1006 "")
                  (run example_connected (init example_config 0)))) = [] /\
  backoff_scheduled
    (step (SockClose 0 1006 "")
          (run example_connected (init example_config 0))).
Proof.
  pose proof (C5_close_fails_pending example_config 0
           example_connected 0%nat (mkSocket OPEN 1 0) 1006 "" eq_refl) as H.
  destruct H as (H1 & _ & H3); [discriminate|].
  split; [exact H1|]. apply H3; reflexivity.
Defined.

(** C6, as stated, fails on the code: [request] tests the socket, not the
    handshake.  Between the [open] event and the response to [connect] the
    client is not connected, and a request is registered and sent. *)
Lemma C6_counterexample :
  ~ (forall cfg t0 es method params tmo,
       let w := run es (init cfg t0) in
       _connected (client w) = false ->
       let w' := step (CallRequest method params tmo) w in
       pending (client w') = pending (client w) /\
       log w' = log w ++ [RequestThrew ENotConnected]).
Proof.
  intros H.
  specialize (H example_config 0 example_dialed "status"%string "{}"%string
                None eq_refl).
  destruct H as [H _]. vm_compute in H. discriminate H.
Qed.

(** C6 (amended): a request issued while the client has no socket, or a
    socket that is not open, fails at once with [ENotConnected] ('Not
    connected'): nothing else changes, so no frame is sent, no identifier
    is taken and no slot is registered; and this is the only case in which
    it fails so.  On an open socket the request takes an identifier, arms
    its deadline, registers its slot and sends its frame, whatever
    [_connected] is: [request] does not read that field, and right after
    [connect()] and the [open] event, with no challenge received and no
    handshake started, a request is registered and sent.  [ChatSocket.send]
    has the same guard on the socket, with its own error. *)
Theorem C6_request_needs_open_socket :
  (forall w method params tmo,
      ws_open w = None ->
      step (CallRequest method params tmo) w
      = say (RequestThrew ENotConnected) w) /\
  (forall w k m a,
      Chat.ws_open w = None ->
      Chat.step (Chat.CallSend k m a) w = Chat.say Chat.Threw w) /\
  (forall w method params tmo s,
      ws_open w = Some s ->
      let id := mk_id (js_succ (reqCounter w)) (now w) in
      let w' := step (CallRequest method params tmo) w in
      pending_get id (pending (client w')) = Some (nextTimer w) /\
      timers w' !! nextTimer w
      = Some (mkTimer (now w + default 30000%N tmo) (TRequest id)) /\
      log w' = log w ++ [Sent s (mkFrame "req" id method (PJson params))]) /\
  (forall w method params tmo b,
      step (CallRequest method params tmo) (upd (set_connected b) w)
      = upd (set_connected b) (step (CallRequest method params tmo) w)) /\
  (forall cfg t0 method params tmo,
      url_ok cfg = true ->
      let w := run [CallConnect; SockOpen 0] (init cfg t0) in
      let w' := step (CallRequest method params tmo) w in
      _connected (client w) = false /\ connectId (client w) = None /\
      log w = [] /\
      pending_ids w' = [mk_id 1 t0] /\
      log w' = [Sent 0 (mkFrame "req" (mk_id 1 t0) method (PJson params))]) /\
  (forall w method params tmo,
      let w' := step (CallRequest method params tmo) w in
      (ws_open w = None <-> log w' = log w ++ [RequestThrew ENotConnected]) /\
      (ws_open w = None <->
       List.filter is_sent (log w') = List.filter is_sent (log w))) /\
  (forall w k m a s,
      Chat.ws_open w = Some s ->
      Chat.step (Chat.CallSend k m a) w
      = Chat.say (Chat.Sent s (Chat.ChatMsg k m a)) w).
Proof.
  split; [|split; [|split; [|split; [|split; [|split]]]]].
  - intros w method params tmo H. cbn [step]. unfold request. now rewrite H.
  - intros w k m a H. cbn [Chat.step]. unfold Chat.send, Chat.send_or_throw.
    now rewrite H.
  - intros w method params tmo s H. now apply request_registers.
  - intros w method params tmo b. apply request_ignores_connected.
  - intros cfg t0 method params tmo Hu w w'.
    destruct (dialed_open cfg t0 Hu) as (Ho & Hc & Hi & Hl & Hp & Hr & Hn).
    cbv zeta in Ho, Hc, Hi, Hl, Hp, Hr, Hn. fold w in Ho, Hc, Hi, Hl, Hp, Hr, Hn.
    destruct (request_registers w method params tmo 0%nat Ho) as (_ & _ & E).
    cbv zeta in E. fold w' in E. rewrite Hl, Hr, Hn in E.
    repeat split; auto.
    subst w'. unfold pending_ids. cbn [step]. unfold request. rewrite Ho.
    unfold nextId, setTimeout, ws_send. cbv zeta.
    destruct (ready _ _) as [[]|]; cbn [fst snd client pending upd set_pending
      set_nextTimer set_timers set_reqCounter say];
      rewrite Hp, Hr, Hn; reflexivity.
  - intros w method params tmo w'. subst w'.
    destruct (ws_open w) as [s|] eqn:Ho.
    + destruct (request_registers w method params tmo s Ho) as (_ & _ & E).
      cbv zeta in E. rewrite E. split; split; try discriminate.
      * intros K. apply app_inv_head in K. discriminate K.
      * rewrite List.filter_app. cbn. intros K.
        apply (f_equal (@length _)) in K. rewrite length_app in K.
        simpl in K. lia.
    + cbn [step]. unfold request. rewrite Ho. cbn. split; split; auto.
      intros _. rewrite List.filter_app. cbn. apply app_nil_r.
  - intros w k m a s H. cbn [Chat.step]. unfold Chat.send, Chat.send_or_throw.
    now rewrite H.
Qed.

(** C6, at a concrete input: a request on a client that never dialed. *)
Lemma C6_witness :
  step (CallRequest "status" "{}" None) (init example_config 0)
  = say (RequestThrew ENotConnected) (init example_config 0).
Proof.
  apply (proj1 C6_request_needs_open_socket). reflexivity.
Defined.




(** C8: two calls of [nextId], whatever the client does in between
    (reconnects included), return different identifiers, the second
    carrying a strictly larger counter, as long as the module counter is
    below 2^53, where a JavaScript number counts exactly; and in every
    world the client can reach the next identifier is neither the key of a
    pending slot nor the identifier of the handshake. *)
Theorem C8_ids_distinct :
  forall w es id1 w1 id2 w2,
    nextId w = (id1, w1) ->
    nextId (run es w1) = (id2, w2) ->
    reqCounter (run es w1) < 2 ^ 53 ->
    id1 <> id2 /\
    reqCounter w1 < reqCounter w2 /\
    id1 = mk_id (reqCounter w1) (now w) /\
    id2 = mk_id (reqCounter w2) (now (run es w1)) /\
    (forall cfg t0 es0 t,
        let v := run es0 (init cfg t0) in
        reqCounter v < 2 ^ 53 ->
        ~ In (mk_id (js_succ (reqCounter v)) t) (pending_ids v) /\
        connectId (client v) <> Some (mk_id (js_succ (reqCounter v)) t)).
Proof.
  intros w es id1 w1 id2 w2 H1 H2 Hlt.
  unfold nextId in H1, H2. injection H1 as <- <-. injection H2 as <- <-.
  cbn [reqCounter set_reqCounter] in *.
  pose proof (run_counter_mono es (set_reqCounter (js_succ (reqCounter w)) w))
    as Hmono.
  cbn [reqCounter set_reqCounter] in Hmono.
  set (c1 := js_succ (reqCounter w)) in *.
  set (c := reqCounter (run es (set_reqCounter c1 w))) in *.
  assert (Hc : js_succ c = c + 1) by now apply js_succ_lt.
  split; [|split; [|split; [|split]]]; auto.
  - intros E. apply mk_id_counter in E. lia.
  - lia.
  - intros cfg t0 es0 t Hv. set (v := run es0 (init cfg t0)) in *.
    assert (Hok : ids_ok v) by (apply ids_ok_run; auto using ids_ok_init).
    destruct Hok as [Hall Hcid].
    assert (Hfr : forall id, issued v id -> id <> mk_id (js_succ (reqCounter v)) t).
    { intros id (c' & t' & -> & Hc') E. apply mk_id_counter in E.
      rewrite (js_succ_lt _ Hv) in E. lia. }
    split.
    + intros Hin. eapply List.Forall_forall in Hall; eauto.
      now apply (Hfr _ Hall).
    + intros E. destruct (Hcid _ E) as [Hi _]. now apply (Hfr _ Hi).
Qed.

(** C8, at a concrete input: an identifier taken before a disconnect and
    one taken after the reconnect, 7 ms later. *)
Lemma C8_witness :
  "r1_0"%string <> "r2_7"%string.
Proof.
  apply (C8_ids_distinct (init example_config 0)
           example_reconnect
           "r1_0"%string (set_reqCounter 1 (init example_config 0))
           "r2_7"%string
           (set_reqCounter 2
              (run example_reconnect
                   (set_reqCounter 1 (init example_config 0))))).
  - reflexivity.
  - reflexivity.
  - vm_compute. reflexivity.
Defined.

(** C9: answering [connect.challenge] on an open socket, the client
    sends one [connect] request with role ["operator"], the five operator
    scopes and protocol range 3 to 3; its [auth] is absent when neither
    the token nor the password is a non-empty string, and otherwise holds
    exactly those of the two that are. *)
Theorem C9_connect_request :
  forall w s0 s payload,
    ready s0 w = Some OPEN ->
    ws_open w = Some s ->
    let w' := step (SockMessage s0 (InEvent "connect.challenge" payload)) w in
    exists id p,
      log w' = log w ++ [Sent s (mkFrame "req" id "connect" (PConnect p))] /\
      connectId (client w') = Some id /\
      role p = "operator"%string /\
      scopes p = ["operator.read"; "operator.write"; "operator.admin";
                  "operator.approvals"; "operator.pairing"]%string /\
      minProtocol p = 3%Z /\ maxProtocol p = 3%Z /\
      (truthy (token (config w)) = false ->
       truthy (password (config w)) = false -> auth p = None) /\
      (truthy (token (config w)) || truthy (password (config w)) = true ->
       auth p = Some (mkAuth
                        (if truthy (token (config w)) then token (config w)
                         else None)
                        (if truthy (password (config w)) then password (config w)
                         else None))).
Proof.
  intros w s0 s payload H0 Hs w'. unfold w'. cbn [step]. rewrite H0.
  cbn [handleMessage]. cbn [String.eqb Ascii.eqb Bool.eqb].
  unfold ws_open in Hs.
  destruct (ws (client w)) as [s'|] eqn:Hws; [|discriminate].
  destruct (ready s' w) as [[]|] eqn:Hr; try discriminate.
  injection Hs as ->.
  unfold sendConnect, nextId, ws_send, ready in *. cbn. rewrite Hws. cbn.
  rewrite Hr. cbn.
  eexists _, _. split; [reflexivity|]. cbn.
  repeat split.
  - intros Ht Hp. unfold connect_auth. cbn. now rewrite Ht, Hp.
  - intros Hor. unfold connect_auth. cbn.
    destruct (truthy (token (config w))) eqn:Et;
      destruct (truthy (password (config w))) eqn:Ep; try discriminate.
    + destruct (token (config w)), (password (config w)); try discriminate;
        reflexivity.
    + destruct (token (config w)); try discriminate; reflexivity.
    + destruct (password (config w)); try discriminate; reflexivity.
Qed.

(** C9, at a concrete input: a gateway configured with a token only. *)
Lemma C9_witness :
  exists id p,
    log (step (SockMessage 0 (InEvent "connect.challenge" "{}"))
              (run example_dialed (init example_config 0)))
    = log (run example_dialed (init example_config 0))
      ++ [Sent 0 (mkFrame "req" id "connect" (PConnect p))] /\
    auth p = Some (mkAuth (Some "secret"%string) None).
Proof.
  destruct (C9_connect_request
              (run example_dialed (init example_config 0))
              0%nat 0%nat "{}"%string eq_refl eq_refl)
    as (id & p & Hlog & _ & _ & _ & _ & _ & _ & Hauth).
  exists id, p. split; [exact Hlog|]. apply Hauth. reflexivity.
Defined.

End GatewayClaims.

(** ** The downstream sockets: C10 *)

Section ChatClaims.
Import Chat ChatFacts.
Import Gateway (ReadyState, CONNECTING, OPEN, CLOSING, CLOSED).

(** C10: for both chat sockets, the [close] listener schedules a
    reconnect only when reconnection is enabled and the code is not 1000
    (and then it does, while attempts remain); [disconnect] disables
    reconnection and cancels the heartbeat and reconnect timers, and from
    then on, until [connect] is called, whatever happens no frame is sent,
    no timer is set, no socket is created and no reconnect is announced. *)
Theorem C10_reconnect_only_when_enabled :
  (forall w s r code reason,
      sockets w !! s = Some r -> r <> CLOSED ->
      let w' := step (SockClose s code reason) w in
      (shouldReconnect (client w) = false \/ code = 1000 ->
       nextTimer w' = nextTimer w /\
       reconnectTimer (client w') = reconnectTimer (client w) /\
       length (sockets w') = length (sockets w) /\
       exists l, log w' = log w ++ l /\
                 forall o, In o l -> is_reconnecting o = false) /\
      (shouldReconnect (client w) = true -> code <> 1000 ->
       reconnectAttempts (client w) < 10 ->
       reconnectTimer (client w') = Some (nextTimer w) /\
       timers w' !! nextTimer w
       = Some (mkTimer (now w + backoff_delay (reconnectAttempts (client w)))
                       KReconnect))) /\
  (forall cfg t0 es0 es,
      forallb (fun e => negb (is_connect_call e)) es = true ->
      let w := run es0 (init cfg t0) in
      let w1 := disconnect w in
      let w2 := run es w1 in
      (shouldReconnect (client w1) = false /\
       pingInterval (client w1) = None /\
       pongTimeout (client w1) = None /\
       reconnectTimer (client w1) = None /\
       forall h,
         pingInterval (client w) = Some h \/ pongTimeout (client w) = Some h \/
         reconnectTimer (client w) = Some h ->
         timers w1 !! h = None) /\
      shouldReconnect (client w2) = false /\
      ws (client w2) = None /\
      nextTimer w2 = nextTimer w1 /\
      length (sockets w2) = length (sockets w1) /\
      exists l, log w2 = log w1 ++ l /\
                forall o, In o l -> is_sent o = false /\ is_reconnecting o = false).
Proof.
  split.
  - intros w s r code reason Hs Hr w'. split.
    + intros Hor. now apply (close_not_rescheduled w s r code reason).
    + intros Hsr Hc Hlt. now apply (close_rescheduled w s r code reason).
  - intros cfg t0 es0 es Hes w w1 w2.
    split; [apply disconnect_cancels|].
    assert (Hq : quiet w1).
    { apply disconnect_quiet, others_closing_run, others_closing_init. }
    destruct (quiet_run es w1 Hq Hes) as ((Hs2 & Hws2 & _) & Ht & Hl & Hlog).
    auto.
Qed.

(** C10, at a concrete input: events arriving after a [disconnect]. *)
Lemma C10_witness :
  ws (client (run example_aftermath
                  (disconnect (run example_session (init example_config 0))))) = None.
Proof.
  apply (proj2 C10_reconnect_only_when_enabled example_config 0 example_session
           example_aftermath).
  reflexivity.
Defined.

End ChatClaims.

(** * Further properties *)

(** ** Lemmas *)

Module FilterMoreFacts.
Import Filter FilterFacts.

Lemma trim_start_head c rest :
  trim_start (c :: rest) = c :: rest -> is_white_space c = false.
Proof.
  cbn. destruct (is_white_space c); auto. intros E.
  pose proof (trim_start_length rest) as H. rewrite E in H. cbn in H. lia.
Qed.

Lemma trim_head s c rest : trim s = c :: rest -> is_white_space c = false.
Proof.
  intros E. apply (trim_start_head c rest).
  rewrite <- E. unfold trim. apply trim_start_trimmed.
Qed.

Lemma trim_last s c front : trim s = front ++ [c] -> is_white_space c = false.
Proof.
  intros E. apply (trim_start_head c (rev front)).
  pose proof (trim_end_idem (trim_start s)) as H. fold (trim s) in H.
  rewrite E in H. unfold trim_end in H.
  apply (f_equal (@rev N)) in H. rewrite rev_involutive in H.
  rewrite rev_app_distr in H. exact H.
Qed.

Lemma no_lt_no_tag s : forall prev,
  forallb (fun c => negb (c =? unit_of "<")) s = true -> has_tag prev s = false.
Proof.
  induction s as [|c s IH]; intros prev H; cbn [has_tag forallb] in *; auto.
  apply andb_true_iff in H as [Hc H]. apply negb_true_iff in Hc.
  rewrite (match_at_not_lt _ _ _ Hc). auto.
Qed.
End FilterMoreFacts.

Module GatewayInvFacts.
Import Gateway GatewayFacts GatewayInv.

Lemma forallb_rejected (f : Obs -> bool) e (l : list (string * nat)) :
  (forall id, f (RequestRejected id e) = true) ->
  forallb f (List.map (fun p => RequestRejected (fst p) e) l) = true.
Proof. intros H. induction l; simpl; auto. rewrite H. auto. Qed.

(** The new entries of the log after one turn. *)
Ltac log_tail :=
  rewrite <- ?app_assoc;
  first [ exists []; rewrite app_nil_r; split; [reflexivity|]
        | eexists; split; [reflexivity|] ].

Lemma first_attempt_step e w :
  (_connected (client w) = true -> reconnectAttempts (client w) = 0%N) ->
  (reconnectAttempts (client w) <= 1)%N ->
  exists l, log (step e w) = log w ++ l /\ forallb first_attempt_only l = true.
Proof.
  intros Hc Ha. destruct e; step_cases.
  all: log_tail.
  all: rewrite ?forallb_app; cbn; rewrite ?forallb_rejected by reflexivity;
    try reflexivity.
  all: try match goal with
       | H : (maxReconnectAttempts <=? _)%N = true |- _ =>
           apply N.leb_le in H; unfold maxReconnectAttempts in H; lia
       end.
  all: match goal with
       | H : _connected _ && _ = true |- _ =>
           rewrite Hc by (apply andb_true_iff in H; tauto)
       end; reflexivity.
Qed.

Lemma first_attempt_run es : forall w,
  (_connected (client w) = true -> reconnectAttempts (client w) = 0%N) ->
  (reconnectAttempts (client w) <= 1)%N ->
  exists l, log (run es w) = log w ++ l /\ forallb first_attempt_only l = true.
Proof.
  induction es as [|e es IH]; intros w Hc Ha; simpl.
  - exists []. now rewrite app_nil_r.
  - destruct (first_attempt_step e w Hc Ha) as (l1 & E1 & H1).
    destruct (IH (step e w)) as (l2 & E2 & H2).
    + now apply connected_fresh_step.
    + now apply attempts_step.
    + exists (l1 ++ l2). rewrite E2, E1, <- app_assoc. split; auto.
      rewrite forallb_app, H1, H2. reflexivity.
Qed.

Lemma fold_delete_none (l : list (string * nat)) : forall (m : gmap nat Timer) h,
  (m !! h = None \/ In h (List.map snd l)) ->
  fold_left (fun m (p : string * nat) => delete (snd p) m) l m !! h = None.
Proof.
  induction l as [|[k v] l IH]; intros m h [H|H]; simpl in *; auto.
  - destruct H.
  - apply IH. left. rewrite lookup_delete. case_decide; auto.
  - destruct H as [->|H].
    + apply IH. left. apply lookup_delete_eq.
    + apply IH. now right.
Qed.

(** The close event of a client that is not connected schedules nothing. *)
Lemma close_idle v s code reason :
  _connected (client v) = false ->
  nextTimer (step (SockClose s code reason) v) = nextTimer v /\
  reconnectTimer (client (step (SockClose s code reason) v))
  = reconnectTimer (client v).
Proof.
  intros Hv. step_cases; auto.
  all: rewrite Hv in *; discriminate.
Qed.

Lemma disconnect_fields w :
  pending (client (disconnect w)) = [] /\
  ws (client (disconnect w)) = None /\
  _connected (client (disconnect w)) = false /\
  shouldReconnect (client (disconnect w)) = false /\
  reconnectTimer (client (disconnect w)) = None /\
  connectPromise (client (disconnect w)) = None /\
  nextTimer (disconnect w) = nextTimer w.
Proof. unfold disconnect. step_cases; repeat split; auto. Qed.

Lemma settled_count_app id l1 l2 :
  settled_count id (l1 ++ l2) = (settled_count id l1 + settled_count id l2)%nat.
Proof. unfold settled_count. now rewrite List.filter_app, List.length_app. Qed.

Lemma pending_has_in id l :
  pending_has id l = true <-> In id (List.map fst l).
Proof.
  destruct (pending_has id l) eqn:E.
  - split; auto. intros _.
    destruct (in_dec string_dec id (List.map fst l)) as [H|H]; auto.
    apply pending_has_false in H. congruence.
  - apply pending_has_false in E. split; [discriminate|tauto].
Qed.

Lemma pending_has_deleted i id l :
  pending_has id (pending_delete i l)
  = negb (String.eqb i id) && pending_has id l.
Proof.
  unfold pending_has, pending_delete.
  induction l as [|[k v] l IH]; simpl.
  - now rewrite andb_false_r.
  - destruct (String.eqb_spec k i) as [->|Hne]; simpl.
    + rewrite IH. destruct (String.eqb_spec i id); simpl; auto.
    + rewrite IH. destruct (String.eqb_spec k id) as [->|]; simpl.
      * destruct (String.eqb_spec i id); [congruence|reflexivity].
      * reflexivity.
Qed.

Lemma pending_get_has id l h : pending_get id l = Some h -> pending_has id l = true.
Proof.
  intros H. destruct (pending_has id l) eqn:E; auto.
  rewrite (pending_get_none _ _ E) in H. discriminate.
Qed.

Lemma pending_delete_nodup i l :
  List.NoDup (List.map fst l) -> List.NoDup (List.map fst (pending_delete i l)).
Proof.
  unfold pending_delete. induction l as [|[k v] l IH]; simpl; intros H; auto.
  apply List.NoDup_cons_iff in H as [Hk H].
  destruct (String.eqb k i); simpl; auto.
  apply List.NoDup_cons_iff. split; auto.
  intros Hin. apply Hk. apply in_map_iff in Hin as (p & E & Hp).
  apply filter_In in Hp as [Hp _]. apply in_map_iff. eauto.
Qed.

Lemma pending_set_in i h l x :
  In x (List.map fst (pending_set i h l)) <-> x = i \/ In x (List.map fst l).
Proof.
  induction l as [|[k v] l IH]; simpl.
  - intuition.
  - destruct (String.eqb_spec k i) as [->|Hne]; simpl.
    + intuition.
    + rewrite IH. intuition.
Qed.

Lemma pending_set_nodup i h l :
  List.NoDup (List.map fst l) -> List.NoDup (List.map fst (pending_set i h l)).
Proof.
  induction l as [|[k v] l IH]; simpl; intros H.
  - apply List.NoDup_cons_iff. split; [intros []|constructor].
  - apply List.NoDup_cons_iff in H as [Hk H].
    destruct (String.eqb_spec k i) as [->|Hne]; simpl.
    + apply List.NoDup_cons_iff. auto.
    + apply List.NoDup_cons_iff. split; auto.
      rewrite pending_set_in. intros [->|Hin]; auto.
Qed.

Lemma pending_has_set i h id l :
  pending_has id (pending_set i h l) = String.eqb i id || pending_has id l.
Proof.
  unfold pending_has. induction l as [|[k v] l IH]; simpl.
  - now rewrite orb_false_r.
  - destruct (String.eqb_spec k i) as [->|Hne]; simpl.
    + destruct (String.eqb i id); reflexivity.
    + rewrite IH. destruct (String.eqb k id), (String.eqb i id); reflexivity.
Qed.

(** Flushing settles every pending request once. *)
Lemma settled_count_flush id e (l : list (string * nat)) :
  List.NoDup (List.map fst l) ->
  settled_count id (List.map (fun p => RequestRejected (fst p) e) l)
  = if pending_has id l then 1%nat else 0%nat.
Proof.
  unfold settled_count, pending_has.
  induction l as [|[k v] l IH]; simpl; intros H; auto.
  apply List.NoDup_cons_iff in H as [Hk H]. specialize (IH H).
  destruct (String.eqb_spec k id) as [->|Hne]; simpl.
  - rewrite IH.
    assert (E : existsb (fun e0 : string * nat => String.eqb (fst e0) id) l = false).
    { apply pending_has_false. exact Hk. }
    now rewrite E.
  - exact IH.
Qed.

Section SettleStep.

Ltac bool_cases :=
  repeat match goal with
  | |- context [pending_has ?a []] => change (pending_has a []) with false
  end;
  repeat match goal with
  | |- context [String.eqb ?a ?b] => destruct (String.eqb_spec a b); subst
  | |- context [pending_has ?a ?b] => destruct (pending_has a b) eqn:?
  end; cbn in *; try congruence; try reflexivity.

#[local] Arguments pending_has : simpl never.

(** One turn settles exactly the requests that it takes out of the
    pending map. *)
Lemma settle_step e w :
  List.NoDup (pending_ids w) ->
  List.NoDup (pending_ids (step e w)) /\
  exists l, log (step e w) = log w ++ l /\
            forall id,
              settled_count id l
              = if pending_has id (pending (client w))
                   && negb (pending_has id (pending (client (step e w))))
                then 1%nat else 0%nat.
Proof.
  unfold pending_ids. intros Hnd. destruct e; step_cases.
  all: split;
    [ first [ exact Hnd | constructor | now apply pending_delete_nodup
            | now apply pending_set_nodup ] | ].
  all: log_tail; intros qid.
  all: rewrite ?settled_count_app, ?settled_count_flush by assumption.
  all: rewrite ?pending_has_deleted, ?pending_has_set.
  all: unfold settled_count; cbn.
  all: repeat match goal with
       | H : pending_get _ _ = Some _ |- _ => apply pending_get_has in H
       end.
  all: bool_cases.
Qed.

End SettleStep.

Lemma settled_ok_init cfg t0 : settled_ok (init cfg t0).
Proof.
  split; [constructor|]. split; [apply ids_ok_init|].
  intros id. cbn. repeat split; auto; lia.
Qed.

Lemma new_pending e w id :
  pending_has id (pending (client (step e w))) = true ->
  pending_has id (pending (client w)) = true \/
  id = mk_id (js_succ (reqCounter w)) (now w) /\
  reqCounter (step e w) = js_succ (reqCounter w).
Proof.
  intros H. apply pending_has_in in H. fold (pending_ids (step e w)) in H.
  destruct (step_ids e w) as [E Hin _|E Hin _|E Hin _].
  - left. apply pending_has_in. now apply Hin.
  - left. apply pending_has_in. fold (pending_ids w). now rewrite <- Hin.
  - apply Hin in H as [<-|H]; [right; auto|left; now apply pending_has_in].
Qed.

Lemma settled_ok_step e w :
  settled_ok w -> (reqCounter (step e w) < 2 ^ 53)%N -> settled_ok (step e w).
Proof.
  intros (Hnd & Hids & Hall) Hlt.
  destruct (settle_step e w Hnd) as (Hnd' & l & El & Hl).
  pose proof (step_counter_mono e w) as Hmono.
  split; [exact Hnd'|]. split; [now apply ids_ok_step|].
  intros id. destruct (Hall id) as (H1 & H2 & H3).
  rewrite El, settled_count_app, (Hl id).
  destruct (pending_has id (pending (client w))) eqn:Hp.
  - specialize (H2 eq_refl). rewrite H2.
    assert (Hi : issued (step e w) id).
    { apply (issued_mono w); auto. destruct Hids as [Hf _].
      eapply List.Forall_forall in Hf; eauto.
      now apply pending_has_in in Hp. }
    destruct (pending_has id (pending (client (step e w)))); cbn;
      repeat split; auto; try lia; discriminate.
  - cbn [andb]. rewrite Nat.add_0_r. split; [exact H1|]. split.
    + intros Hp'. apply new_pending in Hp' as [Hp'|[-> E]]; [congruence|].
      destruct (settled_count _ (log w)) eqn:Ec; auto.
      exfalso. assert (Hi : issued w (mk_id (js_succ (reqCounter w)) (now w))).
      { apply H3. lia. }
      eapply issued_fresh; eauto. now rewrite <- E.
    + intros Hc. apply (issued_mono w); auto.
Qed.

Lemma settled_ok_run es : forall w,
  settled_ok w -> (reqCounter (run es w) < 2 ^ 53)%N -> settled_ok (run es w).
Proof.
  induction es as [|e es IH]; intros w Hw Hlt; simpl in *; auto.
  apply IH; auto. apply settled_ok_step; auto.
  pose proof (run_counter_mono es (step e w)). lia.
Qed.

Lemma pending_get_in i l h : pending_get i l = Some h -> In (i, h) l.
Proof.
  unfold pending_get. destruct (List.find _ l) as [[k v]|] eqn:E; [|discriminate].
  intros [= <-]. apply find_some in E as [Hin Hk]. cbn in Hk.
  apply String.eqb_eq in Hk. now subst.
Qed.

Lemma pending_set_entry i h0 l id h :
  In (id, h) (pending_set i h0 l) ->
  (id = i /\ h = h0) \/ In (id, h) l.
Proof.
  induction l as [|[k v] l IH]; simpl.
  - intros [[= <- <-]|[]]. auto.
  - destruct (String.eqb_spec k i) as [->|Hne]; simpl.
    + intros [[= <- <-]|H]; auto.
    + intros [H|H]; auto. apply IH in H as [H|H]; auto.
Qed.

Section Armed.
Variables (p : list (string * nat)) (tm : gmap nat Timer) (nt : nat)
          (sk : list Socket).
Hypothesis H : armed p tm nt sk.

(** Removing a timer that is no pending request's deadline. *)
Lemma armed_delete h :
  (forall id, ~ In (id, h) p) -> armed p (delete h tm) nt sk.
Proof.
  destruct H as (H1 & H2 & H3). intros Hh. split; [|split].
  - intros id h' Hin. destruct (H1 _ _ Hin) as (d & Hd). exists d.
    rewrite lookup_delete_ne; auto. intros <-. eapply Hh; eauto.
  - intros h' t Hl. apply lookup_delete_Some in Hl as [_ Hl]. eauto.
  - eapply List.Forall_impl; [|exact H3]. cbn. intros s [Ha Hb]. split; auto.
    intros d id Hl. apply lookup_delete_Some in Hl as [_ Hl]. eapply Hb; eauto.
Qed.

Lemma armed_delete_timer h t :
  tm !! h = Some t -> (forall id, callback t <> TRequest id) ->
  armed p (delete h tm) nt sk.
Proof.
  intros Ht Hc. apply armed_delete. intros id Hin.
  destruct H as (H1 & _). destruct (H1 _ _ Hin) as (d & Hd).
  rewrite Hd in Ht. injection Ht as <-. eapply Hc. reflexivity.
Qed.

Lemma armed_delete_dial s x :
  sk !! s = Some x -> armed p (delete (dialTimer x) tm) nt sk.
Proof.
  intros Hs. apply armed_delete. intros id Hin.
  destruct H as (H1 & _ & H3). destruct (H1 _ _ Hin) as (d & Hd).
  rewrite List.Forall_forall in H3.
  destruct (H3 x) as [_ Hx]; [eapply list_elem_of_In, list_elem_of_lookup_2; eauto|].
  eapply Hx; eauto.
Qed.

(** Any timers left after dropping all pending requests. *)
Lemma armed_flush (tm' : gmap nat Timer) :
  (forall h t, tm' !! h = Some t -> tm !! h = Some t) -> armed [] tm' nt sk.
Proof.
  destruct H as (H1 & H2 & H3). intros Hsub. split; [|split].
  - intros id h [].
  - intros h t Hl. eauto.
  - eapply List.Forall_impl; [|exact H3]. cbn. intros s [Ha Hb]. split; auto.
    intros d id Hl. eapply Hb; eauto.
Qed.

(** Arming a timer that is no request's deadline. *)
Lemma armed_insert t :
  (forall id, callback t <> TRequest id) ->
  armed p (<[nt := t]> tm) (S nt) sk.
Proof.
  destruct H as (H1 & H2 & H3). intros Hc. split; [|split].
  - intros id h Hin. destruct (H1 _ _ Hin) as (d & Hd). exists d.
    rewrite lookup_insert_ne; auto. apply H2 in Hd. lia.
  - intros h t' Hl. apply lookup_insert_Some in Hl as [[<- _]|[_ Hl]]; [lia|].
    apply H2 in Hl. lia.
  - eapply List.Forall_impl; [|exact H3]. cbn. intros s [Ha Hb]. split; [lia|].
    intros d id Hl. apply lookup_insert_Some in Hl as [[_ ->]|[_ Hl]].
    + eapply Hc. reflexivity.
    + eapply Hb; eauto.
Qed.

(** A new socket with its dial timer. *)
Lemma armed_dial d s0 p0 r pr :
  armed p (<[nt := mkTimer d (TDial s0 p0)]> tm) (S nt)
        (sk ++ [mkSocket r nt pr]).
Proof.
  pose proof (armed_insert (mkTimer d (TDial s0 p0))) as Hi.
  destruct Hi as (H1 & H2 & H3); [discriminate|].
  split; [exact H1|]. split; [exact H2|].
  apply List.Forall_app. split; [exact H3|].
  constructor; [|constructor]. cbn. split; [lia|].
  intros d' id. rewrite lookup_insert_eq. discriminate.
Qed.

(** Registering a request. *)
Lemma armed_request id d :
  armed (pending_set id nt p) (<[nt := mkTimer d (TRequest id)]> tm) (S nt) sk.
Proof.
  destruct H as (H1 & H2 & H3). split; [|split].
  - intros id' h Hin. apply pending_set_entry in Hin as [[-> ->]|Hin].
    + exists d. apply lookup_insert_eq.
    + destruct (H1 _ _ Hin) as (d' & Hd). exists d'.
      rewrite lookup_insert_ne; auto. apply H2 in Hd. lia.
  - intros h t' Hl. apply lookup_insert_Some in Hl as [[<- _]|[_ Hl]]; [lia|].
    apply H2 in Hl. lia.
  - eapply List.Forall_impl; [|exact H3]. cbn. intros s [Ha Hb]. split; [lia|].
    intros d' id' Hl. apply lookup_insert_Some in Hl as [[E _]|[_ Hl]]; [lia|].
    eapply Hb; eauto.
Qed.

(** Settling a request and cancelling its deadline. *)
Lemma armed_settle i h d :
  tm !! h = Some (mkTimer d (TRequest i)) ->
  armed (pending_delete i p) (delete h tm) nt sk.
Proof.
  destruct H as (H1 & H2 & H3). intros Ht. split; [|split].
  - intros id h' Hin. apply filter_In in Hin as [Hin Hne]. cbn in Hne.
    destruct (H1 _ _ Hin) as (d' & Hd). exists d'.
    rewrite lookup_delete_ne; auto. intros <-.
    rewrite Hd in Ht. injection Ht as _ <-.
    now rewrite String.eqb_refl in Hne.
  - intros h' t Hl. apply lookup_delete_Some in Hl as [_ Hl]. eauto.
  - eapply List.Forall_impl; [|exact H3]. cbn. intros s [Ha Hb]. split; auto.
    intros d' id Hl. apply lookup_delete_Some in Hl as [_ Hl]. eapply Hb; eauto.
Qed.

(** A change of [readyState]. *)
Lemma armed_ready s x r :
  sk !! s = Some x ->
  armed p tm nt (<[s := mkSocket r (dialTimer x) (dialPromise x)]> sk).
Proof.
  destruct H as (H1 & H2 & H3). intros Hs. split; [exact H1|]. split; [exact H2|].
  rewrite List.Forall_forall in *. intros y Hy.
  apply list_elem_of_In, list_elem_of_lookup_1 in Hy as (j & Hj).
  apply list_lookup_insert_Some in Hj as [(-> & <- & _)|(_ & Hj)].
  - cbn. apply (H3 x). eapply list_elem_of_In, list_elem_of_lookup_2; eauto.
  - apply H3. eapply list_elem_of_In, list_elem_of_lookup_2; eauto.
Qed.

End Armed.

Lemma fold_delete_sub (l : list (string * nat)) : forall (m : gmap nat Timer) h t,
  fold_left (fun m (p : string * nat) => delete (snd p) m) l m !! h = Some t ->
  m !! h = Some t.
Proof.
  induction l as [|[k v] l IH]; intros m h t Hl; simpl in *; auto.
  apply IH in Hl. apply lookup_delete_Some in Hl. tauto.
Qed.

Lemma armed_stale p tm nt sk h d id :
  armed p tm nt sk ->
  tm !! h = Some (mkTimer d (TRequest id)) -> pending_has id p = false ->
  armed p (delete h tm) nt sk.
Proof.
  intros H Ht Hp. apply armed_delete; auto. intros id' Hin.
  destruct H as (H1 & _). destruct (H1 _ _ Hin) as (d' & Hd).
  rewrite Hd in Ht. injection Ht as _ ->.
  apply pending_has_false in Hp. apply Hp. apply in_map_iff. exists (id, h). auto.
Qed.

Ltac armed_peel Hw :=
  lazymatch goal with
  | |- armed _ _ _ (<[_ := _]> _) => eapply armed_ready; [|eassumption]
  | |- armed _ (<[_ := _]> _) _ (_ ++ _) => apply armed_dial
  | |- armed (pending_set _ _ _) _ _ _ => apply armed_request
  | |- armed _ (<[_ := _]> _) _ _ => apply armed_insert; [|discriminate]
  | |- armed [] _ _ _ =>
      eapply armed_flush; [exact Hw|];
      let h := fresh "h" in let t := fresh "t" in let Hl := fresh "Hl" in
      intros h t Hl; apply fold_delete_sub in Hl;
      try (apply lookup_delete_Some in Hl as [_ Hl]); exact Hl
  | |- armed _ (delete (dialTimer _) _) _ _ => eapply armed_delete_dial; eauto
  | |- armed (pending_delete _ _) (delete _ _) _ _ =>
      first
        [ match goal with
          | G : pending_get ?i _ = Some ?n |- _ =>
              let d := fresh "d" in let Hd := fresh "Hd" in
              apply pending_get_in in G;
              destruct (proj1 Hw _ _ G) as (d & Hd);
              eapply armed_settle; [exact Hw|exact Hd]
          end
        | match goal with
          | G : _ !! ?h = Some ?t, C : callback ?t = TRequest _ |- _ =>
              destruct t; cbn in C; subst;
              eapply armed_settle; [exact Hw|exact G]
          end ]
  | |- armed _ (delete _ _) _ _ =>
      match goal with
      | G : _ !! ?h = Some ?t, C : callback ?t = _ |- _ =>
          first
            [ eapply armed_delete_timer; [|exact G|rewrite C; discriminate]
            | destruct t; cbn in C; subst; eapply armed_stale; eauto ]
      end
  end.

(** Every turn of the event loop keeps the deadlines of the pending
    requests armed. *)
Lemma deadlines_step e w : deadlines_armed w -> deadlines_armed (step e w).
Proof.
  unfold deadlines_armed. intros Hw. destruct e; step_cases.
  all: try exact Hw.
  all: repeat armed_peel Hw.
  all: try exact Hw.
Qed.

Lemma deadlines_run es : forall w, deadlines_armed w -> deadlines_armed (run es w).
Proof.
  induction es as [|e es IH]; intros w Hw; simpl; auto.
  apply IH. now apply deadlines_step.
Qed.

Lemma deadlines_init cfg t0 : deadlines_armed (init cfg t0).
Proof.
  split; [intros ? ? []|]. split; [|constructor].
  intros h t Hl. cbn in Hl. rewrite lookup_empty in Hl. discriminate.
Qed.

(** A response to a pending request that is not the handshake. *)
Lemma response_settles w s id h okf err payload :
  ready s w = Some OPEN ->
  connectId (client w) <> Some id ->
  pending_get id (pending (client w)) = Some h ->
  let w' := step (SockMessage s (InRes (Some id) okf err payload)) w in
  log w' = log w ++
    [if res_success okf err then RequestResolved id payload
     else RequestRejected id
            (EUpstream (match err with Some e => e | None => None end))] /\
  pending (client w') = pending_delete id (pending (client w)) /\
  timers w' = delete h (timers w) /\
  nextTimer w' = nextTimer w /\ sockets w' = sockets w.
Proof.
  intros Hr Hc Hp. cbn [step]. rewrite Hr. unfold handleMessage.
  assert (E : is_connect_response w (Some id) = false).
  { unfold is_connect_response. destruct (connectId (client w)) as [cid|]; auto.
    destruct (String.eqb_spec id cid) as [->|]; [congruence|].
    apply andb_false_r. }
  rewrite E, Hp. unfold clearTimeout.
  destruct (res_success okf err); cbn; auto.
Qed.

End GatewayInvFacts.

Module ChatInvFacts.
Import Chat ChatFacts ChatInv.
Import Gateway (ReadyState, CONNECTING, OPEN, CLOSING, CLOSED).

(** Frames leave on the current socket, while it is open. *)
Lemma chat_sent_nc e w :
  is_connect_call e = false ->
  exists l, log (step e w) = log w ++ l /\
            forall s f, In (Sent s f) l -> ws_open w = Some s /\ l = [Sent s f].
Proof.
  intros He. destruct e; try discriminate He.
  all: step_cases.
  all: log_tail; intros sx fx Hin; in_cases Hin; try discriminate.
  all: try match goal with H : Sent _ _ = Sent _ _ |- _ => injection H as <- <- end.
  all: split; auto; congruence.
Qed.

Lemma _connect_log w :
  exists l, log (_connect w) = log w ++ l /\ forall o, In o l -> is_sent o = false.
Proof.
  unfold _connect. step_cases.
  all: log_tail; intros o Hin; in_cases Hin; auto.
Qed.

Lemma disconnect_log w : log (disconnect w) = log w.
Proof. unfold disconnect. step_cases; reflexivity. Qed.

Lemma chat_sent_step e w :
  exists l, log (step e w) = log w ++ l /\
            forall s f, In (Sent s f) l -> ws_open w = Some s /\ l = [Sent s f].
Proof.
  destruct (is_connect_call e) eqn:He; [|now apply chat_sent_nc].
  destruct e; try discriminate He. cbn [step]. unfold connect.
  match goal with |- context [_connect ?v] =>
    destruct (_connect_log v) as (l & E & Hl); exists l; split
  end.
  - rewrite E. f_equal.
    destruct (federated (config (disconnect w))); cbn; apply disconnect_log.
  - intros s f Hin. apply Hl in Hin. discriminate Hin.
Qed.

(** Reading a timer table after updates. *)
Ltac timer_cases Hl :=
  repeat first
    [ apply lookup_insert_Some in Hl as [[? ?]|[? Hl]]
    | apply lookup_delete_Some in Hl as [? Hl] ].

Ltac heartbeat_cases Hw :=
  let h := fresh "h" in let t := fresh "t" in
  let Hl := fresh "Hl" in let Hc := fresh "Hc" in
  intros h t Hl Hc; cbn in *; timer_cases Hl; subst; cbn in *;
  try discriminate; try reflexivity;
  try (pose proof (Hw _ _ Hl Hc); congruence);
  try (match goal with
       | G : timers _ !! ?x = Some ?t0, C : callback ?t0 = KPing |- _ =>
           pose proof (Hw _ _ G C); congruence
       end).

Lemma one_heartbeat_nc e w :
  is_connect_call e = false -> one_heartbeat w -> one_heartbeat (step e w).
Proof.
  intros He Hw. destruct e; try discriminate He.
  all: step_cases; auto.
  all: heartbeat_cases Hw.
Qed.

Lemma one_heartbeat__connect w : one_heartbeat w -> one_heartbeat (_connect w).
Proof.
  intros Hw. unfold _connect. step_cases; auto.
  all: heartbeat_cases Hw.
Qed.

Lemma one_heartbeat_step e w : one_heartbeat w -> one_heartbeat (step e w).
Proof.
  intros Hw. destruct (is_connect_call e) eqn:He; [|now apply one_heartbeat_nc].
  destruct e; try discriminate He. cbn [step]. unfold connect.
  apply one_heartbeat__connect.
  pose proof (one_heartbeat_nc CallDisconnect w eq_refl Hw) as Hd.
  cbn [step] in Hd.
  destruct (federated (config (disconnect w))); exact Hd.
Qed.

Lemma one_heartbeat_run es : forall w, one_heartbeat w -> one_heartbeat (run es w).
Proof.
  induction es as [|e es IH]; intros w Hw; simpl; auto.
  apply IH. now apply one_heartbeat_step.
Qed.

Lemma one_heartbeat_init cfg t0 : one_heartbeat (init cfg t0).
Proof. intros h t Hl. cbn in Hl. rewrite lookup_empty in Hl. discriminate. Qed.

(** The reconnect timer fires: a socket is created. *)
Lemma reconnect_timer_dials w h d :
  shouldReconnect (client w) = true ->
  timers w !! h = Some (mkTimer d KReconnect) -> d <= now w ->
  negb (federated (config w)) && negb (truthy (gwId (client w))) = false ->
  url_ok (config w) (gwId (client w)) = true ->
  let w1 := step (TimerFire h) w in
  sockets w1 !! length (sockets w) = Some CONNECTING /\
  shouldReconnect (client w1) = true /\
  reconnectAttempts (client w1) = reconnectAttempts (client w) /\
  gwId (client w1) = gwId (client w) /\ config w1 = config w /\
  log w1 = log w /\ nextTimer w1 = nextTimer w.
Proof.
  intros Hs Ht Hd Hg Hu. apply N.leb_le in Hd.
  cbn [step]. rewrite Ht. cbn [due callback]. rewrite Hd.
  unfold on_reconnect_timer, clearTimer. cbn [set_timers client shouldReconnect].
  rewrite Hs. unfold _connect. cbn [config client set_timers]. rewrite Hg.
  destruct (ws (client w)) as [s|] eqn:Hws; cbn.
  - unfold ws_close. cbn.
    destruct (sockets w !! s) as [[]|] eqn:Hsk; cbn; rewrite Hu; cbn.
    all: repeat split; auto.
    all: rewrite lookup_app_r by (rewrite ?length_insert; lia).
    all: now rewrite ?length_insert, Nat.sub_diag.
  - rewrite Hu. cbn. repeat split; auto.
    rewrite lookup_app_r by lia. now rewrite Nat.sub_diag.
Qed.

(** The close listener with attempts left. *)
Lemma close_climbs w s r code reason :
  sockets w !! s = Some r -> r <> CLOSED ->
  shouldReconnect (client w) = true -> code <> 1000 ->
  reconnectAttempts (client w) < 10 ->
  let n := reconnectAttempts (client w) in
  let w' := step (SockClose s code reason) w in
  shouldReconnect (client w') = true /\
  reconnectAttempts (client w') = n + 1 /\
  reconnectTimer (client w') = Some (nextTimer w) /\
  timers w' !! nextTimer w
  = Some (mkTimer (now w + backoff_delay n) KReconnect) /\
  gwId (client w') = gwId (client w) /\ config w' = config w /\
  log w' = log w ++ [Emit "close" (DClose code reason);
                     Emit "reconnecting" (DReconnecting (n + 1) (backoff_delay n))].
Proof.
  intros Hs Hr Hsr Hc Hlt. cbn [step]. rewrite Hs.
  apply N.eqb_neq in Hc.
  destruct r; try congruence.
  all: step_cases; try congruence.
  all: try (rewrite Hsr, Hc in *; discriminate).
  all: try (unfold maxReconnectAttempts in *;
            match goal with K : (10 <=? _) = true |- _ => apply N.leb_le in K end;
            lia).
  all: rewrite <- ?app_assoc; repeat split; auto; apply lookup_insert_eq.
Qed.

(** The close listener with the attempts exhausted. *)
Lemma close_gives_up w s r code reason :
  sockets w !! s = Some r -> r <> CLOSED ->
  shouldReconnect (client w) = true -> code <> 1000 ->
  10 <= reconnectAttempts (client w) ->
  let w' := step (SockClose s code reason) w in
  shouldReconnect (client w') = false /\
  nextTimer w' = nextTimer w /\
  log w' = log w ++ [Emit "close" (DClose code reason);
                     Emit "reconnect_failed" DEmpty].
Proof.
  intros Hs Hr Hsr Hc Hlt. cbn [step]. rewrite Hs.
  apply N.eqb_neq in Hc.
  destruct r; try congruence.
  all: step_cases; try congruence.
  all: try (rewrite Hsr, Hc in *; discriminate).
  all: try (unfold maxReconnectAttempts in *;
            match goal with K : (10 <=? _) = false |- _ => apply N.leb_gt in K end;
            lia).
  all: rewrite <- ?app_assoc; repeat split; auto.
Qed.

(** A failed attempt with attempts left. *)
Lemma failed_attempt_below code reason w (n : N) :
  code <> 1000 -> retrying w n -> (n < 10)%N ->
  retrying (failed_attempt code reason w) (n + 1) /\
  log (failed_attempt code reason w)
  = log w ++ [Emit "close" (DClose code reason);
              Emit "reconnecting" (DReconnecting (n + 1) (backoff_delay n))].
Proof.
  intros Hcode (Hs & Hn & (h & d & Hh & Ht) & Hg & Hu) Hlt.
  unfold failed_attempt. rewrite Hh, Ht. cbn [run fold_left due].
  set (w0 := step (Elapse (d - now w)) w).
  assert (Hd : d <= now w0) by (cbn; lia).
  destruct (reconnect_timer_dials w0 h d Hs Ht Hd Hg Hu)
    as (Hsk & Hs1 & Hn1 & Hg1 & Hc1 & Hl1 & Ht1).
  set (w1 := step (TimerFire h) w0) in *.
  change (length (sockets w0)) with (length (sockets w)) in Hsk.
  change (reconnectAttempts (client w0)) with (reconnectAttempts (client w)) in Hn1.
  rewrite Hn in Hn1.
  destruct (close_climbs w1 (length (sockets w)) CONNECTING code reason Hsk)
    as (Hs2 & Hn2 & Hr2 & Htm2 & Hg2 & Hc2 & Hl2); auto; try discriminate.
  { now rewrite Hn1. }
  rewrite Hn1 in *. split.
  - split; [exact Hs2|]. split; [exact Hn2|]. split; [eauto|].
    rewrite Hg2, Hc2, Hg1, Hc1. auto.
  - rewrite Hl2, Hl1. reflexivity.
Qed.

(** A failed attempt with the attempts exhausted. *)
Lemma failed_attempt_last code reason w :
  code <> 1000 -> retrying w 10 ->
  shouldReconnect (client (failed_attempt code reason w)) = false /\
  log (failed_attempt code reason w)
  = log w ++ [Emit "close" (DClose code reason);
              Emit "reconnect_failed" DEmpty].
Proof.
  intros Hcode (Hs & Hn & (h & d & Hh & Ht) & Hg & Hu).
  unfold failed_attempt. rewrite Hh, Ht. cbn [run fold_left due].
  set (w0 := step (Elapse (d - now w)) w).
  assert (Hd : d <= now w0) by (cbn; lia).
  destruct (reconnect_timer_dials w0 h d Hs Ht Hd Hg Hu)
    as (Hsk & Hs1 & Hn1 & Hg1 & Hc1 & Hl1 & Ht1).
  set (w1 := step (TimerFire h) w0) in *.
  change (length (sockets w0)) with (length (sockets w)) in Hsk.
  change (reconnectAttempts (client w0)) with (reconnectAttempts (client w)) in Hn1.
  rewrite Hn in Hn1.
  destruct (close_gives_up w1 (length (sockets w)) CONNECTING code reason Hsk)
    as (Hs2 & _ & Hl2); auto; try discriminate.
  { rewrite Hn1. lia. }
  split; [exact Hs2|]. rewrite Hl2, Hl1. reflexivity.
Qed.

Lemma ladder_snoc code reason n k :
  ladder code reason n (S k)
  = ladder code reason n k ++
    [Emit "close" (DClose code reason);
     Emit "reconnecting"
       (DReconnecting (n + N.of_nat k + 1) (backoff_delay (n + N.of_nat k)))].
Proof.
  unfold ladder. rewrite seq_S, flat_map_app. cbn. reflexivity.
Qed.

Lemma failed_attempts code reason w n : forall k,
  code <> 1000 -> retrying w n -> n + N.of_nat k <= 10 ->
  retrying (Nat.iter k (failed_attempt code reason) w) (n + N.of_nat k) /\
  log (Nat.iter k (failed_attempt code reason) w)
  = log w ++ ladder code reason n k.
Proof.
  induction k as [|k IH]; intros Hc Hw Hle.
  - cbn. rewrite N.add_0_r, app_nil_r. auto.
  - destruct IH as (Hk & Hl); auto; [lia|].
    cbn [Nat.iter nat_rect].
    destruct (failed_attempt_below code reason _ _ Hc Hk) as (Hk' & Hl');
      [lia|].
    split.
    + replace (n + N.of_nat (S k)) with (n + N.of_nat k + 1) by lia. exact Hk'.
    + unfold Nat.iter in *. rewrite Hl', Hl, ladder_snoc, <- app_assoc. reflexivity.
Qed.

(** The ping interval comes due on an open socket. *)
Lemma ping_fires w s hp d :
  ws_open w = Some s ->
  timers w !! hp = Some (mkTimer d KPing) -> d <= now w ->
  let w1 := step (TimerFire hp) w in
  log w1 = log w ++ [Sent s Ping] /\
  pongTimeout (client w1) = Some (nextTimer w) /\
  timers w1 !! nextTimer w = Some (mkTimer (now w + PONG_TIMEOUT) KPong) /\
  ws (client w1) = Some s /\ sockets w1 = sockets w /\
  now w1 = now w /\
  shouldReconnect (client w1) = shouldReconnect (client w) /\
  reconnectAttempts (client w1) = reconnectAttempts (client w) /\
  nextTimer w1 = S (nextTimer w).
Proof.
  intros Hs Ht Hd. apply N.leb_le in Hd.
  cbn [step]. rewrite Ht. cbn [due callback]. rewrite Hd.
  unfold on_ping_interval.
  assert (E : forall tm, ws_open (set_timers tm w) = Some s) by (intros; exact Hs).
  rewrite E. unfold setTimer. cbn.
  unfold ws_open in Hs. destruct (ws (client w)) as [s'|]; [|discriminate].
  destruct (sockets w !! s') as [[]|]; try discriminate. injection Hs as ->.
  repeat split; auto. apply lookup_insert_eq.
Qed.

(** The pong deadline comes due. *)
Lemma pong_deadline_fires w s h d :
  ws (client w) = Some s -> sockets w !! s = Some OPEN ->
  timers w !! h = Some (mkTimer d KPong) -> d <= now w ->
  let w2 := step (TimerFire h) w in
  sockets w2 !! s = Some CLOSING /\ log w2 = log w /\
  shouldReconnect (client w2) = shouldReconnect (client w) /\
  reconnectAttempts (client w2) = reconnectAttempts (client w) /\
  nextTimer w2 = nextTimer w /\ now w2 = now w.
Proof.
  intros Hws Hs Ht Hd. apply N.leb_le in Hd.
  cbn [step]. rewrite Ht. cbn [due callback]. rewrite Hd.
  unfold on_pong_timeout, clearTimer. cbn. rewrite Hws.
  unfold ws_close. cbn. rewrite Hs. cbn.
  repeat split; auto. apply list_lookup_insert_eq.
  apply lookup_lt_Some in Hs. exact Hs.
Qed.

End ChatInvFacts.

Module PersistFacts.
Import Persist.

Lemma or_else_some s d : String.eqb s "" = false -> or_else (Some s) d = s.
Proof. intros H. simpl. now rewrite H. Qed.

End PersistFacts.

Module PrefsFacts.
Import Filter Prefs.

(** Splitting at the first separator. *)
Lemma split_at_sep (sep : N) (a b a' b' : list N) :
  ~ In sep a -> ~ In sep a' ->
  a ++ sep :: b = a' ++ sep :: b' -> a = a' /\ b = b'.
Proof.
  revert a'. induction a as [|x a IH]; intros [|x' a'] Ha Ha' E; simpl in *.
  - injection E as ->. auto.
  - injection E as <- _. tauto.
  - injection E as -> _. tauto.
  - injection E as -> E. destruct (IH a') as [-> ->]; auto.
Qed.

Lemma enabled_save g a m :
  isNotificationEnabled g a (saveNotificationPrefs m)
  = match m !! pref_key g a with Some true => true | _ => false end.
Proof. reflexivity. Qed.

Lemma toggle_flips g a st :
  fst (toggleNotification g a st) = negb (isNotificationEnabled g a st).
Proof.
  unfold toggleNotification, isNotificationEnabled. cbn [fst].
  destruct (loadNotificationPrefs st !! pref_key g a) as [[]|]; reflexivity.
Qed.

Lemma toggle_reads g a st :
  isNotificationEnabled g a (snd (toggleNotification g a st))
  = fst (toggleNotification g a st).
Proof.
  unfold toggleNotification. cbn [fst snd]. rewrite enabled_save.
  rewrite lookup_insert_eq.
  destruct (loadNotificationPrefs st !! pref_key g a) as [[]|]; reflexivity.
Qed.

Lemma toggle_other g a g' a' st :
  pref_key g' a' <> pref_key g a ->
  isNotificationEnabled g' a' (snd (toggleNotification g a st))
  = isNotificationEnabled g' a' st.
Proof.
  intros Hne. unfold toggleNotification. cbn [fst snd]. rewrite enabled_save.
  rewrite lookup_insert_ne by congruence. reflexivity.
Qed.

Lemma pref_key_inj g a g' a' :
  ~ In (unit_of ":") g -> ~ In (unit_of ":") g' ->
  pref_key g a = pref_key g' a' -> g = g' /\ a = a'.
Proof. intros Hg Hg' E. apply (split_at_sep _ _ _ _ _ Hg Hg' E). Qed.

Lemma body_length message : (length (notification_body message) <= 100)%nat.
Proof.
  unfold notification_body. destruct (Nat.ltb_spec 100 (length message)); [|lia].
  rewrite length_app, length_take.
  change (length (units "...")) with 3%nat. lia.
Qed.
End PrefsFacts.

Module HandlersFacts.
Import Handlers.

Lemma remove_first_snoc h l :
  ~ In h l -> remove_first h (l ++ [h]) = l.
Proof.
  induction l as [|x l IH]; simpl; intros H.
  - now rewrite Nat.eqb_refl.
  - destruct (Nat.eqb_spec x h) as [->|Hne]; [tauto|]. f_equal. tauto.
Qed.

Lemma emit_on ev ev' h r :
  emit ev' (on ev h r) = if String.eqb ev' ev then emit ev r ++ [h] else emit ev' r.
Proof.
  unfold emit, on.
  destruct (String.eqb_spec ev' ev) as [->|Hne].
  - destruct (r !! ev) as [l|] eqn:E; rewrite ?E, ?lookup_insert_eq; cbn;
      rewrite ?lookup_insert_eq; reflexivity.
  - destruct (r !! ev) as [l|] eqn:E; rewrite ?E, ?lookup_insert_eq; cbn;
      rewrite ?lookup_insert_eq, ?lookup_insert_ne by congruence; reflexivity.
Qed.

Lemma emit_off ev ev' h r :
  emit ev' (off ev h r)
  = if String.eqb ev' ev then remove_first h (emit ev r) else emit ev' r.
Proof.
  unfold emit, off.
  destruct (String.eqb_spec ev' ev) as [->|Hne].
  - destruct (r !! ev) as [l|] eqn:E; rewrite ?E, ?lookup_insert_eq; reflexivity.
  - destruct (r !! ev) as [l|] eqn:E; rewrite ?lookup_insert_ne by congruence;
      reflexivity.
Qed.
End HandlersFacts.

Module HookFacts.
Import Filter Prefs Hook.

Lemma extractText_text_message r t ts :
  extractText (content (text_message r t ts)) = t.
Proof. destruct t; cbn; rewrite ?app_nil_r; reflexivity. Qed.

Lemma messages_of_append key key' m s :
  messages_of key' (append_message key m s)
  = if decide (key' = key) then messages_of key s ++ [m] else messages_of key' s.
Proof.
  unfold messages_of, append_message. cbn.
  destruct (decide (key' = key)) as [->|Hne].
  - now rewrite lookup_insert_eq.
  - now rewrite lookup_insert_ne by congruence.
Qed.

Lemma string_eqb_false a b : String.eqb a b = false -> a <> b.
Proof. apply String.eqb_neq. Qed.

(** What [on_stream] does to the stored messages. *)
Lemma on_stream_messages gwId d env s :
  messagesBySession (fst (on_stream gwId d env s)) = messagesBySession s \/
  exists text,
    s_state d = "final"%string /\ s_text d = Some text /\
    stripThinking text <> [] /\
    messagesBySession (fst (on_stream gwId d env s))
    = <[getSessionKey gwId (activeSessionKey s) :=
          messages_of (getSessionKey gwId (activeSessionKey s)) s
          ++ [text_message Assistant (stripThinking text) (now env)]]>
        (messagesBySession s).
Proof.
  unfold on_stream.
  destruct (String.eqb_spec (s_state d) "delta").
  { destruct (s_text d) as [t|]; [destruct (_ && _)|]; left; reflexivity. }
  destruct (String.eqb_spec (s_state d) "final") as [Hf|].
  2: { destruct (String.eqb (s_state d) "error"); left; reflexivity. }
  destruct (s_text d) as [text|] eqn:Ht; [|left; reflexivity].
  destruct (truthy (Some text)); [|left; reflexivity].
  destruct (stripThinking text) as [|c cl] eqn:Hc; [left; reflexivity|].
  right. exists text. rewrite Hc. split; [assumption|]. split; [reflexivity|].
  split; [discriminate|].
  cbn [truthy]. destruct (bool_decide _); [destruct (notify_final _ _ _ _)|];
    reflexivity.
Qed.

(** A [final] frame whose stripped text is not empty is stored. *)
Lemma on_stream_appends gwId d env s text :
  s_state d = "final"%string -> s_text d = Some text ->
  stripThinking text <> [] ->
  messagesBySession (fst (on_stream gwId d env s))
  = <[getSessionKey gwId (activeSessionKey s) :=
        messages_of (getSessionKey gwId (activeSessionKey s)) s
        ++ [text_message Assistant (stripThinking text) (now env)]]>
      (messagesBySession s).
Proof.
  intros Hf Ht Hc.
  destruct (on_stream_messages gwId d env s) as [E|(text' & _ & Ht' & _ & E)].
  2: { rewrite Ht in Ht'. injection Ht' as <-. exact E. }
  exfalso. revert E. unfold on_stream. rewrite Hf, Ht. cbn [String.eqb Ascii.eqb Bool.eqb].
  destruct text as [|c text]; [intros _; now apply Hc|]. cbn [truthy].
  destruct (stripThinking (c :: text)) as [|c' cl] eqn:Hs; [intros _; now apply Hc|].
  cbn [truthy].
  intros E.
  assert (messagesBySession s !! getSessionKey gwId (activeSessionKey s)
          = Some (messages_of (getSessionKey gwId (activeSessionKey s)) s
                  ++ [text_message Assistant (c' :: cl) (now env)])) as K.
  { rewrite <- E.
    destruct (bool_decide _); [destruct (notify_final _ _ _ _)|]; cbn;
      apply lookup_insert_eq. }
  unfold messages_of in K.
  destruct (messagesBySession s !! _) as [l|]; [|discriminate K].
  injection K as K. apply (f_equal (@length _)) in K.
  rewrite length_app in K. simpl in K. lia.
Qed.

Lemma notify_created gwId cleaned env s n :
  notify_final gwId cleaned env s = Created n ->
  supported (platform env) = true /\
  permission (platform env) = Granted /\
  n_body n = notification_body cleaned /\
  exists gw agentId,
    gateways s !! gwId = Some gw /\
    (activeAgentId s = Some agentId \/
     exists rest, g_agents gw = rest /\ head (List.map a_id rest) = Some agentId) /\
    n_title n
    = notification_title
        (match List.find (fun a => bool_decide (a_id a = agentId)) (g_agents gw) with
         | Some a =>
             match or_else (a_name a) (or_else (Some (a_id a)) (Some (units "Agent"))) with
             | Some x => x
             | None => units "Agent"
             end
         | None => units "Agent"
         end) (Some (g_name gw)) /\
    isNotificationEnabled gwId agentId (prefs env) = true.
Proof.
  unfold notify_final.
  destruct (gateways s !! gwId) as [gw|]; [|discriminate].
  destruct (g_agents gw) as [|first rest] eqn:Ha; [discriminate|].
  destruct (or_else (activeAgentId s) (Some (a_id first))) as [agentId|] eqn:Ho;
    [|discriminate].
  destruct (truthy (Some agentId)); [|discriminate].
  destruct (isNotificationEnabled gwId agentId (prefs env)) eqn:He; [|discriminate].
  unfold showNotification.
  destruct (supported (platform env)); [|discriminate]. cbn [negb].
  destruct (permission (platform env)); try discriminate.
  intros [= <-]. cbn. repeat split; auto.
  exists gw, agentId. rewrite Ha. repeat split; auto.
  unfold or_else in Ho. destruct (truthy (activeAgentId s)); [now left|].
  right. eexists. split; [reflexivity|]. cbn. congruence.
Qed.

Lemma streaming_step e s :
  streaming s = true -> ends_stream e = false ->
  streaming (fst (step e s)) = true /\ snd (step e s) = [].
Proof.
  intros Hs He. destruct e as [gwId d env|text env|env]; cbn in He;
    [|cbn [step]|discriminate].
  - apply orb_false_iff in He as [Hf Hr]. cbn [step]. unfold on_stream.
    rewrite Hf, Hr.
    destruct (String.eqb (s_state d) "delta"); [|auto].
    destruct (s_text d) as [t|]; [destruct (_ && _)|]; auto.
  - unfold sendMessage. rewrite Hs.
    destruct (trim text); auto.
Qed.

Lemma streaming_run es : forall s,
  streaming s = true -> forallb (fun e => negb (ends_stream e)) es = true ->
  streaming (fst (run es s)) = true /\ snd (run es s) = [].
Proof.
  induction es as [|e es IH]; intros s Hs Hes; cbn in *; auto.
  apply andb_true_iff in Hes as [He Hes]. apply negb_true_iff in He.
  destruct (streaming_step e s Hs He) as [H1 H2].
  destruct (step e s) as [s1 eff1]. cbn in H1, H2. subst eff1.
  destruct (IH s1 H1 Hes) as [H3 H4].
  destruct (run es s1) as [s2 eff2]. cbn in *. subst. auto.
Qed.

Lemma send_sets_streaming text env s g k m a :
  In (SocketSend g k m a) (snd (sendMessage text env s)) ->
  streaming (fst (sendMessage text env s)) = true.
Proof.
  unfold sendMessage, getActiveSocket.
  destruct (trim text); [intros []|].
  destruct (streaming s); [intros []|].
  destruct (activeGatewayId s) as [g0|]; [|intros []].
  destruct (truthy (Some g0)); [|intros []].
  destruct (sockets env !! g0) as [[]|]; try (intros []).
  destruct (send_throws env); [intros []|]. reflexivity.
Qed.

End HookFacts.

Module FedHookFacts.
Import Filter FedHook.

Lemma stop_source_sync key s : in_sync s -> in_sync (stop_source key s).
Proof.
  intros [Hd Hs]. unfold stop_source, in_sync. cbn.
  destruct (decide (streamingSources s ∖ {[key]} = ∅)) as [E|E]; cbn.
  - split; [rewrite dom_delete_L, Hd; reflexivity|].
    split; [discriminate|]. intros H. contradiction.
  - split; [rewrite dom_delete_L, Hd; reflexivity|].
    split; [auto|]. intros _. apply Hs. intros E'. apply E.
    rewrite E'. apply leibniz_equiv. intros x. split.
    + intros Hx. apply elem_of_difference in Hx. tauto.
    + intros Hx. exfalso. now apply elem_of_empty in Hx.
Qed.

Lemma reset_sync s : in_sync (reset s).
Proof.
  unfold in_sync, reset. cbn. split; [apply dom_empty_L|].
  split; [discriminate|]. intros H. contradiction.
Qed.

Lemma step_sync e s : in_sync s -> in_sync (fst (step e s)).
Proof.
  intros Hs. destruct e; cbn [step fst]; auto.
  - unfold on_stream.
    destruct (String.eqb (m_state m) "delta" && Prefs.truthy (m_text m)).
    { destruct Hs as [Hd _]. split; cbn.
      - rewrite dom_insert_L, Hd. reflexivity.
      - split; auto. intros _ E.
        assert (Hk : sourceKey (m_source m)
                     ∈ {[sourceKey (m_source m)]} ∪ streamingSources s).
        { apply elem_of_union_l, elem_of_singleton. reflexivity. }
        rewrite E in Hk. now apply elem_of_empty in Hk. }
    destruct (String.eqb (m_state m) "final"); [now apply stop_source_sync|].
    destruct (String.eqb (m_state m) "error"); [now apply stop_source_sync|].
    exact Hs.
  - apply reset_sync.
  - unfold switchSession. destruct (List.find _ _); [apply reset_sync|exact Hs].
  - unfold sessionDeleted. destruct (activeFederatedSession s) as [a|]; [|exact Hs].
    destruct (bool_decide _); [apply reset_sync|exact Hs].
  - unfold sendMessage. destruct socket as [[]|], (activeFederatedSession s);
      exact Hs.
  - unfold abortRun. destruct socket as [o|], (activeFederatedSession s);
      try exact Hs.
    cbn. split; [apply dom_empty_L|]. split; [discriminate|].
    intros H. contradiction.
Qed.

Lemma run_sync es : forall s, in_sync s -> in_sync (run es s).
Proof.
  induction es as [|e es IH]; intros s Hs; cbn; auto.
  apply IH. now apply step_sync.
Qed.

Lemma init_sync : in_sync init.
Proof.
  split; [apply dom_empty_L|]. split; [discriminate|]. intros H. contradiction.
Qed.

(** The partial text of a source after a run of its deltas. *)
Lemma deltas_accumulate src now ts : forall s,
  Forall (fun t => t <> []) ts -> ts <> [] ->
  streamingMessages (run (List.map (delta src now) ts) s) !! sourceKey src
  = Some (match streamingMessages s !! sourceKey src with
          | Some t => t
          | None => []
          end ++ concat ts).
Proof.
  induction ts as [|t ts IH]; intros s Hall Hne; [congruence|].
  apply Forall_cons in Hall as [Ht Hall].
  cbn [List.map run fold_left step fst delta].
  fold (run (List.map (delta src now) ts)).
  assert (E : streamingMessages (on_stream (mkStreamMsg src "delta" (Some t) None) now s)
              !! sourceKey src
              = Some (match streamingMessages s !! sourceKey src with
                      | Some x => x
                      | None => []
                      end ++ t)).
  { unfold on_stream. cbn [m_state m_text m_source String.eqb Ascii.eqb Bool.eqb andb].
    destruct t as [|c t]; [congruence|]. cbn [Prefs.truthy].
    cbn. rewrite lookup_insert_eq. f_equal. f_equal.
    unfold Hook.or_else.
    destruct (streamingMessages s !! sourceKey src) as [[|]|]; reflexivity. }
  destruct ts as [|t' ts].
  - cbn. rewrite app_nil_r. exact E.
  - rewrite IH by (auto; discriminate). unfold jsstring in *. rewrite E.
    cbn [concat].
    now rewrite <- app_assoc.
Qed.
End FedHookFacts.

(** ** Theorems *)

(** *** The thinking filter *)

Section FilterExtras.
Import Filter FilterFacts FilterMoreFacts.

(** X1: [stripThinking] never lengthens a text, shortens every text in
    which the pattern matches, and returns a text without white space at
    either end, which [trim] leaves as it is. *)
Theorem stripThinking_shrinks_and_trims :
  forall s,
    (length (stripThinking s) <= length s)%nat /\
    (has_tag None s = true -> (length (stripThinking s) < length s)%nat) /\
    trim (stripThinking s) = stripThinking s /\
    (forall c rest, stripThinking s = c :: rest -> is_white_space c = false) /\
    (forall c front, stripThinking s = front ++ [c] -> is_white_space c = false).
Proof.
  intros s. unfold stripThinking.
  pose proof (trim_length (replace_tags s)) as Ht.
  pose proof (erases_length _ _ (replace_erases s None)) as He.
  fold (replace_tags s) in He.
  split; [lia|]. split.
  - intros H. apply replace_has_tag in H. fold (replace_tags s) in H. lia.
  - split; [apply trim_idem|]. split.
    + intros c rest. apply trim_head.
    + intros c front. apply trim_last.
Qed.

(** X2: a text without ["<"] holds no marker: [stripThinking] only trims
    it. *)
Theorem stripThinking_without_lt :
  forall s,
    forallb (fun c => negb (c =? unit_of "<")) s = true ->
    stripThinking s = trim s.
Proof.
  intros s H. unfold stripThinking, replace_tags.
  now rewrite (replace_no_tag s None (no_lt_no_tag s None H)).
Qed.

(** X2, at a concrete input. *)
Lemma stripThinking_without_lt_witness :
  stripThinking (units "  2 > 1, I think  ") = units "2 > 1, I think".
Proof.
  rewrite (stripThinking_without_lt (units "  2 > 1, I think  ")).
  - vm_compute. reflexivity.
  - vm_compute. reflexivity.
Defined.

End FilterExtras.

(** *** The upstream client *)

Section GatewayExtras.
Import Gateway GatewayFacts GatewayInv GatewayInvFacts.

(** X3: whatever happens to a [GatewayClient], its attempt counter never
    passes 1: the close listener reschedules only a client that was
    connected, and completing the handshake resets the counter.  So every
    [reconnecting] signal announces attempt 1 with a delay of 1000 ms, and
    [reconnect_failed] is never emitted. *)
Theorem gateway_never_backs_off :
  forall cfg t0 es,
    let w := run es (init cfg t0) in
    reconnectAttempts (client w) <= 1 /\
    (forall data, ~ In (Emit "reconnect_failed" data) (log w)) /\
    (forall attempt delay,
        In (Emit "reconnecting" (DReconnecting attempt delay)) (log w) ->
        attempt = 1 /\ delay = 1000).
Proof.
  intros cfg t0 es w. subst w.
  assert (Hc : _connected (client (init cfg t0)) = true ->
               reconnectAttempts (client (init cfg t0)) = 0) by discriminate.
  assert (Ha : reconnectAttempts (client (init cfg t0)) <= 1) by (cbn; lia).
  split; [now apply attempts_run|].
  destruct (first_attempt_run es _ Hc Ha) as (l & E & Hl).
  rewrite E. cbn [init log app]. rewrite forallb_forall in Hl.
  split.
  - intros data Hin. apply Hl in Hin. discriminate Hin.
  - intros a d Hin. apply Hl in Hin. cbn in Hin.
    apply andb_true_iff in Hin as [H1 H2].
    apply N.eqb_eq in H1, H2. auto.
Qed.

(** X4: in one turn of the event loop the client sends at most one frame,
    only when the turn is a request or a [connect.challenge] message, and
    on the socket that is the client's current one and open. *)
Theorem frames_use_current_socket :
  forall e w,
    exists l, log (step e w) = log w ++ l /\
              forall s f, In (Sent s f) l ->
                          ws_open w = Some s /\ may_send e = true /\
                          l = [Sent s f].
Proof.
  intros e w. destruct e; step_cases.
  all: log_tail.
  all: intros sx fx Hin; repeat (rewrite in_app_iff in Hin || simpl in Hin).
  all: repeat match goal with
       | H : _ \/ _ |- _ => destruct H
       | H : False |- _ => destruct H
       | H : In _ (List.map _ _) |- _ =>
           apply in_map_iff in H as (? & ? & _)
       end; try discriminate.
  all: try match goal with H : Sent _ _ = Sent _ _ |- _ => injection H as <- <- end.
  all: repeat split; auto; congruence.
Qed.

(** X5: [disconnect] rejects every pending request with [EDisconnected]
    ('Disconnected'), in the order of their registration, cancels their
    deadlines and the reconnect timer, and leaves the client without
    socket, not connected, with reconnection off and nothing pending.  The
    promise of a [connect] in progress is dropped without being settled.
    The close event of the socket, when it arrives afterwards, schedules
    nothing. *)
Theorem disconnect_fails_pending :
  forall w,
    let w' := disconnect w in
    pending (client w') = [] /\
    ws (client w') = None /\ _connected (client w') = false /\
    shouldReconnect (client w') = false /\
    reconnectTimer (client w') = None /\ connectPromise (client w') = None /\
    log w' = log w ++ List.map (fun p => RequestRejected (fst p) EDisconnected)
                               (pending (client w)) /\
    (forall id h, In (id, h) (pending (client w)) -> timers w' !! h = None) /\
    (forall h, reconnectTimer (client w) = Some h -> timers w' !! h = None) /\
    (forall s code reason,
        nextTimer (step (SockClose s code reason) w') = nextTimer w /\
        reconnectTimer (client (step (SockClose s code reason) w')) = None).
Proof.
  intros w w'. subst w'.
  pose proof (disconnect_fields w) as Hd.
  destruct Hd as (H1 & H2 & H3 & H4 & H5 & H6 & H7).
  repeat (split; [assumption|]).
  split; [|split; [|split]].
  - unfold disconnect. step_cases; reflexivity.
  - intros id h Hin. unfold disconnect. step_cases.
    all: apply fold_delete_none; right; apply in_map_iff; exists (id, h); auto.
  - intros h Hh. unfold disconnect. step_cases; try discriminate.
    all: injection Hh as <-; apply fold_delete_none; left; apply lookup_delete_eq.
  - intros s code reason.
    destruct (close_idle (disconnect w) s code reason H3) as [-> ->]. auto.
Qed.

(** X6: the handshake.  On an open current socket a [connect.challenge]
    makes the client send a [connect] request under a new identifier; the
    response carrying that identifier settles the promise of [connect]:
    a successful one marks the client connected, resets the attempt
    counter, emits [connected] and resolves the promise; a failed one
    rejects the promise with the upstream error and leaves the client not
    yet connected.  Either way the identifier is then forgotten and the
    pending requests are untouched. *)
Theorem handshake :
  forall w s p payload payload' okf err,
    ws_open w = Some s ->
    connectPromise (client w) = Some p ->
    let id := mk_id (js_succ (reqCounter w)) (now w) in
    let frame := mkFrame "req" id "connect" (PConnect (connect_params w)) in
    let w1 := step (SockMessage s (InEvent "connect.challenge" payload)) w in
    let w2 := step (SockMessage s (InRes (Some id) okf err payload')) w1 in
    connectId (client w1) = Some id /\
    (res_success okf err = true ->
     _connected (client w2) = true /\ reconnectAttempts (client w2) = 0 /\
     log w2 = log w ++ [Sent s frame; Emit "connected" (DJson payload');
                        ConnectResolved p]) /\
    (res_success okf err = false ->
     _connected (client w2) = _connected (client w) /\
     log w2 = log w ++
       [Sent s frame;
        ConnectRejected p
          (EUpstream (match err with Some e => e | None => None end))]) /\
    connectId (client w2) = None /\ connectPromise (client w2) = None /\
    pending (client w2) = pending (client w).
Proof.
  intros w s p payload payload' okf err Hs Hp id frame w1 w2.
  assert (Hid : exists x, id = String "r" x).
  { unfold id, mk_id. eexists. reflexivity. }
  destruct Hid as (x & Hid).
  unfold ws_open in Hs.
  destruct (ws (client w)) as [s'|] eqn:Hws; [|discriminate].
  destruct (ready s' w) as [[]|] eqn:Hr; try discriminate.
  injection Hs as ->.
  assert (E1 : w1 = say (Sent s frame)
                      (upd (set_connectId (Some id))
                         (set_reqCounter (js_succ (reqCounter w)) w))).
  { unfold w1. cbn [step]. rewrite Hr. unfold handleMessage.
    cbn [String.eqb Ascii.eqb Bool.eqb andb].
    unfold sendConnect, nextId. cbn. rewrite Hws. unfold ws_send, ready in *.
    cbn. rewrite Hr. reflexivity. }
  assert (Hr1 : ready s w1 = Some OPEN) by (rewrite E1; exact Hr).
  unfold w2. cbn [step]. rewrite Hr1. unfold handleMessage, is_connect_response.
  rewrite E1. cbn [client say upd set_connectId connectId set_reqCounter].
  rewrite String.eqb_refl, Hid. cbn [truthy String.eqb negb andb].
  rewrite <- Hid. clearbody id. clear Hid.
  destruct (res_success okf err) eqn:Hok; cbn; rewrite Hp; cbn;
    rewrite <- ?app_assoc; cbn.
  all: repeat split; auto; discriminate.
Qed.

(** X6, at a concrete input: a fresh client completes the handshake. *)
Lemma handshake_witness :
  _connected
    (client
       (run [SockMessage 0 (InEvent "connect.challenge" "{}");
             SockMessage 0 (InRes (Some "r1_0"%string) false None "{}")]
            (run example_dialed (init example_config 0)))) = true.
Proof.
  refine (proj1 (proj1 (proj2
    (handshake (run example_dialed (init example_config 0)) 0%nat 0%nat
       "{}" "{}" false None eq_refl eq_refl)) eq_refl)).
Defined.

(** X7: in every world the client can reach, each pending request has its
    own deadline armed: the handle stored in its slot is that of a timer
    whose callback is the timeout of this request.  No other listener or
    timer of the client cancels it, so once the deadline has passed the
    request is rejected with [ERequestTimeout], if nothing settled it
    before: no request stays pending for ever. *)
Theorem pending_requests_have_deadlines :
  forall cfg t0 es id h,
    let w := run es (init cfg t0) in
    In (id, h) (pending (client w)) ->
    exists d,
      timers w !! h = Some (mkTimer d (TRequest id)) /\
      forall dt,
        d <= now w + dt ->
        let w' := step (TimerFire h) (step (Elapse dt) w) in
        pending_has id (pending (client w')) = false /\
        log w' = log w ++ [RequestRejected id ERequestTimeout].
Proof.
  intros cfg t0 es id h w Hin.
  assert (Hw : deadlines_armed w) by apply deadlines_run, deadlines_init.
  destruct (proj1 Hw _ _ Hin) as (d & Hd). exists d. split; [exact Hd|].
  intros dt Hdt w'.
  assert (Hp : pending_has id (pending (client (step (Elapse dt) w))) = true).
  { apply pending_has_in, in_map_iff. exists (id, h). auto. }
  destruct (request_timeout_fires (step (Elapse dt) w) h id d Hd Hdt Hp)
    as (Hl & Hp' & _).
  split; [exact Hp'|exact Hl].
Qed.

(** X7, at a concrete input: the request of [example_request_due]. *)
Lemma pending_requests_have_deadlines_witness :
  exists d,
    timers (run example_request_due (init example_config 0)) !! 2%nat
    = Some (mkTimer d (TRequest "r1_0")).
Proof.
  destruct (pending_requests_have_deadlines example_config 0
              example_request_due "r1_0"%string 2%nat) as (d & Hd & _).
  - vm_compute. left. reflexivity.
  - exists d. exact Hd.
Defined.

(** X8: in every world the client can reach, a request is settled at most
    once: the log holds at most one resolution or rejection for an
    identifier, and none while the request is pending (timeouts, responses,
    closes and [disconnect] included), as long as the module counter is
    below 2^53, where identifiers do not repeat. *)
Theorem requests_settle_once :
  forall cfg t0 es id,
    let w := run es (init cfg t0) in
    reqCounter w < 2 ^ 53 ->
    (settled_count id (log w) <= 1)%nat /\
    (pending_has id (pending (client w)) = true ->
     settled_count id (log w) = 0%nat).
Proof.
  intros cfg t0 es id w Hlt.
  assert (Hw : settled_ok w) by (apply settled_ok_run; [apply settled_ok_init|exact Hlt]).
  destruct Hw as (_ & _ & Hall). destruct (Hall id) as (H1 & H2 & _). auto.
Qed.

(** X8, at a concrete input: a request times out, its response comes
    late, and the client disconnects. *)
Lemma requests_settle_once_witness :
  (settled_count "r1_0"
     (log (run (example_request_due ++
                [TimerFire 2;
                 SockMessage 0 (InRes (Some "r1_0"%string) false None "{}");
                 CallDisconnect])
               (init example_config 0))) <= 1)%nat.
Proof.
  apply (requests_settle_once example_config 0
           (example_request_due ++
            [TimerFire 2;
             SockMessage 0 (InRes (Some "r1_0"%string) false None "{}");
             CallDisconnect]) "r1_0"%string).
  vm_compute. reflexivity.
Defined.

(** X9: the round trip of a request.  In every world the client can
    reach (the module counter below 2^53), a request issued on the open
    socket and then answered under its identifier is settled by the
    response: resolved with the payload when the response is a success,
    rejected with the upstream error otherwise; its slot is removed and
    its deadline cancelled, so that the timeout never fires for it. *)
Theorem request_round_trip :
  forall cfg t0 es method params tmo s s0 okf err payload,
    let w := run es (init cfg t0) in
    reqCounter w < 2 ^ 53 ->
    ws_open w = Some s ->
    ready s0 w = Some OPEN ->
    let id := mk_id (js_succ (reqCounter w)) (now w) in
    let w1 := step (CallRequest method params tmo) w in
    let w2 := step (SockMessage s0 (InRes (Some id) okf err payload)) w1 in
    log w2 = log w ++
      [Sent s (mkFrame "req" id method (PJson params));
       if res_success okf err then RequestResolved id payload
       else RequestRejected id
              (EUpstream (match err with Some e => e | None => None end))] /\
    pending_has id (pending (client w2)) = false /\
    timers w2 !! nextTimer w = None /\
    step (TimerFire (nextTimer w)) w2 = w2.
Proof.
  intros cfg t0 es method params tmo s s0 okf err payload w Hlt Hs Hr id w1 w2.
  destruct (request_registers w method params tmo s Hs) as (Hp & Ht & Hl).
  fold id in Hp, Ht, Hl. fold w1 in Hp, Ht, Hl.
  assert (Hok : ids_ok w) by (apply ids_ok_run; auto using ids_ok_init).
  assert (Hc : connectId (client w1) <> Some id).
  { assert (E : connectId (client w1) = connectId (client w)).
    { unfold w1. cbn [step]. unfold request. rewrite Hs. cbv zeta.
      unfold ws_open in Hs.
      destruct (ws (client w)) as [s'|]; [|discriminate].
      destruct (ready s' w) as [[]|] eqn:Hr'; try discriminate.
      injection Hs as ->. unfold nextId, setTimeout, ws_send, ready in *.
      cbn. rewrite Hr'. reflexivity. }
    rewrite E. intros Hx. destruct Hok as [_ Hcid].
    destruct (Hcid _ Hx) as [Hi _].
    revert Hi. intros (c' & t' & Eid & Hc'). apply mk_id_counter in Eid.
    rewrite (js_succ_lt _ Hlt) in Eid. lia. }
  assert (Hr1 : ready s0 w1 = Some OPEN).
  { unfold w1. cbn [step]. unfold request. rewrite Hs. cbv zeta.
    unfold ws_open in Hs.
    destruct (ws (client w)) as [s'|]; [|discriminate].
    destruct (ready s' w) as [[]|] eqn:Hr'; try discriminate.
    injection Hs as ->. unfold nextId, setTimeout, ws_send, ready in *.
    cbn. rewrite Hr'. exact Hr. }
  destruct (response_settles w1 s0 id (nextTimer w) okf err payload Hr1 Hc Hp)
    as (Hl2 & Hp2 & Ht2 & _).
  fold w2 in Hl2, Hp2, Ht2.
  assert (Hnone : timers w2 !! nextTimer w = None).
  { rewrite Ht2. apply lookup_delete_eq. }
  split; [|split; [|split]].
  - rewrite Hl2, Hl, <- app_assoc. reflexivity.
  - rewrite Hp2. apply pending_has_delete.
  - exact Hnone.
  - cbn [step]. now rewrite Hnone.
Qed.

(** X9, at a concrete input: a status request on a connected client. *)
Lemma request_round_trip_witness :
  pending_has "r2_0"
    (pending
       (client
          (run [CallRequest "status" "{}" None;
                SockMessage 0 (InRes (Some "r2_0"%string) false None "{}")]
               (run [CallConnect; SockOpen 0;
                     SockMessage 0 (InEvent "connect.challenge" "{}");
                     SockMessage 0 (InRes (Some "r1_0"%string) false None "{}")]
                    (init example_config 0))))) = false.
Proof.
  refine (proj1 (proj2
    (request_round_trip example_config 0
       [CallConnect; SockOpen 0;
        SockMessage 0 (InEvent "connect.challenge" "{}");
        SockMessage 0 (InRes (Some "r1_0"%string) false None "{}")]
       "status" "{}" None 0%nat 0%nat false None "{}" _ _ _))).
  - vm_compute. reflexivity.
  - vm_compute. reflexivity.
  - vm_compute. reflexivity.
Defined.

End GatewayExtras.

(** *** The downstream sockets *)

Section ChatExtras.
Import Chat ChatFacts ChatInv ChatInvFacts.
Import Gateway (ReadyState, CONNECTING, OPEN, CLOSING, CLOSED).

(** X10: a chat socket never has two live connections: in every world it
    can reach, a socket that is connecting or open is the client's
    current one ([_connect] and [disconnect] close the socket they
    replace).  And in one turn of the event loop at most one frame is sent,
    on the socket that is current and open. *)
Theorem one_live_socket :
  forall cfg t0 es,
    let w := run es (init cfg t0) in
    (forall s r, sockets w !! s = Some r -> closing r = false ->
                 ws (client w) = Some s) /\
    (forall e, exists l,
        log (step e w) = log w ++ l /\
        forall s f, In (Sent s f) l -> ws_open w = Some s /\ l = [Sent s f]).
Proof.
  intros cfg t0 es w. split.
  - intros s r Hs Hr.
    destruct (decide (ws (client w) = Some s)) as [|Hne]; auto.
    assert (Hw : others_closing w) by apply others_closing_run, others_closing_init.
    rewrite (Hw s r Hs Hne) in Hr. discriminate.
  - intros e. apply chat_sent_step.
Qed.

(** X11: the chat sockets climb the backoff ladder.  From a socket that
    waits for its reconnect timer with [n] attempts counted, [k] failed
    attempts in a row (the timer fires, the new socket closes with a code
    other than 1000), [n + k <= 10], announce the attempts [n + 1] to
    [n + k] with the delays [min(1000 * 2^i, 30000)], [i] from [n] to
    [n + k - 1], and leave the socket waiting again; with 10 attempts
    counted the next failure emits [reconnect_failed] and switches
    reconnection off. *)
Theorem chat_backoff_ladder :
  forall code reason w n k,
    code <> 1000 -> retrying w n -> n + N.of_nat k <= 10 ->
    let w' := Nat.iter k (failed_attempt code reason) w in
    retrying w' (n + N.of_nat k) /\
    log w' = log w ++ ladder code reason n k /\
    (n + N.of_nat k = 10 ->
     shouldReconnect (client (failed_attempt code reason w')) = false /\
     log (failed_attempt code reason w')
     = log w' ++ [Emit "close" (DClose code reason);
                  Emit "reconnect_failed" DEmpty]).
Proof.
  intros code reason w n k Hc Hw Hle w'.
  destruct (failed_attempts code reason w n k Hc Hw Hle) as (Hk & Hl).
  split; [exact Hk|]. split; [exact Hl|].
  intros E. fold w' in Hk. rewrite E in Hk.
  now apply failed_attempt_last.
Qed.

(** X11, at a concrete input: a connection is lost and two attempts to
    restore it fail; the delays announced are 1000, 2000 and 4000 ms. *)
Lemma chat_backoff_ladder_witness :
  log (Nat.iter 2 (failed_attempt 1006 "")
         (run [CallConnect "gw1"; SockOpen 0; SockClose 0 1006 ""]
              (init example_config 0)))
  = [Emit "open" DEmpty;
     Emit "close" (DClose 1006 "");
     Emit "reconnecting" (DReconnecting 1 1000);
     Emit "close" (DClose 1006 "");
     Emit "reconnecting" (DReconnecting 2 2000);
     Emit "close" (DClose 1006 "");
     Emit "reconnecting" (DReconnecting 3 4000)].
Proof.
  assert (Hw : retrying (run [CallConnect "gw1"; SockOpen 0; SockClose 0 1006 ""]
                             (init example_config 0)) 1).
  { split; [reflexivity|]. split; [reflexivity|]. split.
    - exists 2%nat, 1000. split; vm_compute; reflexivity.
    - split; reflexivity. }
  rewrite (proj1 (proj2 (chat_backoff_ladder 1006 "" _ 1 2 ltac:(discriminate) Hw
                           ltac:(vm_compute; discriminate)))).
  vm_compute. reflexivity.
Defined.

(** X12: the heartbeat does not leak.  In every world a chat socket can
    reach, no ping interval is armed but the one the client holds in
    [pingInterval]; after [disconnect] none is armed at all; and a [pong]
    disarms the pong deadline, which then never fires. *)
Theorem heartbeat_does_not_leak :
  forall cfg t0 es,
    let w := run es (init cfg t0) in
    (forall h t, timers w !! h = Some t -> callback t = KPing ->
                 pingInterval (client w) = Some h) /\
    (forall h t, timers (disconnect w) !! h = Some t -> callback t <> KPing) /\
    (forall s h,
        sockets w !! s = Some OPEN -> pongTimeout (client w) = Some h ->
        let w' := step (SockMessage s Pong) w in
        pongTimeout (client w') = None /\ timers w' !! h = None /\
        step (TimerFire h) w' = w').
Proof.
  intros cfg t0 es w.
  assert (Hw : one_heartbeat w) by apply one_heartbeat_run, one_heartbeat_init.
  split; [exact Hw|]. split.
  - intros h t Hl Hc.
    pose proof (one_heartbeat_step CallDisconnect w Hw h t Hl Hc) as Hp.
    cbn [step] in Hp.
    destruct (disconnect_cancels w) as (_ & Hq & _). rewrite Hq in Hp.
    discriminate.
  - intros s h Hs Hp w'. subst w'. cbn [step]. rewrite Hs.
    unfold on_message. rewrite Hp. unfold clearTimer. cbn.
    rewrite lookup_delete_eq. auto.
Qed.

(** X13: a connection that has gone silent is given up and replaced.  When
    the ping interval comes due on the open socket, one [ping] is sent and
    the pong deadline is armed 10 s ahead; if that deadline passes without
    a [pong], the client closes the socket; and when the socket's close
    event arrives (reconnection enabled, a code other than 1000, attempts
    left), a reconnect is scheduled with the backoff delay of the current
    attempt count. *)
Theorem silent_connection_is_replaced :
  forall w s hp d code reason,
    ws_open w = Some s ->
    timers w !! hp = Some (mkTimer d KPing) -> d <= now w ->
    shouldReconnect (client w) = true -> code <> 1000 ->
    reconnectAttempts (client w) < 10 ->
    let w1 := step (TimerFire hp) w in
    let w2 := step (TimerFire (nextTimer w)) (step (Elapse PONG_TIMEOUT) w1) in
    let w3 := step (SockClose s code reason) w2 in
    log w1 = log w ++ [Sent s Ping] /\
    timers w1 !! nextTimer w = Some (mkTimer (now w + 10000) KPong) /\
    sockets w2 !! s = Some CLOSING /\
    reconnectTimer (client w3) = Some (S (nextTimer w)) /\
    timers w3 !! S (nextTimer w)
    = Some (mkTimer (now w + 10000 + backoff_delay (reconnectAttempts (client w)))
                    KReconnect) /\
    log w3 = log w ++
      [Sent s Ping; Emit "close" (DClose code reason);
       Emit "reconnecting"
         (DReconnecting (reconnectAttempts (client w) + 1)
                        (backoff_delay (reconnectAttempts (client w))))].
Proof.
  intros w s hp d code reason Hs Ht Hd Hsr Hc Hn w1 w2 w3. subst w1 w2 w3.
  destruct (ping_fires w s hp d Hs Ht Hd)
    as (Hl1 & Hp1 & Ht1 & Hws1 & Hsk1 & Hnow1 & Hsr1 & Hn1 & Hnt1).
  assert (Hopen : sockets w !! s = Some OPEN).
  { unfold ws_open in Hs. destruct (ws (client w)) as [s'|]; [|discriminate].
    destruct (sockets w !! s') as [[]|] eqn:E; try discriminate.
    now injection Hs as <-. }
  set (w1 := step (TimerFire hp) w) in *. clearbody w1.
  remember (step (Elapse PONG_TIMEOUT) w1) as w1' eqn:E1.
  assert (F1 : now w1' = now w1 + PONG_TIMEOUT) by (subst w1'; reflexivity).
  assert (F2 : sockets w1' = sockets w1) by (subst w1'; reflexivity).
  assert (F3 : client w1' = client w1) by (subst w1'; reflexivity).
  assert (F4 : timers w1' = timers w1) by (subst w1'; reflexivity).
  assert (F5 : nextTimer w1' = nextTimer w1) by (subst w1'; reflexivity).
  assert (F6 : log w1' = log w1) by (subst w1'; reflexivity).
  clear E1.
  destruct (pong_deadline_fires w1' s (nextTimer w) (now w + PONG_TIMEOUT))
    as (Hsk2 & Hl2 & Hsr2 & Hn2 & Hnt2 & Hnow2).
  { now rewrite F3. }
  { now rewrite F2, Hsk1. }
  { now rewrite F4. }
  { rewrite F1, Hnow1. lia. }
  rewrite F3 in Hsr2, Hn2. rewrite F5 in Hnt2. rewrite F6 in Hl2.
  rewrite F1 in Hnow2.
  set (w2 := step (TimerFire (nextTimer w)) w1') in *. clearbody w2.
  assert (Hsr3 : shouldReconnect (client w2) = true) by congruence.
  assert (Hn3 : reconnectAttempts (client w2) < 10) by (rewrite Hn2, Hn1; exact Hn).
  assert (Hne : CLOSING <> CLOSED) by discriminate.
  destruct (close_climbs w2 s CLOSING code reason Hsk2 Hne Hsr3 Hc Hn3)
    as (_ & _ & Hr3 & Ht3 & _ & _ & Hl3).
  rewrite Hnt2, Hnt1 in Hr3, Ht3. rewrite Hn2, Hn1 in Ht3, Hl3.
  rewrite Hnow2, Hnow1 in Ht3. rewrite Hl2, Hl1, <- app_assoc in Hl3.
  repeat split; auto.
Qed.

(** X13, at a concrete input: the first ping of a connection gets no
    answer. *)
Lemma silent_connection_is_replaced_witness :
  reconnectTimer
    (client
       (run [TimerFire 1; Elapse 10000; TimerFire 2; SockClose 0 1006 ""]
            (run [CallConnect "gw1"; SockOpen 0; Elapse 30000]
                 (init example_config 0)))) = Some 3%nat.
Proof.
  refine (proj1 (proj2 (proj2 (proj2
    (silent_connection_is_replaced
       (run [CallConnect "gw1"; SockOpen 0; Elapse 30000] (init example_config 0))
       0%nat 1%nat 30000 1006 "" _ _ _ _ _ _))))).
  - vm_compute. reflexivity.
  - vm_compute. reflexivity.
  - vm_compute. discriminate.
  - vm_compute. reflexivity.
  - discriminate.
  - vm_compute. reflexivity.
Defined.

End ChatExtras.

(** *** Subscriptions *)

Section HandlersExtras.
Import Handlers HandlersFacts.

(** X14: subscribing a handler and then calling the function [on] returned
    leaves every signal with the handlers it had, in the same order,
    provided the handler was not already subscribed to that signal.  ([off]
    removes the first registration of the handler, so with an earlier
    registration it is that one which goes.) *)
Theorem unsubscribe_restores :
  forall (event : string) (handler : nat) (r : gmap string (list nat)),
    ~ In handler (emit event r) ->
    forall event', emit event' (off event handler (on event handler r))
                   = emit event' r.
Proof.
  intros ev h r Hin ev'. rewrite emit_off, !emit_on, String.eqb_refl.
  destruct (String.eqb_spec ev' ev) as [->|Hne]; [|reflexivity].
  now apply remove_first_snoc.
Qed.

(** X14, at a concrete input. *)
Lemma unsubscribe_restores_witness :
  emit "stream" (off "stream" 7 (on "stream" 7 (on "stream" 3 ∅)))
  = emit "stream" (on "stream" 3 ∅).
Proof.
  apply (unsubscribe_restores "stream" 7 (on "stream" 3 ∅)).
  vm_compute. intros [H|[]]. discriminate H.
Defined.

End HandlersExtras.

(** *** Local persistence *)

Section PersistExtras.
Import Persist PersistFacts.



End PersistExtras.

(** *** Notification preferences *)

Section PrefsExtras.
Import Filter Prefs PrefsFacts.

(** X16: [toggleNotification] returns the negation of what
    [isNotificationEnabled] reported, and reports the returned value from
    then on; toggling twice gives back the first answer; and the
    preference of another agent is not changed, as long as the two gateway
    ids contain no [":"]. *)
Theorem toggle_notification :
  forall (g a : jsstring) (st : Stored),
    let v := fst (toggleNotification g a st) in
    let st' := snd (toggleNotification g a st) in
    v = negb (isNotificationEnabled g a st) /\
    isNotificationEnabled g a st' = v /\
    isNotificationEnabled g a (snd (toggleNotification g a st'))
    = isNotificationEnabled g a st /\
    (forall g' a',
        ~ In (unit_of ":") g -> ~ In (unit_of ":") g' ->
        (g', a') <> (g, a) ->
        isNotificationEnabled g' a' st' = isNotificationEnabled g' a' st).
Proof.
  intros g a st v st'. subst v st'.
  split; [apply toggle_flips|]. split; [apply toggle_reads|]. split.
  - rewrite toggle_reads, toggle_flips, toggle_reads, toggle_flips.
    apply negb_involutive.
  - intros g' a' Hg Hg' Hne. apply toggle_other. intros E.
    apply pref_key_inj in E as [-> ->]; auto.
Qed.

(** X17: [showNotification] creates a notification only when the
    permission is granted; its body has at most 100 code units, starts
    with the same 97 code units as the message, and is the message itself
    when that has at most 100 code units. *)
Theorem notification_is_bounded :
  forall (p : Platform) (now : N) (agentName message : jsstring)
         (gatewayName : option jsstring) (n : Notification),
    showNotification p now agentName message gatewayName = Created n ->
    permission p = Granted /\
    (length (n_body n) <= 100)%nat /\
    take 97 (n_body n) = take 97 message /\
    ((length message <= 100)%nat -> n_body n = message).
Proof.
  intros p now ag msg gw n. unfold showNotification.
  destruct (supported p); [|discriminate]. cbn [negb].
  destruct (permission p); try discriminate. intros [= <-]. cbn [n_body].
  split; [reflexivity|]. split; [apply body_length|].
  unfold notification_body. destruct (Nat.ltb_spec 100 (length msg)).
  - split; [|lia]. rewrite take_app_le by (rewrite length_take; lia).
    rewrite take_take. f_equal.
  - split; reflexivity.
Qed.

(** X17, at a concrete input: a message of 120 code units. *)
Lemma notification_is_bounded_witness :
  (length
     (notification_body (List.repeat (unit_of "a") 120)) <= 100)%nat.
Proof.
  exact (proj1 (proj2
    (notification_is_bounded (mkPlatform true Granted) 0 (units "Ada")
       (List.repeat (unit_of "a") 120) None
       (mkNotification (units "Ada")
          (notification_body (List.repeat (unit_of "a") 120))
          "/favicon.ico" "openclaw-0" false)
       eq_refl))).
Defined.

End PrefsExtras.

(** *** The chat hook *)

Section HookExtras.
Import Filter Prefs PrefsFacts Hook HookFacts.

(** X18: messages are stored per gateway and session: appending a message
    to the session [(g, k)] leaves the messages of every other session
    [(g', k')] as they were, as long as the gateway ids contain no ["|"]
    (the storage key is [g|k]). *)
Theorem sessions_do_not_mix :
  forall (g k g' k' : jsstring) (m : ChatMessage) (s : State),
    ~ In (unit_of "|") g -> ~ In (unit_of "|") g' ->
    (g', k') <> (g, k) ->
    messages_of (getSessionKey g' k') (append_message (getSessionKey g k) m s)
    = messages_of (getSessionKey g' k') s.
Proof.
  intros g k g' k' m s Hg Hg' Hne. rewrite messages_of_append.
  destruct (decide _) as [E|]; [|reflexivity].
  apply (split_at_sep _ _ _ _ _ Hg' Hg) in E as [-> ->]. congruence.
Qed.

(** X18, at a concrete input: two sessions of one gateway. *)
Lemma sessions_do_not_mix_witness :
  messages_of (getSessionKey (units "gw1") (units "b"))
    (append_message (getSessionKey (units "gw1") (units "a"))
       (text_message User (units "hi") 0)
       (mkState ∅ None None [] ∅ [] false None ∅))
  = [].
Proof.
  rewrite (sessions_do_not_mix (units "gw1") (units "a") (units "gw1") (units "b")).
  - reflexivity.
  - vm_compute. intros H. repeat destruct H as [H|H]; try discriminate H; exact H.
  - vm_compute. intros H. repeat destruct H as [H|H]; try discriminate H; exact H.
  - intros H. discriminate H.
Defined.

(** X19: the [stream] handler never removes or rewrites a stored message.
    A frame that is not [final] leaves all stored messages as they are; a
    [final] frame appends one assistant message to the session
    [gwId|activeSessionKey] exactly when the frame's text stripped of
    thinking markers is not empty, and changes no stored message
    otherwise.  The message holds the stripped text ([extractText] gives
    it back), carries the time of the frame, and is rendered by the bubble
    after a second [stripThinking]. *)
Theorem stream_appends_final_only :
  forall (gwId : jsstring) (d : StreamData) (env : Env) (s : State),
    let s' := fst (on_stream gwId d env s) in
    let key := getSessionKey gwId (activeSessionKey s) in
    (forall k, k <> key -> messagesBySession s' !! k = messagesBySession s !! k) /\
    (s_state d <> "final"%string -> messagesBySession s' = messagesBySession s) /\
    (messages_of key s' = messages_of key s \/
     exists text m,
       s_state d = "final"%string /\ s_text d = Some text /\
       stripThinking text <> [] /\
       messages_of key s' = messages_of key s ++ [m] /\
       role m = Assistant /\ timestamp m = Some (now env) /\
       extractText (content m) = stripThinking text /\
       rendered m = stripThinking (stripThinking text)) /\
    (forall text,
        s_state d = "final"%string -> s_text d = Some text ->
        stripThinking text <> [] ->
        messages_of key s'
        = messages_of key s
          ++ [text_message Assistant (stripThinking text) (now env)]) /\
    (messages_of key s' <> messages_of key s <->
     s_state d = "final"%string /\
     exists text, s_text d = Some text /\ stripThinking text <> []).
Proof.
  intros gwId d env s s' key. subst s' key.
  assert (forall text,
    s_state d = "final"%string -> s_text d = Some text ->
    stripThinking text <> [] ->
    messages_of (getSessionKey gwId (activeSessionKey s))
      (fst (on_stream gwId d env s))
    = messages_of (getSessionKey gwId (activeSessionKey s)) s
      ++ [text_message Assistant (stripThinking text) (now env)]) as Happ.
  { intros text Hf Ht Hc. unfold messages_of at 1.
    now rewrite (on_stream_appends _ _ _ _ _ Hf Ht Hc), lookup_insert_eq. }
  assert ((messages_of (getSessionKey gwId (activeSessionKey s))
             (fst (on_stream gwId d env s))
           <> messages_of (getSessionKey gwId (activeSessionKey s)) s) <->
          s_state d = "final"%string /\
          exists text, s_text d = Some text /\ stripThinking text <> []) as Hiff.
  { split.
    - intros Hne.
      destruct (on_stream_messages gwId d env s) as [E|(text & Hf & Ht & Hc & _)].
      + exfalso. apply Hne. unfold messages_of. now rewrite E.
      + split; [exact Hf|]. now exists text.
    - intros (Hf & text & Ht & Hc). rewrite (Happ text Hf Ht Hc).
      intros E. apply (f_equal (@length _)) in E. rewrite length_app in E.
      simpl in E. lia. }
  destruct (on_stream_messages gwId d env s) as [E|(text & Hf & Ht & Hc & E)].
  - split; [|split; [|split; [|split]]].
    + intros k _. now rewrite E.
    + intros _. exact E.
    + left. unfold messages_of. now rewrite E.
    + exact Happ.
    + exact Hiff.
  - split; [|split; [|split; [|split]]].
    4: exact Happ.
    4: exact Hiff.
    + intros k Hk. rewrite E. now rewrite lookup_insert_ne by congruence.
    + congruence.
    + right. exists text.
      exists (text_message Assistant (stripThinking text) (now env)).
      repeat split; auto.
      * apply extractText_text_message.
      * unfold rendered. now rewrite extractText_text_message.
Qed.

(** X20: a notification goes out only for a [final] frame of the active
    gateway, with the permission granted, and for an agent whose
    preference under this gateway is switched on; its body is the
    stripped text of the frame cut to at most 100 code units. *)
Theorem notifications_are_opt_in :
  forall (gwId : jsstring) (d : StreamData) (env : Env) (s : State)
         (n : Notification),
    In (Notify n) (snd (on_stream gwId d env s)) ->
    s_state d = "final"%string /\
    activeGatewayId s = Some gwId /\
    permission (platform env) = Granted /\
    (exists agentId, isNotificationEnabled gwId agentId (prefs env) = true) /\
    (exists text, s_text d = Some text /\
                  n_body n = notification_body (stripThinking text)) /\
    (length (n_body n) <= 100)%nat.
Proof.
  intros gwId d env s n. unfold on_stream.
  destruct (String.eqb_spec (s_state d) "delta").
  { destruct (s_text d); [destruct (_ && _)|]; intros []. }
  destruct (String.eqb_spec (s_state d) "final") as [Hf|].
  2: { destruct (String.eqb (s_state d) "error"); intros []. }
  destruct (s_text d) as [text|] eqn:Ht; [|intros []].
  destruct (truthy (Some text)); [|intros []].
  destruct (truthy (Some (stripThinking text))); [|intros []].
  destruct (bool_decide _) eqn:Ha; [|intros []].
  apply bool_decide_eq_true in Ha.
  match goal with
  | |- context [notify_final ?a ?b ?c ?d] =>
      destruct (notify_final a b c d) as [| |n'] eqn:Hn
  end; [intros []|intros []|].
  intros [[= ->]|[]].
  apply notify_created in Hn as (_ & Hp & Hb & gw & agentId & _ & _ & _ & He).
  repeat split; eauto. rewrite Hb. apply body_length.
Qed.

(** X20, at a concrete input. *)
Lemma notifications_are_opt_in_witness :
  exists n,
    In (Notify n)
       (snd (on_stream (units "gw1")
               (mkStream "final" (Some (units "<think>x</think>done")) None)
               example_env example_state)) /\
    (length (n_body n) <= 100)%nat.
Proof.
  eexists. split.
  - vm_compute. left. reflexivity.
  - eapply (notifications_are_opt_in (units "gw1")
              (mkStream "final" (Some (units "<think>x</think>done")) None)
              example_env example_state).
    vm_compute. left. reflexivity.
Defined.

(** X21: frames of a gateway that is not the active one: a [delta] frame
    leaves the stream text and the streaming flag alone (it only marks the
    gateway as processing); a [final] or [error] frame empties the stream
    text and clears the streaming flag all the same, and unmarks the
    gateway. *)
Theorem background_frames :
  forall (gwId : jsstring) (d : StreamData) (env : Env) (s : State),
    activeGatewayId s <> Some gwId ->
    let s' := fst (on_stream gwId d env s) in
    (s_state d = "delta"%string ->
     streamText s' = streamText s /\ streaming s' = streaming s /\
     activeProcesses s' !! gwId = Some true) /\
    (s_state d = "final"%string \/ s_state d = "error"%string ->
     streamText s' = [] /\ streaming s' = false /\
     activeProcesses s' !! gwId = None).
Proof.
  intros gwId d env s Hna s'. subst s'. unfold on_stream.
  rewrite (bool_decide_eq_false_2 _ Hna). cbn [andb].
  split.
  - intros ->. cbn. destruct (s_text d); cbn; rewrite lookup_insert_eq; auto.
  - intros [-> | ->]; cbn.
    + destruct (s_text d) as [t|];
        [generalize (stripThinking t); intros cl; destruct t, cl|]; cbn;
        rewrite lookup_delete_eq; auto.
    + rewrite lookup_delete_eq; auto.
Qed.

(** X21, at a concrete input: the reply of a background gateway ends while
    the active one is streaming. *)
Lemma background_frames_witness :
  streaming
    (fst (on_stream (units "gw2") (mkStream "final" None None) example_env
            example_state)) = false.
Proof.
  refine (proj1 (proj2 (proj2
    (background_frames (units "gw2") (mkStream "final" None None) example_env
       example_state _) (or_introl eq_refl)))).
  vm_compute. intros H. discriminate H.
Defined.

(** X22: [sendMessage] sends a frame only when no reply is streaming, for
    the active gateway, on a socket that reports [connected]; the frame
    carries the active session key and the trimmed text, which is not
    empty, and that text is appended as one user message to the active
    session, the one [getCurrentMessages] reads; when no frame is sent,
    every session has the messages it had (also when [send] threw: the
    message just appended is taken off again). *)
Theorem send_matches_transcript :
  forall (text : jsstring) (env : Env) (s : State),
    let s' := fst (sendMessage text env s) in
    let eff := snd (sendMessage text env s) in
    (forall g k m a,
        In (SocketSend g k m a) eff ->
        streaming s = false /\ activeGatewayId s = Some g /\
        sockets env !! g = Some true /\
        k = activeSessionKey s /\ m = trim text /\ m <> [] /\
        messages_of (getSessionKey g k) s'
        = messages_of (getSessionKey g k) s ++ [text_message User m (now env)] /\
        getCurrentMessages s'
        = getCurrentMessages s ++ [text_message User m (now env)] /\
        streaming s' = true) /\
    ((forall g k m a, ~ In (SocketSend g k m a) eff) ->
     forall key, messages_of key s' = messages_of key s).
Proof.
  intros text env s s' eff. subst s' eff. unfold sendMessage, getActiveSocket.
  destruct (trim text) as [|c t] eqn:Ht.
  { split; [intros ? ? ? ? []|reflexivity]. }
  destruct (streaming s) eqn:Hs.
  { split; [intros ? ? ? ? []|reflexivity]. }
  destruct (activeGatewayId s) as [g0|] eqn:Hg.
  2: { split; [intros ? ? ? ? []|reflexivity]. }
  destruct (truthy (Some g0)) eqn:Htr.
  2: { split; [intros ? ? ? ? []|reflexivity]. }
  destruct (sockets env !! g0) as [[]|] eqn:Hc.
  2,3: split; [intros ? ? ? ? []|reflexivity].
  destruct (send_throws env) as [msg|]; cbn [fst snd].
  - split; [intros ? ? ? ? []|]. intros _ key.
    unfold messages_of at 1. cbn.
    destruct (decide (key = getSessionKey g0 (activeSessionKey s))) as [->|Hne].
    + rewrite lookup_insert_eq.
      unfold messages_of at 1. cbn. rewrite lookup_insert_eq.
      now rewrite removelast_last.
    + rewrite !lookup_insert_ne by congruence. reflexivity.
  - split.
    + intros g k m a [[= <- <- <- <-]|[H|[]]]; [|discriminate H].
      assert (Hm : forall v,
                 match <[getSessionKey g0 (activeSessionKey s) := v]>
                         (messagesBySession s)
                       !! getSessionKey g0 (activeSessionKey s) with
                 | Some l => l
                 | None => []
                 end = v).
      { intros v. now rewrite lookup_insert_eq. }
      repeat split; auto; try discriminate.
      * unfold messages_of at 1. cbn. apply Hm.
      * unfold getCurrentMessages. cbn [activeGatewayId set_error set_streamText
          set_streaming append_message set_messagesBySession activeSessionKey].
        rewrite Hg, Htr. unfold messages_of at 1. cbn. apply Hm.
    + intros H. exfalso. eapply H. left. reflexivity.
Qed.

(** X23: one message at a time.  Once [sendMessage] has sent a frame,
    and until a [final] or [error] frame arrives or the run is aborted,
    further calls of [sendMessage] and further [delta] frames send
    nothing at all, and the hook stays in the streaming state. *)
Theorem one_message_at_a_time :
  forall text env s g k m a es,
    In (SocketSend g k m a) (snd (sendMessage text env s)) ->
    forallb (fun e => negb (ends_stream e)) es = true ->
    let s1 := fst (sendMessage text env s) in
    streaming (fst (run es s1)) = true /\ snd (run es s1) = [].
Proof.
  intros text env s g k m a es Hin Hes s1. apply streaming_run; auto.
  eapply send_sets_streaming; eauto.
Qed.

(** X23, at a concrete input: a second message typed while the first reply
    is streaming. *)
Lemma one_message_at_a_time_witness :
  snd (run [ESend (units "again") example_online;
            EStream (units "gw1") (mkStream "delta" (Some (units "x")) None)
                    example_online]
           (fst (sendMessage (units "hi") example_online example_idle))) = [].
Proof.
  refine (proj2
    (one_message_at_a_time (units "hi") example_online example_idle
       (units "gw1") (units "s1") (units "hi") None _ _ _)).
  - vm_compute. left. reflexivity.
  - vm_compute. reflexivity.
Defined.

End HookExtras.

(** *** The federated chat hook *)

Section FedHookExtras.
Import Filter FedHook FedHookFacts.

(** X24: in the federated hook the flag [streaming] never disagrees with
    the streams in progress: after any sequence of frames, session
    changes, sends and aborts, the sources with a partial text are exactly
    those marked as streaming, and [streaming] is true exactly when there
    is one.  The partial text of a source is the concatenation of the
    non-empty [delta] texts received from it. *)
Theorem federated_streaming_in_sync :
  (forall es,
      let s := run es init in
      dom (streamingMessages s) = streamingSources s /\
      (streaming s = true <-> streamingSources s <> ∅)) /\
  (forall src now ts s,
      Forall (fun t => t <> []) ts -> ts <> [] ->
      streamingMessages (run (List.map (delta src now) ts) s) !! sourceKey src
      = Some (match streamingMessages s !! sourceKey src with
              | Some t => t
              | None => []
              end ++ concat ts)).
Proof.
  split.
  - intros es s. apply run_sync, init_sync.
  - intros src now ts s. apply deltas_accumulate.
Qed.

End FedHookExtras.

(** *** The age of a message *)

Section BubbleExtras.
Import Bubble.
Local Open Scope Z_scope.

(** X25: the age shown under a message counts whole minutes, hours or
    days: for a message with a timestamp other than 0, sent [diff]
    milliseconds ago, it is ["Just now"] below one minute (also for a
    timestamp in the future), the number of whole minutes below one hour,
    of whole hours below one day, and of whole days from then on. *)
Theorem relative_time_thresholds :
  forall ts now,
    ts <> 0 ->
    let diff := now - ts in
    let shown := getRelativeTime (Some ts) now in
    (diff < 60000 -> shown = "Just now"%string) /\
    (60000 <= diff < 3600000 ->
     shown = (decimalZ (diff / 60000) +:+ "m ago")%string) /\
    (3600000 <= diff < 86400000 ->
     shown = (decimalZ (diff / 3600000) +:+ "h ago")%string) /\
    (86400000 <= diff ->
     shown = (decimalZ (diff / 86400000) +:+ "d ago")%string).
Proof.
  intros ts now Hts diff shown. subst shown. unfold getRelativeTime.
  apply Z.eqb_neq in Hts. rewrite Hts. fold diff. cbv zeta.
  assert (Em : diff / 1000 / 60 = diff / 60000).
  { rewrite Z.div_div by lia. reflexivity. }
  assert (Eh : diff / 1000 / 60 / 60 = diff / 3600000).
  { rewrite Em, Z.div_div by lia. reflexivity. }
  assert (Ed : diff / 1000 / 60 / 60 / 24 = diff / 86400000).
  { rewrite Eh, Z.div_div by lia. reflexivity. }
  rewrite Ed, Eh, Em. generalize diff. clear. intros diff.
  repeat split; intros H.
  all: destruct (Z.ltb_spec 0 (diff / 86400000)) as [Hd|Hd];
       destruct (Z.ltb_spec 0 (diff / 3600000)) as [Hh|Hh];
       destruct (Z.ltb_spec 0 (diff / 60000)) as [Hm|Hm];
       try reflexivity; exfalso;
       revert Hd Hh Hm; Z.div_mod_to_equations; lia.
Qed.

(** X25, at a concrete input: a message sent 90 minutes ago. *)
Lemma relative_time_thresholds_witness :
  getRelativeTime (Some 1000) (1000 + 5400000) = "1h ago"%string.
Proof.
  assert (H : 1000 <> 0) by lia.
  rewrite (proj1 (proj2 (proj2
    (relative_time_thresholds 1000 (1000 + 5400000) H)))).
  - reflexivity.
  - lia.
Defined.

End BubbleExtras.
